(** * echo-realtime-linguist: the transcript accumulator, the translation
      trigger and the speech coordinator of the [Index] page, with the
      [useTranslation] and [useTextToSpeech] hooks.

    The React component is embedded as an explicit state machine: the
    component state, the two refs, the browser's timer table, its
    [localStorage] and the asynchronous operations that are in flight are
    fields of one record, every callback of the source is a function on
    that record, and one event of the browser's event loop is one step.

    What the machine takes from React: the state updates of one callback
    are batched; the render that follows closes over the new values; an
    effect runs when one of its dependencies differs from the render
    before, after the effects declared above it. A step takes the commit
    to be over before the next event is handled; a timer that fires
    between a callback and its commit is looked at on its own (C5), in the
    state the callback leaves. An [await] ends a step: what follows it
    runs as a later event, in the closure of the render that started the
    call. Audio capture and the socket are outside the machine (final
    transcripts arrive as events), and so are the two language selectors:
    the language codes keep their initial values. Of the settings dialog
    the machine has what the page sees: it is opened, dismissed or saved.

    Beside the machine stand the form of the settings dialog and the
    language selector, the change of the target language as a step of its
    own, and the audio hook [useAudioRecording]: its sample conversion,
    the message handler of its socket, and [startRecording] and
    [stopRecording] over the browser objects they hold. *)

From Stdlib Require Import NArith Lia.
From Stdlib Require Import Ascii String.
From stdpp Require Import base numbers option list strings gmap.

Set Default Proof Using "Type".
Local Open Scope N_scope.

(** ** JavaScript strings

    A JavaScript string is a sequence of UTF-16 code units; [length],
    [substring], [endsWith], [startsWith], [trim] and the regular
    expression [/[.?!]$/] all work on code units. *)

Abbreviation jsstring := (list N).

(** An ASCII literal as a sequence of code units. *)
Definition lit (s : string) : jsstring :=
  List.map N_of_ascii (list_ascii_of_string s).

Definition SPACE : N := 32.

(** The characters [String.prototype.trim] strips: ECMAScript WhiteSpace
    (TAB, VT, FF, SP, NBSP, ZWNBSP and the Unicode space separators)
    and LineTerminator (LF, CR, LS, PS). *)
Definition isWhiteSpace (c : N) : bool :=
  ((9 <=? c) && (c <=? 13))
  || (c =? 32) || (c =? 160) || (c =? 5760)
  || ((8192 <=? c) && (c <=? 8202))
  || (c =? 8232) || (c =? 8233) || (c =? 8239) || (c =? 8287)
  || (c =? 12288) || (c =? 65279).

Fixpoint trimStart (s : jsstring) : jsstring :=
  match s with
  | [] => []
  | c :: s' => if isWhiteSpace c then trimStart s' else s
  end.

Definition trimEnd (s : jsstring) : jsstring :=
  reverse (trimStart (reverse s)).

Definition trim (s : jsstring) : jsstring := trimEnd (trimStart s).

(** [s.substring(start)]: the code units from [start] on, the empty string
    when [start] is past the end. *)
Definition substring (s : jsstring) (start : nat) : jsstring := drop start s.

Fixpoint startsWith (s p : jsstring) {struct p} : bool :=
  match p with
  | [] => true
  | c :: p' =>
      match s with
      | [] => false
      | d :: s' => (d =? c) && startsWith s' p'
      end
  end.

Definition endsWith (s p : jsstring) : bool :=
  startsWith (reverse s) (reverse p).

(** The character class [[.?!]]. *)
Definition isTerminal (c : N) : bool := (c =? 46) || (c =? 63) || (c =? 33).

(** [/[.?!]$/.test(s)]: without the [m] flag [$] matches at the end of the
    input only, so the test is on the last code unit. *)
Definition endsWithPunctuation (s : jsstring) : bool :=
  match last s with
  | Some c => isTerminal c
  | None => false
  end.

(** A string in a condition: the empty string is the only falsy one. *)
Definition truthy (s : jsstring) : bool :=
  match s with [] => false | _ :: _ => true end.

(** ** TranscriptAccumulator: [onTranscription] of [Index] *)

Definition needsSpace (prevText newTextChunk : jsstring) : bool :=
  (0 <? length prevText)%nat
  && (0 <? length newTextChunk)%nat
  && negb (endsWith prevText [SPACE])
  && negb (startsWith newTextChunk [SPACE])
  && negb (endsWithPunctuation (trim prevText)).

(** The updater passed to [setSourceText]. *)
Definition onTranscription (prevText newTextChunk : jsstring) : jsstring :=
  prevText ++ (if needsSpace prevText newTextChunk then [SPACE] else [])
           ++ newTextChunk.

(** The buffer after a sequence of final fragments, from the empty buffer
    of a session start. *)
Definition accumulate (fragments : list jsstring) : jsstring :=
  foldl onTranscription [] fragments.


(** ** The state of the page

    A render of [Index] closes over the values of its state variables;
    every callback created in that render (an effect, a timer callback, the
    toggle handler) reads those values, not the current ones. Refs are read
    when the callback runs. *)

Record Render : Type := mkRender {
  r_sourceLanguage : string;
  r_targetLanguage : string;
  r_sourceText : jsstring;
  r_translatedText : jsstring;
  r_isRecording : bool;
  r_isSpeaking : bool
}.

(** The callback handed to [setTimeout] by the speech effect: the render it
    was created in and the [newTranslatedPortion] computed there. *)
Record TimerClosure : Type := mkTimer {
  tc_render : Render;
  tc_portion : jsstring
}.

Inductive Request : Type :=
| TranslateRequest (from : option string) (to : string)
                   (key region : string) (text : jsstring)
| SpeechRequest (voiceId : string) (key : string) (text : jsstring).

(** A [speak] call that reached [fetch]: awaiting the response, or playing
    the audio it got. *)
Inductive SpeechPhase : Type := Fetching | Playing.

(** A [handleRecordingToggle] call suspended at [await stopRecording()]
    (with the render it closes over) or at [await startRecording()]. *)
Inductive ToggleCont : Type :=
| StopCont (c : Render)
| StartCont.

Record State : Type := mkState {
  isSettingsOpen : bool; (* [useState(false)] *)
  sourceLanguage : string; (* [useState("Auto-Detect")] *)
  targetLanguage : string; (* [useState("es")] *)
  sourceText : jsstring; (* SourceTextBuffer *)
  translatedText : jsstring; (* TranslatedTextBuffer *)
  isRecording : bool; (* [useState(false)] *)
  lastSpokenTranslatedTextRef : jsstring; (* its length is the SpokenWatermark *)
  ttsDebounceTimerRef : option positive; (* handle of the last timer armed *)
  isTranslating : bool; (* [useTranslation] *)
  translationError : option string; (* [useTranslation] *)
  isSpeaking : bool; (* [useTextToSpeech]: the currently-speaking flag *)
  ttsError : option string; (* [useTextToSpeech] *)
  localStorage : gmap string string; (* the persisted API keys *)
  timers : gmap positive TimerClosure; (* the timers that are armed *)
  nextTimer : positive; (* the handle [setTimeout] returns next *)
  network : list Request; (* every [fetch] issued so far *)
  translations : list jsstring; (* [translateText] calls awaiting their response *)
  speeches : list SpeechPhase; (* [speak] calls between [fetch] and the end of playback *)
  toggles : list ToggleCont; (* [handleRecordingToggle] calls suspended at their [await] *)
  speakLog : list (jsstring * string) (* ghost: the arguments of every [speak] call of [Index] *)
}.

Definition set_sourceText (v : jsstring) (s : State) : State :=
  {| isSettingsOpen := isSettingsOpen s;
     sourceLanguage := sourceLanguage s; targetLanguage := targetLanguage s;
     sourceText := v; translatedText := translatedText s; isRecording :=
     isRecording s; lastSpokenTranslatedTextRef := lastSpokenTranslatedTextRef
     s; ttsDebounceTimerRef := ttsDebounceTimerRef s; isTranslating :=
     isTranslating s; translationError := translationError s; isSpeaking :=
     isSpeaking s; ttsError := ttsError s; localStorage := localStorage s;
     timers := timers s; nextTimer := nextTimer s; network := network s;
     translations := translations s; speeches := speeches s; toggles :=
     toggles s; speakLog := speakLog s |}.

Definition set_translatedText (v : jsstring) (s : State) : State :=
  {| isSettingsOpen := isSettingsOpen s;
     sourceLanguage := sourceLanguage s; targetLanguage := targetLanguage s;
     sourceText := sourceText s; translatedText := v; isRecording :=
     isRecording s; lastSpokenTranslatedTextRef := lastSpokenTranslatedTextRef
     s; ttsDebounceTimerRef := ttsDebounceTimerRef s; isTranslating :=
     isTranslating s; translationError := translationError s; isSpeaking :=
     isSpeaking s; ttsError := ttsError s; localStorage := localStorage s;
     timers := timers s; nextTimer := nextTimer s; network := network s;
     translations := translations s; speeches := speeches s; toggles :=
     toggles s; speakLog := speakLog s |}.

Definition set_isRecording (v : bool) (s : State) : State :=
  {| isSettingsOpen := isSettingsOpen s;
     sourceLanguage := sourceLanguage s; targetLanguage := targetLanguage s;
     sourceText := sourceText s; translatedText := translatedText s;
     isRecording := v; lastSpokenTranslatedTextRef :=
     lastSpokenTranslatedTextRef s; ttsDebounceTimerRef := ttsDebounceTimerRef
     s; isTranslating := isTranslating s; translationError := translationError
     s; isSpeaking := isSpeaking s; ttsError := ttsError s; localStorage :=
     localStorage s; timers := timers s; nextTimer := nextTimer s; network :=
     network s; translations := translations s; speeches := speeches s;
     toggles := toggles s; speakLog := speakLog s |}.

Definition set_lastSpokenTranslatedTextRef (v : jsstring) (s : State) : State :=
  {| isSettingsOpen := isSettingsOpen s;
     sourceLanguage := sourceLanguage s; targetLanguage := targetLanguage s;
     sourceText := sourceText s; translatedText := translatedText s;
     isRecording := isRecording s; lastSpokenTranslatedTextRef := v;
     ttsDebounceTimerRef := ttsDebounceTimerRef s; isTranslating :=
     isTranslating s; translationError := translationError s; isSpeaking :=
     isSpeaking s; ttsError := ttsError s; localStorage := localStorage s;
     timers := timers s; nextTimer := nextTimer s; network := network s;
     translations := translations s; speeches := speeches s; toggles :=
     toggles s; speakLog := speakLog s |}.

Definition set_ttsDebounceTimerRef (v : option positive) (s : State) : State :=
  {| isSettingsOpen := isSettingsOpen s;
     sourceLanguage := sourceLanguage s; targetLanguage := targetLanguage s;
     sourceText := sourceText s; translatedText := translatedText s;
     isRecording := isRecording s; lastSpokenTranslatedTextRef :=
     lastSpokenTranslatedTextRef s; ttsDebounceTimerRef := v; isTranslating :=
     isTranslating s; translationError := translationError s; isSpeaking :=
     isSpeaking s; ttsError := ttsError s; localStorage := localStorage s;
     timers := timers s; nextTimer := nextTimer s; network := network s;
     translations := translations s; speeches := speeches s; toggles :=
     toggles s; speakLog := speakLog s |}.

Definition set_isTranslating (v : bool) (s : State) : State :=
  {| isSettingsOpen := isSettingsOpen s;
     sourceLanguage := sourceLanguage s; targetLanguage := targetLanguage s;
     sourceText := sourceText s; translatedText := translatedText s;
     isRecording := isRecording s; lastSpokenTranslatedTextRef :=
     lastSpokenTranslatedTextRef s; ttsDebounceTimerRef := ttsDebounceTimerRef
     s; isTranslating := v; translationError := translationError s; isSpeaking
     := isSpeaking s; ttsError := ttsError s; localStorage := localStorage s;
     timers := timers s; nextTimer := nextTimer s; network := network s;
     translations := translations s; speeches := speeches s; toggles :=
     toggles s; speakLog := speakLog s |}.

Definition set_translationError (v : option string) (s : State) : State :=
  {| isSettingsOpen := isSettingsOpen s;
     sourceLanguage := sourceLanguage s; targetLanguage := targetLanguage s;
     sourceText := sourceText s; translatedText := translatedText s;
     isRecording := isRecording s; lastSpokenTranslatedTextRef :=
     lastSpokenTranslatedTextRef s; ttsDebounceTimerRef := ttsDebounceTimerRef
     s; isTranslating := isTranslating s; translationError := v; isSpeaking :=
     isSpeaking s; ttsError := ttsError s; localStorage := localStorage s;
     timers := timers s; nextTimer := nextTimer s; network := network s;
     translations := translations s; speeches := speeches s; toggles :=
     toggles s; speakLog := speakLog s |}.

Definition set_isSpeaking (v : bool) (s : State) : State :=
  {| isSettingsOpen := isSettingsOpen s;
     sourceLanguage := sourceLanguage s; targetLanguage := targetLanguage s;
     sourceText := sourceText s; translatedText := translatedText s;
     isRecording := isRecording s; lastSpokenTranslatedTextRef :=
     lastSpokenTranslatedTextRef s; ttsDebounceTimerRef := ttsDebounceTimerRef
     s; isTranslating := isTranslating s; translationError := translationError
     s; isSpeaking := v; ttsError := ttsError s; localStorage := localStorage
     s; timers := timers s; nextTimer := nextTimer s; network := network s;
     translations := translations s; speeches := speeches s; toggles :=
     toggles s; speakLog := speakLog s |}.

Definition set_ttsError (v : option string) (s : State) : State :=
  {| isSettingsOpen := isSettingsOpen s;
     sourceLanguage := sourceLanguage s; targetLanguage := targetLanguage s;
     sourceText := sourceText s; translatedText := translatedText s;
     isRecording := isRecording s; lastSpokenTranslatedTextRef :=
     lastSpokenTranslatedTextRef s; ttsDebounceTimerRef := ttsDebounceTimerRef
     s; isTranslating := isTranslating s; translationError := translationError
     s; isSpeaking := isSpeaking s; ttsError := v; localStorage :=
     localStorage s; timers := timers s; nextTimer := nextTimer s; network :=
     network s; translations := translations s; speeches := speeches s;
     toggles := toggles s; speakLog := speakLog s |}.

Definition set_localStorage (v : gmap string string) (s : State) : State :=
  {| isSettingsOpen := isSettingsOpen s;
     sourceLanguage := sourceLanguage s; targetLanguage := targetLanguage s;
     sourceText := sourceText s; translatedText := translatedText s;
     isRecording := isRecording s; lastSpokenTranslatedTextRef :=
     lastSpokenTranslatedTextRef s; ttsDebounceTimerRef := ttsDebounceTimerRef
     s; isTranslating := isTranslating s; translationError := translationError
     s; isSpeaking := isSpeaking s; ttsError := ttsError s; localStorage := v;
     timers := timers s; nextTimer := nextTimer s; network := network s;
     translations := translations s; speeches := speeches s; toggles :=
     toggles s; speakLog := speakLog s |}.

Definition set_timers (v : gmap positive TimerClosure) (s : State) : State :=
  {| isSettingsOpen := isSettingsOpen s;
     sourceLanguage := sourceLanguage s; targetLanguage := targetLanguage s;
     sourceText := sourceText s; translatedText := translatedText s;
     isRecording := isRecording s; lastSpokenTranslatedTextRef :=
     lastSpokenTranslatedTextRef s; ttsDebounceTimerRef := ttsDebounceTimerRef
     s; isTranslating := isTranslating s; translationError := translationError
     s; isSpeaking := isSpeaking s; ttsError := ttsError s; localStorage :=
     localStorage s; timers := v; nextTimer := nextTimer s; network := network
     s; translations := translations s; speeches := speeches s; toggles :=
     toggles s; speakLog := speakLog s |}.

Definition set_nextTimer (v : positive) (s : State) : State :=
  {| isSettingsOpen := isSettingsOpen s;
     sourceLanguage := sourceLanguage s; targetLanguage := targetLanguage s;
     sourceText := sourceText s; translatedText := translatedText s;
     isRecording := isRecording s; lastSpokenTranslatedTextRef :=
     lastSpokenTranslatedTextRef s; ttsDebounceTimerRef := ttsDebounceTimerRef
     s; isTranslating := isTranslating s; translationError := translationError
     s; isSpeaking := isSpeaking s; ttsError := ttsError s; localStorage :=
     localStorage s; timers := timers s; nextTimer := v; network := network s;
     translations := translations s; speeches := speeches s; toggles :=
     toggles s; speakLog := speakLog s |}.

Definition set_network (v : list Request) (s : State) : State :=
  {| isSettingsOpen := isSettingsOpen s;
     sourceLanguage := sourceLanguage s; targetLanguage := targetLanguage s;
     sourceText := sourceText s; translatedText := translatedText s;
     isRecording := isRecording s; lastSpokenTranslatedTextRef :=
     lastSpokenTranslatedTextRef s; ttsDebounceTimerRef := ttsDebounceTimerRef
     s; isTranslating := isTranslating s; translationError := translationError
     s; isSpeaking := isSpeaking s; ttsError := ttsError s; localStorage :=
     localStorage s; timers := timers s; nextTimer := nextTimer s; network :=
     v; translations := translations s; speeches := speeches s; toggles :=
     toggles s; speakLog := speakLog s |}.

Definition set_translations (v : list jsstring) (s : State) : State :=
  {| isSettingsOpen := isSettingsOpen s;
     sourceLanguage := sourceLanguage s; targetLanguage := targetLanguage s;
     sourceText := sourceText s; translatedText := translatedText s;
     isRecording := isRecording s; lastSpokenTranslatedTextRef :=
     lastSpokenTranslatedTextRef s; ttsDebounceTimerRef := ttsDebounceTimerRef
     s; isTranslating := isTranslating s; translationError := translationError
     s; isSpeaking := isSpeaking s; ttsError := ttsError s; localStorage :=
     localStorage s; timers := timers s; nextTimer := nextTimer s; network :=
     network s; translations := v; speeches := speeches s; toggles := toggles
     s; speakLog := speakLog s |}.

Definition set_speeches (v : list SpeechPhase) (s : State) : State :=
  {| isSettingsOpen := isSettingsOpen s;
     sourceLanguage := sourceLanguage s; targetLanguage := targetLanguage s;
     sourceText := sourceText s; translatedText := translatedText s;
     isRecording := isRecording s; lastSpokenTranslatedTextRef :=
     lastSpokenTranslatedTextRef s; ttsDebounceTimerRef := ttsDebounceTimerRef
     s; isTranslating := isTranslating s; translationError := translationError
     s; isSpeaking := isSpeaking s; ttsError := ttsError s; localStorage :=
     localStorage s; timers := timers s; nextTimer := nextTimer s; network :=
     network s; translations := translations s; speeches := v; toggles :=
     toggles s; speakLog := speakLog s |}.

Definition set_toggles (v : list ToggleCont) (s : State) : State :=
  {| isSettingsOpen := isSettingsOpen s;
     sourceLanguage := sourceLanguage s; targetLanguage := targetLanguage s;
     sourceText := sourceText s; translatedText := translatedText s;
     isRecording := isRecording s; lastSpokenTranslatedTextRef :=
     lastSpokenTranslatedTextRef s; ttsDebounceTimerRef := ttsDebounceTimerRef
     s; isTranslating := isTranslating s; translationError := translationError
     s; isSpeaking := isSpeaking s; ttsError := ttsError s; localStorage :=
     localStorage s; timers := timers s; nextTimer := nextTimer s; network :=
     network s; translations := translations s; speeches := speeches s;
     toggles := v; speakLog := speakLog s |}.

Definition set_speakLog (v : list (jsstring * string)) (s : State) : State :=
  {| isSettingsOpen := isSettingsOpen s;
     sourceLanguage := sourceLanguage s; targetLanguage := targetLanguage s;
     sourceText := sourceText s; translatedText := translatedText s;
     isRecording := isRecording s; lastSpokenTranslatedTextRef :=
     lastSpokenTranslatedTextRef s; ttsDebounceTimerRef := ttsDebounceTimerRef
     s; isTranslating := isTranslating s; translationError := translationError
     s; isSpeaking := isSpeaking s; ttsError := ttsError s; localStorage :=
     localStorage s; timers := timers s; nextTimer := nextTimer s; network :=
     network s; translations := translations s; speeches := speeches s;
     toggles := toggles s; speakLog := v |}.

Definition set_isSettingsOpen (v : bool) (s : State) : State :=
  {| isSettingsOpen := v;
     sourceLanguage := sourceLanguage s; targetLanguage := targetLanguage s;
     sourceText := sourceText s; translatedText := translatedText s;
     isRecording := isRecording s; lastSpokenTranslatedTextRef :=
     lastSpokenTranslatedTextRef s; ttsDebounceTimerRef := ttsDebounceTimerRef
     s; isTranslating := isTranslating s; translationError := translationError
     s; isSpeaking := isSpeaking s; ttsError := ttsError s; localStorage :=
     localStorage s; timers := timers s; nextTimer := nextTimer s; network :=
     network s; translations := translations s; speeches := speeches s;
     toggles := toggles s; speakLog := speakLog s |}.

(** The values the next render closes over. *)
Definition render (s : State) : Render :=
  {| r_sourceLanguage := sourceLanguage s;
     r_targetLanguage := targetLanguage s;
     r_sourceText := sourceText s;
     r_translatedText := translatedText s;
     r_isRecording := isRecording s;
     r_isSpeaking := isSpeaking s |}.

(** [SpokenWatermark]: the length of the text already handed to [speak]. *)
Definition watermark (s : State) : nat :=
  length (lastSpokenTranslatedTextRef s).

(** The page as first mounted, over a given [localStorage]. *)
Definition init (ls : gmap string string) : State :=
  {| isSettingsOpen := false;
     sourceLanguage := "Auto-Detect"; targetLanguage := "es";
     sourceText := []; translatedText := []; isRecording := false;
     lastSpokenTranslatedTextRef := []; ttsDebounceTimerRef := None;
     isTranslating := false; translationError := None;
     isSpeaking := false; ttsError := None;
     localStorage := ls; timers := ∅; nextTimer := 1%positive;
     network := []; translations := []; speeches := []; toggles := [];
     speakLog := [] |}.

(** ** Browser primitives *)

(** [localStorage.getItem(k)] used as a condition or under [||]: [null]
    and the empty string are both falsy. *)
Definition getKey (k : string) (s : State) : option string :=
  match localStorage s !! k with
  | Some EmptyString => None
  | r => r
  end.

Definition clearTimeout (id : positive) (s : State) : State :=
  set_timers (delete id (timers s)) s.

(** [setTimeout(cb, 700)]: arms a timer under a fresh handle, which is
    stored in [ttsDebounceTimerRef]. Handles are positive, hence truthy. *)
Definition armDebounce (cb : TimerClosure) (s : State) : State :=
  let id := nextTimer s in
  set_ttsDebounceTimerRef (Some id)
    (set_nextTimer (Pos.succ id) (set_timers (<[id := cb]> (timers s)) s)).

(** [if (ttsDebounceTimerRef.current) clearTimeout(ttsDebounceTimerRef.current)];
    the ref keeps the handle. *)
Definition clearDebounce (s : State) : State :=
  match ttsDebounceTimerRef s with
  | Some id => clearTimeout id s
  | None => s
  end.

(** What an [await]ed call hands back at once, if anything. *)
Inductive Async (A : Type) : Type :=
| Resolved (a : A)
| Pending.
Arguments Resolved {A} a.
Arguments Pending {A}.

Inductive FetchFailure : Type :=
| Threw (message : option string)   (* an exception; [Some] for an [Error] *)
| NotOk (statusText : string).       (* [!response.ok] *)

(** ** TranslationClient: [translateText] of [useTranslation] *)

(** [translateText] up to its first [await]: the state it leaves and what
    the caller's [await] gets at once ([Pending] when the request went out). *)
Definition translateText (text : jsstring) (sourceLanguage targetLanguage : string)
    (s : State) : State * Async (option jsstring) :=
  if negb (truthy (trim text)) then (s, Resolved None)
  else
    let s1 := set_translationError None (set_isTranslating true s) in
    match getKey "azure_api_key" s1 with
    | None =>
        (set_isTranslating false
           (set_translationError (Some "Azure API key not configured"%string) s1),
         Resolved None)
    | Some azureKey =>
        let azureRegion := default "central india"%string (getKey "azure_region" s1) in
        let from :=
          if String.eqb sourceLanguage "Auto-Detect" then None
          else Some sourceLanguage in
        (set_translations (translations s1 ++ [text])
           (set_network
              (network s1 ++
                 [TranslateRequest from targetLanguage azureKey azureRegion text])
              s1),
         Pending)
    end.

(** How a translation request ends. *)
Inductive TranslateOutcome : Type :=
| TranslateOk (text : jsstring)        (* [result[0].translations[0].text] *)
| TranslateBadFormat                   (* the response lacks that path *)
| TranslateFailed (f : FetchFailure).

Definition translationFailure (o : TranslateOutcome) : string :=
  match o with
  | TranslateOk _ => ""
  | TranslateBadFormat => "Invalid translation response format"
  | TranslateFailed (NotOk statusText) => "Translation failed: " +:+ statusText
  | TranslateFailed (Threw (Some message)) => message
  | TranslateFailed (Threw None) => "Translation failed"
  end.

(** [translateText] from the response on: the [catch] and [finally]
    blocks, and the value the call returns. *)
Definition translateText_resume (o : TranslateOutcome) (s : State)
    : State * option jsstring :=
  match o with
  | TranslateOk text => (set_isTranslating false s, Some text)
  | _ =>
      (set_isTranslating false
         (set_translationError (Some (translationFailure o)) s),
       None)
  end.

(** ** Speech synthesis: [speak] of [useTextToSpeech] *)

Definition VOICE_MAPPING : gmap string string :=
  list_to_map
    [("en", "9BWtsMINqrJLrRacOk9x"); ("es", "EXAVITQu4vr4xnSDxMaL");
     ("fr", "FGY2WhTYpPnrIDTdsKH5"); ("de", "CwhRBWXzGAHq8TQ4Fs17");
     ("it", "IKne3meq5aSn9XLyUdCD"); ("pt", "TX3LPaxmHKxFdv7VOQHJ");
     ("ru", "N2lVS1w4EtoT3dr4eOWO"); ("ja", "SAz9YHcvj6GT2YYXdXww");
     ("ko", "JBFqnCBsd6RMkjVDRZzb"); ("zh", "XB0fDUnXU5powFXDhCwa");
     ("ar", "Xb7hH8MSUJpSbSDYk0k2"); ("hi", "XrExE9yKIg1WjnnlVkGX");
     ("default", "9BWtsMINqrJLrRacOk9x")]%string.

(** [VOICE_MAPPING] is an object literal, so a name it has no entry for
    is looked up in [Object.prototype]. Its members are functions, except
    [__proto__], which yields the prototype itself; each is given here by
    the text the template literal of the endpoint turns it into (for a
    function, as V8 prints a built-in). *)
Definition nativeFunction (name : string) : string :=
  "function " +:+ name +:+ "() { [native code] }".

Definition OBJECT_PROTOTYPE : gmap string string :=
  list_to_map
    [("constructor", nativeFunction "Object");
     ("__defineGetter__", nativeFunction "__defineGetter__");
     ("__defineSetter__", nativeFunction "__defineSetter__");
     ("hasOwnProperty", nativeFunction "hasOwnProperty");
     ("__lookupGetter__", nativeFunction "__lookupGetter__");
     ("__lookupSetter__", nativeFunction "__lookupSetter__");
     ("isPrototypeOf", nativeFunction "isPrototypeOf");
     ("propertyIsEnumerable", nativeFunction "propertyIsEnumerable");
     ("toString", nativeFunction "toString");
     ("valueOf", nativeFunction "valueOf");
     ("__proto__", "[object Object]");
     ("toLocaleString", nativeFunction "toLocaleString")]%string.

(** [VOICE_MAPPING[name]]: the own entry, else the inherited member. *)
Definition getVoice (name : string) : option string :=
  match VOICE_MAPPING !! name with
  | Some v => Some v
  | None => OBJECT_PROTOTYPE !! name
  end.

(** [VOICE_MAPPING[language] || VOICE_MAPPING["default"]], as the endpoint
    shows it. A string is falsy when it is empty; an inherited member is
    an object, never falsy, and its text is not empty. *)
Definition voiceFor (language : string) : string :=
  let fallback := default ""%string (getVoice "default") in
  match getVoice language with
  | Some v => if decide (v = ""%string) then fallback else v
  | None => fallback
  end.

(** [speak] up to its first [await]. *)
Definition speak (text : jsstring) (language : string) (s : State) : State :=
  if negb (truthy (trim text)) then s
  else
    let s1 := set_ttsError None (set_isSpeaking true s) in
    match getKey "elevenlabs_api_key" s1 with
    | None =>
        set_ttsError (Some "ElevenLabs API key not configured"%string) s1
    | Some elevenlabsKey =>
        set_speeches (speeches s1 ++ [Fetching])
          (set_network
             (network s1 ++ [SpeechRequest (voiceFor language) elevenlabsKey text])
             s1)
    end.

Definition speechFailure (f : FetchFailure) : string :=
  match f with
  | NotOk statusText => "Text-to-speech failed: " +:+ statusText
  | Threw (Some message) => message
  | Threw None => "Text-to-speech failed"
  end.

(** The ways a [speak] call that reached [fetch] comes to its end. *)
Inductive SpeechEnd : Type :=
| SynthesisFailed (f : FetchFailure)  (* [fetch] threw or [!response.ok] *)
| PlaybackEnded                    (* [audio.onended] *)
| PlaybackError                    (* [audio.onerror] *)
| PlayRejected.                    (* [audio.play()] rejected *)

(** What [speak] does to the hook's state on that path. *)
Definition speak_end (e : SpeechEnd) (s : State) : State :=
  match e with
  | SynthesisFailed f =>
      set_isSpeaking false (set_ttsError (Some (speechFailure f)) s)
  | PlaybackEnded => set_isSpeaking false s
  | PlaybackError => set_isSpeaking false s
  | PlayRejected => s
  end.

(** ** The effects of [Index] *)

(** A call [speak(text, targetLanguage)] made by [Index]. *)
Definition dispatch (text : jsstring) (language : string) (s : State) : State :=
  speak text language (set_speakLog (speakLog s ++ [(text, language)]) s).

(** [if (translated) setTranslatedText(translated)] *)
Definition applyTranslation (translated : option jsstring) (s : State) : State :=
  match translated with
  | Some t => if truthy t then set_translatedText t s else s
  | None => s
  end.

(** The auto-translate effect, run in the render [c]. *)
Definition autoTranslateEffect (c : Render) (s : State) : State :=
  if truthy (r_sourceText c) && (0 <? length (trim (r_sourceText c)))%nat then
    match translateText (r_sourceText c) (r_sourceLanguage c)
            (r_targetLanguage c) s with
    | (s', Resolved translated) => applyTranslation translated s'
    | (s', Pending) => s'
    end
  else set_translatedText [] s.

(** [translatedText.substring(lastSpokenTranslatedTextRef.current.length).trim()],
    with [translatedText] from a render and the ref read now. *)
Definition unspoken (translatedText : jsstring) (s : State) : jsstring :=
  trim (substring translatedText (length (lastSpokenTranslatedTextRef s))).

(** [speak(portion, targetLanguage); lastSpokenTranslatedTextRef.current = translatedText] *)
Definition speakAndAdvance (c : Render) (portion : jsstring) (s : State) : State :=
  set_lastSpokenTranslatedTextRef (r_translatedText c)
    (dispatch portion (r_targetLanguage c) s).

(** The callback of the debounce timer. *)
Definition timerCallback (cb : TimerClosure) (s : State) : State :=
  let c := tc_render cb in
  if negb (r_isSpeaking c)
     && bool_decide (unspoken (r_translatedText c) s = tc_portion cb)
  then speakAndAdvance c (tc_portion cb) s
  else s.

(** The speech effect, run in the render [c]. Its cleanup clears the timer
    held by the ref, which the body does first anyway. *)
Definition ttsEffect (c : Render) (s : State) : State :=
  let s := clearDebounce s in
  if negb (truthy (trim (r_translatedText c))) || r_isSpeaking c then s
  else
    let newTranslatedPortion := unspoken (r_translatedText c) s in
    if negb (truthy newTranslatedPortion) then s
    else if endsWithPunctuation newTranslatedPortion then
      speakAndAdvance c newTranslatedPortion s
    else if r_isRecording c then
      armDebounce {| tc_render := c; tc_portion := newTranslatedPortion |} s
    else
      speakAndAdvance c newTranslatedPortion s.

Definition translateDeps (c : Render) : jsstring * string * string :=
  (r_sourceText c, r_sourceLanguage c, r_targetLanguage c).

Definition ttsDeps (c : Render) : jsstring * bool * bool * string :=
  (r_translatedText c, r_isSpeaking c, r_isRecording c, r_targetLanguage c).

(** One commit: the page is rendered with the state [s], and the effects
    whose dependencies differ from those of the render before ([prev]) run
    in the order of their declaration, closing over the new render.
    ([translateText] and [speak] never change.) *)
Definition runEffects (prev : Render) (s : State) : State :=
  let c := render s in
  let s1 :=
    if decide (translateDeps prev = translateDeps c) then s
    else autoTranslateEffect c s in
  if decide (ttsDeps prev = ttsDeps c) then s1 else ttsEffect c s1.

(** The updates an effect makes cause one more render. After the second
    commit nothing is left to run ([settle_stable] below). *)
Definition settle (prev : Render) (s : State) : State :=
  runEffects (render s) (runEffects prev s).

(** ** The callbacks of [Index] *)

(** [handleRecordingToggle], in the render [c], up to its [await]. *)
Definition handleRecordingToggle (c : Render) (s : State) : State :=
  if r_isRecording c then set_toggles (toggles s ++ [StopCont c]) s
  else
    let s := set_sourceText [] s in
    let s := set_translatedText [] s in
    let s := set_lastSpokenTranslatedTextRef [] s in
    let s := clearDebounce s in
    set_toggles (toggles s ++ [StartCont]) s.

(** The stop branch after [await stopRecording()]. *)
Definition stopContinuation (c : Render) (s : State) : State :=
  let s := set_isRecording false s in
  let s := clearDebounce s in
  let remainingText := unspoken (r_translatedText c) s in
  if truthy remainingText && negb (r_isSpeaking c) then
    speakAndAdvance c remainingText s
  else s.

(** The start branch after [await startRecording()]. *)
Definition startContinuation (success : bool) (s : State) : State :=
  if success then set_isRecording true s else s.

(** The settings dialog. The page holds [isSettingsOpen]: the Settings
    button sets it, and the dialog's [onClose] clears it. [handleSave]
    writes the six fields of the form to [localStorage] and then calls
    [onClose()]. The form is the dialog's own state and comes with the
    event. *)
Record Settings : Type := mkSettings {
  gladiaKey : string;
  azureKey : string;
  azureRegion : string;
  elevenlabsKey : string;
  llmProvider : string;
  llmKey : string
}.

(** [onClose] as [Index] passes it: [() => setIsSettingsOpen(false)]. *)
Definition onClose (s : State) : State := set_isSettingsOpen false s.

Definition handleSave (f : Settings) (s : State) : State :=
  onClose
    (set_localStorage
       (<["llm_api_key" := llmKey f]>
          (<["llm_provider" := llmProvider f]>
             (<["elevenlabs_api_key" := elevenlabsKey f]>
                (<["azure_region" := azureRegion f]>
                   (<["azure_api_key" := azureKey f]>
                      (<["gladia_api_key" := gladiaKey f]>
                         (localStorage s)))))))
       s).

(** ** The event loop

    The toggle button is disabled while a key is missing, and Save and
    Cancel are there only while the dialog is open; the model lets them
    be clicked all the same, so what holds of every run here holds of
    the runs the page allows. *)

Inductive Event : Type :=
| EFragment (text : jsstring)       (* a final transcript from the socket *)
| ETranslateDone (k : nat) (o : TranslateOutcome)
| ETimerFire (id : positive)
| EToggleClick
| EStopResume (k : nat)
| EStartResume (k : nat) (success : bool)
| ESpeechPlaying (k : nat)          (* the audio arrived, [audio.play()] *)
| ESpeechEnd (k : nat) (e : SpeechEnd)
| ESettingsClick                     (* the Settings button *)
| ESettingsDismiss                   (* Cancel, or the dialog dismissed *)
| ESaveSettings (f : Settings).

(** The callback an event runs. Calls in flight are named by their
    position; an event for a call that is not there does nothing. *)
Definition handle (e : Event) (s : State) : State :=
  match e with
  | EFragment text =>
      if truthy text then set_sourceText (onTranscription (sourceText s) text) s
      else s
  | ETranslateDone k o =>
      match translations s !! k with
      | Some _ =>
          let (s', translated) :=
            translateText_resume o (set_translations (delete k (translations s)) s) in
          applyTranslation translated s'
      | None => s
      end
  | ETimerFire id =>
      match timers s !! id with
      | Some cb => timerCallback cb (clearTimeout id s)
      | None => s
      end
  | EToggleClick => handleRecordingToggle (render s) s
  | EStopResume k =>
      match toggles s !! k with
      | Some (StopCont c) =>
          stopContinuation c (set_toggles (delete k (toggles s)) s)
      | _ => s
      end
  | EStartResume k success =>
      match toggles s !! k with
      | Some StartCont =>
          startContinuation success (set_toggles (delete k (toggles s)) s)
      | _ => s
      end
  | ESpeechPlaying k =>
      match speeches s !! k with
      | Some Fetching => set_speeches (<[k := Playing]> (speeches s)) s
      | _ => s
      end
  | ESpeechEnd k e =>
      match speeches s !! k, e with
      | Some Fetching, SynthesisFailed _
      | Some Playing, (PlaybackEnded | PlaybackError | PlayRejected) =>
          speak_end e (set_speeches (delete k (speeches s)) s)
      | _, _ => s
      end
  | ESettingsClick => set_isSettingsOpen true s
  | ESettingsDismiss => onClose s
  | ESaveSettings f => handleSave f s
  end.

(** One turn of the event loop: the callback, then the commits it causes. *)
Definition step (s : State) (e : Event) : State :=
  settle (render s) (handle e s).

Definition run (s : State) (es : list Event) : State := foldl step s es.

(** ** The target selector

    The language selectors are outside the event loop above. The change of
    the target language is given here as a step of its own. *)

Definition set_targetLanguage (v : string) (s : State) : State :=
  {| isSettingsOpen := isSettingsOpen s;
     sourceLanguage := sourceLanguage s; targetLanguage := v;
     sourceText := sourceText s; translatedText := translatedText s;
     isRecording := isRecording s;
     lastSpokenTranslatedTextRef := lastSpokenTranslatedTextRef s;
     ttsDebounceTimerRef := ttsDebounceTimerRef s;
     isTranslating := isTranslating s; translationError := translationError s;
     isSpeaking := isSpeaking s; ttsError := ttsError s;
     localStorage := localStorage s; timers := timers s;
     nextTimer := nextTimer s; network := network s;
     translations := translations s; speeches := speeches s;
     toggles := toggles s; speakLog := speakLog s |}.

(** The target selector's [onChange], [setTargetLanguage], and the commits
    it causes. *)
Definition selectTargetLanguage (code : string) (s : State) : State :=
  settle (render s) (set_targetLanguage code s).

(** ** The rest of the page: [hasApiKeys], the settings dialog, the
       language list *)

(** [hasApiKeys] of [Index]: [gladiaKey && azureKey && elevenlabsKey].
    The toggle button is enabled when it holds. *)
Definition hasApiKeys (s : State) : bool :=
  bool_decide (is_Some (getKey "gladia_api_key" s))
  && bool_decide (is_Some (getKey "azure_api_key" s))
  && bool_decide (is_Some (getKey "elevenlabs_api_key" s)).

(** The effect of [SettingsModal] that fills the form when the dialog
    opens: [localStorage.getItem(k) || fallback] for each field. *)
Definition loadSettings (s : State) : Settings :=
  {| gladiaKey := default ""%string (getKey "gladia_api_key" s);
     azureKey := default ""%string (getKey "azure_api_key" s);
     azureRegion := default "eastus"%string (getKey "azure_region" s);
     elevenlabsKey := default ""%string (getKey "elevenlabs_api_key" s);
     llmProvider := default "openai"%string (getKey "llm_provider" s);
     llmKey := default ""%string (getKey "llm_api_key" s) |}.

(** [LANGUAGES] of [LanguageSelector]: code and name. *)
Definition LANGUAGES : list (string * string) :=
  [("en", "English"); ("es", "Spanish"); ("fr", "French"); ("de", "German");
   ("it", "Italian"); ("pt", "Portuguese"); ("ru", "Russian");
   ("ja", "Japanese"); ("ko", "Korean"); ("zh", "Chinese (Simplified)");
   ("ar", "Arabic"); ("hi", "Hindi"); ("nl", "Dutch"); ("pl", "Polish");
   ("tr", "Turkish"); ("sv", "Swedish"); ("da", "Danish");
   ("no", "Norwegian"); ("fi", "Finnish"); ("cs", "Czech");
   ("hu", "Hungarian"); ("ro", "Romanian"); ("uk", "Ukrainian");
   ("bg", "Bulgarian"); ("hr", "Croatian"); ("sk", "Slovak");
   ("sl", "Slovenian"); ("et", "Estonian"); ("lv", "Latvian");
   ("lt", "Lithuanian")]%string.

(** The entries the selector lists. *)
Definition displayLanguages (allowAutoDetect : bool) : list (string * string) :=
  if allowAutoDetect then ("Auto-Detect", "Auto-Detect")%string :: LANGUAGES
  else LANGUAGES.

(** The label the selector shows for [value]. *)
Definition selectedLabel (allowAutoDetect : bool) (value : string) : string :=
  if String.eqb value "Auto-Detect" && allowAutoDetect then "Auto-Detect"
  else
    match List.find (λ lang, String.eqb lang.1 value) LANGUAGES with
    | Some lang => lang.2
    | None => "Select Language"
    end.

(** ** Audio capture: [useAudioRecording]

    The hook is embedded like the page: its state, its refs and the
    browser objects they point to (audio contexts, microphone streams,
    sockets, recorders, each named by its position in a table) are one
    record. [startRecording] and [stopRecording] are run as a whole, the
    results of the calls they [await] being given; nothing else is taken
    to happen between their [await]s. *)

(** *** The samples

    A JavaScript number as the conversion meets it: a rational, an
    infinity or NaN. The samples are 32-bit floats and the factors have at
    most 16 bits, so no product below is rounded in double precision and
    the rational arithmetic is that of the engine; negative zero converts
    like zero. *)
Inductive JsNumber : Type :=
| NaN
| NegInfinity
| Finite (n : Z) (d : positive)     (* n / d *)
| PosInfinity.

Definition ofInt (z : Z) : JsNumber := Finite z 1.

(** [x <= y], false when an operand is NaN. *)
Definition JsNumber_leb (x y : JsNumber) : bool :=
  match x, y with
  | NaN, _ | _, NaN => false
  | NegInfinity, _ => true
  | _, PosInfinity => true
  | Finite n d, Finite n' d' => (n * Z.pos d' <=? n' * Z.pos d)%Z
  | _, _ => false
  end.

(** [x < y], false when an operand is NaN. *)
Definition JsNumber_ltb (x y : JsNumber) : bool :=
  match x, y with
  | NaN, _ | _, NaN => false
  | Finite n d, Finite n' d' => (n * Z.pos d' <? n' * Z.pos d)%Z
  | NegInfinity, NegInfinity | PosInfinity, _ | _, NegInfinity => false
  | _, _ => true
  end.

Definition Math_min (x y : JsNumber) : JsNumber :=
  match x, y with
  | NaN, _ | _, NaN => NaN
  | _, _ => if JsNumber_leb x y then x else y
  end.

Definition Math_max (x y : JsNumber) : JsNumber :=
  match x, y with
  | NaN, _ | _, NaN => NaN
  | _, _ => if JsNumber_leb x y then y else x
  end.

Definition JsNumber_sgn (x : JsNumber) : Z :=
  match x with
  | NaN => 0
  | NegInfinity => -1
  | Finite n _ => Z.sgn n
  | PosInfinity => 1
  end.

(** [x * y] *)
Definition JsNumber_mul (x y : JsNumber) : JsNumber :=
  match x, y with
  | NaN, _ | _, NaN => NaN
  | Finite n d, Finite n' d' => Finite (n * n') (d * d')
  | _, _ =>
      match (JsNumber_sgn x * JsNumber_sgn y)%Z with
      | Z0 => NaN
      | Zpos _ => PosInfinity
      | Zneg _ => NegInfinity
      end
  end.

(** The store into an [Int16Array]: NaN and the infinities give 0, the
    rest is truncated toward zero and taken modulo 2^16 into
    [-2^15, 2^15). *)
Definition ToInt16 (x : JsNumber) : Z :=
  match x with
  | Finite n d =>
      let int := (n ÷ Z.pos d)%Z in
      let int16bit := (int mod 65536)%Z in
      if (32768 <=? int16bit)%Z then (int16bit - 65536)%Z else int16bit
  | _ => 0%Z
  end.

(** [ondataavailable]:
    [int16Array[i] = Math.max(-1, Math.min(1, pcmData[i])) * 0x7fff] *)
Definition int16Sample (sample : JsNumber) : Z :=
  ToInt16
    (JsNumber_mul (Math_max (ofInt (-1)) (Math_min (ofInt 1) sample))
       (ofInt 32767)).

Definition int16Array (pcmData : list JsNumber) : list Z :=
  int16Sample <$> pcmData.

(** The [Uint8Array] over the buffer of the [Int16Array], on a
    little-endian machine: two bytes a sample, low byte first. *)
Definition int16Bytes (v : Z) : list N :=
  let u := (v mod 65536)%Z in
  [Z.to_N (u mod 256); Z.to_N (u / 256)].

Definition uint8Array (int16Array : list Z) : list N :=
  int16Array ≫= int16Bytes.

(** [binaryString += String.fromCharCode(uint8Array[i])] for every byte. *)
Definition binaryString (uint8Array : list N) : jsstring := uint8Array.

(** The worklet version of the hook:
    [s = Math.max(-1, Math.min(1, input[i])); pcm[i] = s < 0 ? s * 0x8000 : s * 0x7fff] *)
Definition workletSample (sample : JsNumber) : Z :=
  let s := Math_max (ofInt (-1)) (Math_min (ofInt 1) sample) in
  ToInt16
    (if JsNumber_ltb s (ofInt 0) then JsNumber_mul s (ofInt 32768)
     else JsNumber_mul s (ofInt 32767)).

(** *** The messages of the socket *)

(** A parsed message. Numbers are integers here: of a number the handler
    asks only whether it is zero. The fields of an object are in the order
    of the text, a later one overriding an earlier one of the same name. *)
#[warnings="-register-all"]
Inductive JSON : Type :=
| JNull
| JBool (b : bool)
| JNumber (n : Z)
| JString (s : jsstring)
| JArray (items : list JSON)
| JObject (fields : list (string * JSON)).

(** A value read from a message; [None] is [undefined]. *)
Abbreviation Value := (option JSON).

Definition getOwn (fields : list (string * JSON)) (k : string) : Value :=
  foldl (λ found kv, if String.eqb kv.1 k then Some kv.2 else found) None fields.

Inductive Completion (A : Type) : Type :=
| Normal (a : A)
| TypeError.
Arguments Normal {A} a.
Arguments TypeError {A}.

(** [v.k], for the names the handler reads ([type], [data], [utterance]),
    none of which a string, an array or a prototype has. *)
Definition member (v : Value) (k : string) : Completion Value :=
  match v with
  | None | Some JNull => TypeError
  | Some (JObject fields) => Normal (getOwn fields k)
  | Some _ => Normal None
  end.

(** [v?.k], for [is_final], [utterance], [text], [error], [message]. *)
Definition optionalMember (v : Value) (k : string) : Value :=
  match v with
  | Some (JObject fields) => getOwn fields k
  | _ => None
  end.

Definition ToBoolean (v : Value) : bool :=
  match v with
  | None | Some JNull => false
  | Some (JBool b) => b
  | Some (JNumber n) => negb (n =? 0)%Z
  | Some (JString s) => truthy s
  | Some (JArray _) | Some (JObject _) => true
  end.

(** [v === "s"] *)
Definition isString (v : Value) (s : string) : bool :=
  match v with
  | Some (JString t) => bool_decide (t = lit s)
  | _ => false
  end.

(** *** The state of the hook *)

Inductive ContextState : Type := Suspended | Running | Closed.
Inductive ReadyState : Type := CONNECTING | OPEN | CLOSING | CLOSED.
Inductive RecorderState : Type := Inactive | Recording.

(** What the hook sends on the socket apart from audio. *)
Inductive Frame : Type := StopRecording.

Record Hook : Type := mkHook {
  isConnected : bool;
  transcription : JSON;
  error : option jsstring;
  mediaRecorderRef : option nat;
  wsRef : option nat;
  streamRef : option nat;
  sessionIdRef : option jsstring;
  audioContextRef : option nat;
  contexts : list ContextState;
  streams : list bool;
  sockets : list ReadyState;
  recorders : list RecorderState;
  sent : list (nat * Frame);
  delivered : list JSON
}.

Definition set_isConnected (v : bool) (h : Hook) : Hook :=
  {| isConnected := v; transcription := transcription h; error := error h;
     mediaRecorderRef := mediaRecorderRef h; wsRef := wsRef h; streamRef
     := streamRef h; sessionIdRef := sessionIdRef h; audioContextRef :=
     audioContextRef h; contexts := contexts h; streams := streams h;
     sockets := sockets h; recorders := recorders h; sent := sent h;
     delivered := delivered h |}.

Definition set_transcription (v : JSON) (h : Hook) : Hook :=
  {| isConnected := isConnected h; transcription := v; error := error h;
     mediaRecorderRef := mediaRecorderRef h; wsRef := wsRef h; streamRef
     := streamRef h; sessionIdRef := sessionIdRef h; audioContextRef :=
     audioContextRef h; contexts := contexts h; streams := streams h;
     sockets := sockets h; recorders := recorders h; sent := sent h;
     delivered := delivered h |}.

Definition set_error (v : option jsstring) (h : Hook) : Hook :=
  {| isConnected := isConnected h; transcription := transcription h; error
     := v; mediaRecorderRef := mediaRecorderRef h; wsRef := wsRef h;
     streamRef := streamRef h; sessionIdRef := sessionIdRef h;
     audioContextRef := audioContextRef h; contexts := contexts h; streams
     := streams h; sockets := sockets h; recorders := recorders h; sent :=
     sent h; delivered := delivered h |}.

Definition set_mediaRecorderRef (v : option nat) (h : Hook) : Hook :=
  {| isConnected := isConnected h; transcription := transcription h; error
     := error h; mediaRecorderRef := v; wsRef := wsRef h; streamRef :=
     streamRef h; sessionIdRef := sessionIdRef h; audioContextRef :=
     audioContextRef h; contexts := contexts h; streams := streams h;
     sockets := sockets h; recorders := recorders h; sent := sent h;
     delivered := delivered h |}.

Definition set_wsRef (v : option nat) (h : Hook) : Hook :=
  {| isConnected := isConnected h; transcription := transcription h; error
     := error h; mediaRecorderRef := mediaRecorderRef h; wsRef := v;
     streamRef := streamRef h; sessionIdRef := sessionIdRef h;
     audioContextRef := audioContextRef h; contexts := contexts h; streams
     := streams h; sockets := sockets h; recorders := recorders h; sent :=
     sent h; delivered := delivered h |}.

Definition set_streamRef (v : option nat) (h : Hook) : Hook :=
  {| isConnected := isConnected h; transcription := transcription h; error
     := error h; mediaRecorderRef := mediaRecorderRef h; wsRef := wsRef h;
     streamRef := v; sessionIdRef := sessionIdRef h; audioContextRef :=
     audioContextRef h; contexts := contexts h; streams := streams h;
     sockets := sockets h; recorders := recorders h; sent := sent h;
     delivered := delivered h |}.

Definition set_sessionIdRef (v : option jsstring) (h : Hook) : Hook :=
  {| isConnected := isConnected h; transcription := transcription h; error
     := error h; mediaRecorderRef := mediaRecorderRef h; wsRef := wsRef h;
     streamRef := streamRef h; sessionIdRef := v; audioContextRef :=
     audioContextRef h; contexts := contexts h; streams := streams h;
     sockets := sockets h; recorders := recorders h; sent := sent h;
     delivered := delivered h |}.

Definition set_audioContextRef (v : option nat) (h : Hook) : Hook :=
  {| isConnected := isConnected h; transcription := transcription h; error
     := error h; mediaRecorderRef := mediaRecorderRef h; wsRef := wsRef h;
     streamRef := streamRef h; sessionIdRef := sessionIdRef h;
     audioContextRef := v; contexts := contexts h; streams := streams h;
     sockets := sockets h; recorders := recorders h; sent := sent h;
     delivered := delivered h |}.

Definition set_contexts (v : list ContextState) (h : Hook) : Hook :=
  {| isConnected := isConnected h; transcription := transcription h; error
     := error h; mediaRecorderRef := mediaRecorderRef h; wsRef := wsRef h;
     streamRef := streamRef h; sessionIdRef := sessionIdRef h;
     audioContextRef := audioContextRef h; contexts := v; streams :=
     streams h; sockets := sockets h; recorders := recorders h; sent :=
     sent h; delivered := delivered h |}.

Definition set_streams (v : list bool) (h : Hook) : Hook :=
  {| isConnected := isConnected h; transcription := transcription h; error
     := error h; mediaRecorderRef := mediaRecorderRef h; wsRef := wsRef h;
     streamRef := streamRef h; sessionIdRef := sessionIdRef h;
     audioContextRef := audioContextRef h; contexts := contexts h; streams
     := v; sockets := sockets h; recorders := recorders h; sent := sent h;
     delivered := delivered h |}.

Definition set_sockets (v : list ReadyState) (h : Hook) : Hook :=
  {| isConnected := isConnected h; transcription := transcription h; error
     := error h; mediaRecorderRef := mediaRecorderRef h; wsRef := wsRef h;
     streamRef := streamRef h; sessionIdRef := sessionIdRef h;
     audioContextRef := audioContextRef h; contexts := contexts h; streams
     := streams h; sockets := v; recorders := recorders h; sent := sent h;
     delivered := delivered h |}.

Definition set_recorders (v : list RecorderState) (h : Hook) : Hook :=
  {| isConnected := isConnected h; transcription := transcription h; error
     := error h; mediaRecorderRef := mediaRecorderRef h; wsRef := wsRef h;
     streamRef := streamRef h; sessionIdRef := sessionIdRef h;
     audioContextRef := audioContextRef h; contexts := contexts h; streams
     := streams h; sockets := sockets h; recorders := v; sent := sent h;
     delivered := delivered h |}.

Definition set_sent (v : list (nat * Frame)) (h : Hook) : Hook :=
  {| isConnected := isConnected h; transcription := transcription h; error
     := error h; mediaRecorderRef := mediaRecorderRef h; wsRef := wsRef h;
     streamRef := streamRef h; sessionIdRef := sessionIdRef h;
     audioContextRef := audioContextRef h; contexts := contexts h; streams
     := streams h; sockets := sockets h; recorders := recorders h; sent :=
     v; delivered := delivered h |}.

Definition set_delivered (v : list JSON) (h : Hook) : Hook :=
  {| isConnected := isConnected h; transcription := transcription h; error
     := error h; mediaRecorderRef := mediaRecorderRef h; wsRef := wsRef h;
     streamRef := streamRef h; sessionIdRef := sessionIdRef h;
     audioContextRef := audioContextRef h; contexts := contexts h; streams
     := streams h; sockets := sockets h; recorders := recorders h; sent :=
     sent h; delivered := v |}.

Definition initHook : Hook :=
  {| isConnected := false; transcription := JString []; error := None;
     mediaRecorderRef := None; wsRef := None; streamRef := None;
     sessionIdRef := None; audioContextRef := None;
     contexts := []; streams := []; sockets := []; recorders := [];
     sent := []; delivered := [] |}.

(** [ws.onmessage]. [data] is the result of [JSON.parse], [None] when it
    throws; [ToString] is the conversion a template literal applies. Of
    the calls the handler makes, [onTranscription(text)] is recorded in
    [delivered]. *)
Definition onmessage (ToString : JSON → jsstring) (data : option JSON)
    (h : Hook) : Hook :=
  let failed := set_error (Some (lit "Error parsing server message.")) h in
  match data with
  | None => failed
  | Some message =>
      match member (Some message) "type" with
      | TypeError => failed
      | Normal type =>
          if isString type "transcript" then
            match member (Some message) "data" with
            | TypeError => failed
            | Normal data =>
                if ToBoolean (optionalMember data "is_final") then
                  match member data "utterance" with
                  | TypeError => failed
                  | Normal utterance =>
                      let text := optionalMember utterance "text" in
                      match text with
                      | Some t =>
                          if ToBoolean text then
                            set_delivered (delivered h ++ [t])
                              (set_transcription t h)
                          else h
                      | None => h
                      end
                  end
                else h
            end
          else if isString type "speech_started" then h
          else if isString type "speech_ended" then h
          else if isString type "error" then
            match member (Some message) "error" with
            | TypeError => failed
            | Normal e =>
                let m := optionalMember e "message" in
                let shown :=
                  match m with
                  | Some v => if ToBoolean m then v else JString (lit "Unknown error")
                  | None => JString (lit "Unknown error")
                  end in
                set_error (Some (lit "Gladia Error: " ++ ToString shown)) h
            end
          else h
      end
  end.

(** The events of a socket, as the browser delivers them to the handlers
    [startRecording] attached: the state changes, then the handler runs.
    A message is delivered on an open socket only. *)
Inductive SocketEvent : Type :=
| OnOpen
| OnMessage (data : option JSON)
| OnError
| OnClose.

Definition socketEvent (ToString : JSON → jsstring) (w : nat)
    (e : SocketEvent) (h : Hook) : Hook :=
  match sockets h !! w, e with
  | Some CONNECTING, OnOpen =>
      set_isConnected true (set_sockets (<[w := OPEN]> (sockets h)) h)
  | Some OPEN, OnMessage data => onmessage ToString data h
  | Some _, OnError =>
      set_isConnected false
        (set_error (Some (lit "WebSocket connection error")) h)
  | Some (CONNECTING | OPEN | CLOSING), OnClose =>
      set_isConnected false (set_sockets (<[w := CLOSED]> (sockets h)) h)
  | _, _ => h
  end.

(** *** [startRecording] and [stopRecording] *)

(** How an awaited call or a constructor ends. *)
Inductive Outcome (A : Type) : Type :=
| Fulfilled (a : A)
| Rejected (message : option jsstring).    (* [Some] for an [Error] *)
Arguments Fulfilled {A} a.
Arguments Rejected {A} message.

(** The body of a [try] block: a computation on the hook that can throw. *)
Definition Try (A : Type) : Type := Hook → Hook * Outcome A.

Definition ret {A} (a : A) : Try A := λ h, (h, Fulfilled a).

Definition bind {A B} (m : Try A) (k : A → Try B) : Try B :=
  λ h,
    match m h with
    | (h', Fulfilled a) => k a h'
    | (h', Rejected message) => (h', Rejected message)
    end.

Definition await {A} (o : Outcome A) : Try A := λ h, (h, o).

Definition update (f : Hook → Hook) : Try unit := λ h, (f h, Fulfilled ()).

Definition read {A} (f : Hook → A) : Try A := λ h, (h, Fulfilled (f h)).

Notation "'let!' x ':=' m 'in' k" := (bind m (λ x, k))
  (at level 10, x pattern, m at level 100, k at level 200, only parsing).

(** What one run of [startRecording] meets in the browser. *)
Record StartRun : Type := mkStartRun {
  newAudioContext : Outcome ContextState;   (* the state of a new context *)
  resume : Outcome unit;
  getUserMedia : Outcome unit;
  session : Outcome jsstring;         (* [fetch] up to [{ id, url }]: the id *)
  newWebSocket : Outcome unit;
  newMediaRecorder : Outcome unit;
  recorderStart : Outcome unit        (* [mediaRecorder.start(100)] *)
}.

Definition startRecording_try (s : State) (env : StartRun) : Try bool :=
  let! _ := update (set_error None) in
  match getKey "gladia_api_key" s with
  | None =>
      let! _ := update (set_error (Some (lit "Gladia API key not configured"))) in
      ret false
  | Some gladiaKey =>
      let! current := read audioContextRef in
      let! _ :=
        match current with
        | Some _ => ret ()
        | None =>
            let! state := await (newAudioContext env) in
            update (λ h, set_audioContextRef (Some (length (contexts h)))
                           (set_contexts (contexts h ++ [state]) h))
        end in
      let! state := read (λ h, audioContextRef h ≫= λ c, contexts h !! c) in
      let! _ :=
        match state with
        | Some Suspended =>
            let! _ := await (resume env) in
            update (λ h, match audioContextRef h with
                         | Some c => set_contexts (<[c := Running]> (contexts h)) h
                         | None => h
                         end)
        | _ => ret ()
        end in
      let! _ := await (getUserMedia env) in
      let! _ := update (λ h, set_streamRef (Some (length (streams h)))
                               (set_streams (streams h ++ [true]) h)) in
      let! id := await (session env) in
      let! _ := update (set_sessionIdRef (Some id)) in
      let! _ := await (newWebSocket env) in
      let! _ := update (λ h, set_wsRef (Some (length (sockets h)))
                               (set_sockets (sockets h ++ [CONNECTING]) h)) in
      let! _ := await (newMediaRecorder env) in
      let! _ := update (λ h, set_mediaRecorderRef (Some (length (recorders h)))
                               (set_recorders (recorders h ++ [Inactive]) h)) in
      let! _ := await (recorderStart env) in
      let! _ := update (λ h, match mediaRecorderRef h with
                             | Some r =>
                                 set_recorders (<[r := Recording]> (recorders h)) h
                             | None => h
                             end) in
      ret true
  end.

(** [startRecording]: the [try] block and its [catch]. *)
Definition startRecording (s : State) (env : StartRun) (h : Hook) : Hook * bool :=
  match startRecording_try s env h with
  | (h', Fulfilled success) => (h', success)
  | (h', Rejected message) =>
      (set_error (Some (default (lit "Failed to start recording") message)) h',
       false)
  end.

Definition stopRecording_try (close : Outcome unit) : Try unit :=
  let! _ :=
    update (λ h, match mediaRecorderRef h with
                 | Some r =>
                     match recorders h !! r with
                     | Some Recording =>
                         set_recorders (<[r := Inactive]> (recorders h)) h
                     | _ => h
                     end
                 | None => h
                 end) in
  let! _ :=
    update (λ h, match streamRef h with
                 | Some i =>
                     set_streamRef None (set_streams (<[i := false]> (streams h)) h)
                 | None => h
                 end) in
  let! current := read audioContextRef in
  let! _ :=
    match current with
    | Some c =>
        let! _ := await close in
        update (λ h, set_audioContextRef None
                       (set_contexts (<[c := Closed]> (contexts h)) h))
    | None => ret ()
    end in
  let! _ :=
    update (λ h, match wsRef h with
                 | Some w =>
                     match sockets h !! w with
                     | Some OPEN =>
                         set_sockets (<[w := CLOSING]> (sockets h))
                           (set_sent (sent h ++ [(w, StopRecording)]) h)
                     | _ => h
                     end
                 | None => h
                 end) in
  update (λ h, set_sessionIdRef None
                 (set_wsRef None
                    (set_mediaRecorderRef None (set_isConnected false h)))).

(** [stopRecording]: the [try] block and its [catch]; [close] is how
    [audioContext.close()] ends if it is called. *)
Definition stopRecording (close : Outcome unit) (h : Hook) : Hook :=
  match stopRecording_try close h with
  | (h', Fulfilled _) => h'
  | (h', Rejected message) =>
      set_error (Some (default (lit "Failed to stop recording") message)) h'
  end.

(** The calls made on a hook and the events of its sockets. *)
Inductive HookOp : Type :=
| Start (s : State) (env : StartRun)
| Stop (close : Outcome unit)
| Socket (w : nat) (e : SocketEvent).

Definition hookStep (ToString : JSON → jsstring) (h : Hook) (op : HookOp) : Hook :=
  match op with
  | Start s env => (startRecording s env h).1
  | Stop close => stopRecording close h
  | Socket w e => socketEvent ToString w e h
  end.

Definition hookRun (ToString : JSON → jsstring) (h : Hook) (ops : list HookOp)
    : Hook :=
  foldl (hookStep ToString) h ops.

(** ** Specification vocabulary *)

(** The cases in which the accumulator inserts nothing between the buffer
    [b] and the fragment [f]. *)
Definition noSpaceCase (b f : jsstring) : Prop :=
  b = [] ∨ f = [] ∨ last b = Some SPACE ∨ head f = Some SPACE
  ∨ ∃ c, last (trim b) = Some c ∧ (c = 46 ∨ c = 63 ∨ c = 33).

(** Empty or whitespace-only. *)
Definition blank (s : jsstring) : Prop :=
  Forall (λ c, isWhiteSpace c = true) s.

(** Two adjacent spaces somewhere in [s]. *)
Definition hasDoubleSpace (s : jsstring) : Prop :=
  ∃ l r, s = l ++ [SPACE; SPACE] ++ r.

(** Among the fragments [fs], one that ends with a space is followed,
    empty fragments apart, by one that begins with a space. [prev] is the
    last non-empty fragment before [fs]. *)
Fixpoint spaceMeetsSpace (prev : jsstring) (fs : list jsstring) : Prop :=
  match fs with
  | [] => False
  | [] :: fs' => spaceMeetsSpace prev fs'
  | f :: fs' =>
      (last prev = Some SPACE ∧ head f = Some SPACE) ∨ spaceMeetsSpace f fs'
  end.

(** The debounce timers. Every armed timer is the one whose handle the ref
    holds, and its callback was created by a render that was not speaking
    and had something to say. *)
Definition timer_single (s : State) : Prop :=
  ∀ id cb, timers s !! id = Some cb →
    ttsDebounceTimerRef s = Some id
    ∧ r_isSpeaking (tc_render cb) = false
    ∧ tc_portion cb ≠ [].

(** What an armed callback closes over is what the speech effect depends
    on now: the buffer, the flag, the recording state and the language. *)
Definition timer_current (s : State) : Prop :=
  ∀ id cb, timers s !! id = Some cb →
    ttsDeps (tc_render cb) = ttsDeps (render s).

(** Between a callback and the commit that follows it: the closures are
    current unless the speech effect is about to run again. *)
Definition timers_ok (prev : Render) (s : State) : Prop :=
  timer_single s ∧ (ttsDeps prev = ttsDeps (render s) → timer_current s).

Definition timers_inv (s : State) : Prop := timer_single s ∧ timer_current s.


(** At most one synthesis+playback in flight, and the flag is set while
    there is one. *)
Definition speech_inv (s : State) : Prop :=
  (length (speeches s) ≤ 1)%nat ∧ (speeches s ≠ [] → isSpeaking s = true).

(** A render whose buffer and flag are still the current ones. *)
Definition current (c : Render) (s : State) : Prop :=
  r_translatedText c = translatedText s ∧ r_isSpeaking c = isSpeaking s.

(** A stop that resumes before any commit changed the buffer or the flag
    its handler closed over. Every other event is unconstrained. *)
Definition fresh (e : Event) (s : State) : Prop :=
  match e with
  | EStopResume k => ∀ c, toggles s !! k = Some (StopCont c) → current c s
  | _ => True
  end.

Fixpoint freshRun (s : State) (es : list Event) : Prop :=
  match es with
  | [] => True
  | e :: es' => fresh e s ∧ freshRun (step s e) es'
  end.

(** Nothing in flight, nothing armed and the flag set in every closure
    that could still call [speak]. *)
Definition stuck (s : State) : Prop :=
  isSpeaking s = true ∧ speeches s = [] ∧ timers s = ∅
  ∧ ∀ c, StopCont c ∈ toggles s → r_isSpeaking c = true.

(** A translating flag that is set has a request behind it. *)
Definition translating_ok (s : State) : Prop :=
  isTranslating s = true → translations s ≠ [].

(** A stored string as a condition sees it: the empty string is falsy. *)
Definition nonEmpty (v : string) : option string :=
  match v with
  | EmptyString => None
  | _ => Some v
  end.

(** Every call [startRecording] awaits succeeds. *)
Definition allFulfilled (env : StartRun) : Prop :=
  (∃ state, newAudioContext env = Fulfilled state)
  ∧ resume env = Fulfilled ()
  ∧ getUserMedia env = Fulfilled ()
  ∧ (∃ id, session env = Fulfilled id)
  ∧ newWebSocket env = Fulfilled ()
  ∧ newMediaRecorder env = Fulfilled ()
  ∧ recorderStart env = Fulfilled ().

(** The run gets as far as the microphone, and gets it. *)
Definition micGranted (env : StartRun) : Prop :=
  (∃ state, newAudioContext env = Fulfilled state)
  ∧ resume env = Fulfilled ()
  ∧ getUserMedia env = Fulfilled ().

(** A message that is a final transcript with a text: an object of type
    "transcript" whose [data] is an object with a truthy [is_final] and an
    object [utterance] with a truthy [text]. *)
Definition finalTranscript (message : JSON) : option JSON :=
  match message with
  | JObject fields =>
      match getOwn fields "type", getOwn fields "data" with
      | Some (JString type), Some (JObject data) =>
          if bool_decide (type = lit "transcript")
             && ToBoolean (getOwn data "is_final")
          then
            match getOwn data "utterance" with
            | Some (JObject utterance) =>
                match getOwn utterance "text" with
                | Some text => if ToBoolean (Some text) then Some text else None
                | None => None
                end
            | _ => None
            end
          else None
      | _, _ => None
      end
  | _ => None
  end.

(** The samples read back from the bytes, low byte first. *)
Fixpoint readInt16LE (bytes : list N) : list Z :=
  match bytes with
  | lo :: hi :: rest =>
      (let u := (Z.of_N lo + 256 * Z.of_N hi)%Z in
       if (32768 <=? u)%Z then (u - 65536)%Z else u) :: readInt16LE rest
  | _ => []
  end.

(** The refs of the hook point into the tables. *)
Definition refs_ok (h : Hook) : Prop :=
  (∀ i, streamRef h = Some i → (i < length (streams h))%nat)
  ∧ (∀ w, wsRef h = Some w → (w < length (sockets h))%nat)
  ∧ (∀ r, mediaRecorderRef h = Some r → (r < length (recorders h))%nat)
  ∧ (∀ c, audioContextRef h = Some c → (c < length (contexts h))%nat).

(** A call after the microphone fails. *)
Definition failsAfterMic (env : StartRun) : Prop :=
  (∃ message, session env = Rejected message)
  ∨ (∃ message, newWebSocket env = Rejected message)
  ∨ (∃ message, newMediaRecorder env = Rejected message)
  ∨ (∃ message, recorderStart env = Rejected message).

(** ** Scenarios *)

(** A browser with the three keys saved. *)
Definition allKeys : gmap string string :=
  list_to_map
    [("gladia_api_key", "g"); ("azure_api_key", "a");
     ("elevenlabs_api_key", "e")]%string.

(** The page once recording has started. *)
Definition recording : State :=
  run (init allKeys) [EToggleClick; EStartResume 0 true].

(** The settings dialog saved with the speech key left empty. *)
Definition noSpeechKey : Settings :=
  {| gladiaKey := "g"; azureKey := "a"; azureRegion := "eastus";
     elevenlabsKey := ""; llmProvider := "openai"; llmKey := "" |}.

(** Every call succeeds; a new context starts in [state]. *)
Definition granted (state : ContextState) : StartRun :=
  {| newAudioContext := Fulfilled state; resume := Fulfilled ();
     getUserMedia := Fulfilled (); session := Fulfilled (lit "session-1");
     newWebSocket := Fulfilled (); newMediaRecorder := Fulfilled ();
     recorderStart := Fulfilled () |}.

(** The microphone is granted, the session request is refused. *)
Definition refused : StartRun :=
  {| newAudioContext := Fulfilled Running; resume := Fulfilled ();
     getUserMedia := Fulfilled ();
     session := Rejected (Some (lit "Failed to initialize Gladia session"));
     newWebSocket := Fulfilled (); newMediaRecorder := Fulfilled ();
     recorderStart := Fulfilled () |}.

(** A conversion to string that is right on strings. *)
Definition stringOnly (v : JSON) : jsstring :=
  match v with
  | JString s => s
  | _ => []
  end.

(** * Properties *)

(** ** Strings *)

Lemma trimStart_blank s : blank s → trimStart s = [].
Proof.
  induction 1 as [|c s Hc _ IH]; cbn [trimStart]; [done|]. by rewrite Hc.
Qed.

Lemma trim_blank s : blank s → trim s = [].
Proof.
  intros H. unfold trim. by rewrite (trimStart_blank _ H).
Qed.

Lemma trim_nil : trim [] = [].
Proof. done. Qed.

Lemma truthy_true (s : jsstring) : truthy s = true ↔ s ≠ [].
Proof. by destruct s. Qed.

Lemma truthy_false (s : jsstring) : truthy s = false ↔ s = [].
Proof. by destruct s. Qed.

Lemma substring_past_end (t : jsstring) n :
  (length t ≤ n)%nat → substring t n = [].
Proof. apply drop_ge. Qed.

(** A non-blank remainder lies strictly inside the text. *)
Lemma trim_substring_lt (t : jsstring) n :
  trim (substring t n) ≠ [] → (n < length t)%nat.
Proof.
  intros H. destruct (decide (n < length t)%nat) as [|Hge]; [done|].
  rewrite substring_past_end in H by lia. by rewrite trim_nil in H.
Qed.

Lemma startsWith_space s : startsWith s [SPACE] = true ↔ head s = Some SPACE.
Proof.
  destruct s as [|d s]; cbn [startsWith head]; [split; done|].
  rewrite andb_true_r, N.eqb_eq. split; [by intros ->|by intros [= ->]].
Qed.

Lemma endsWith_space s : endsWith s [SPACE] = true ↔ last s = Some SPACE.
Proof.
  unfold endsWith. change (reverse [SPACE]) with [SPACE].
  by rewrite startsWith_space, head_reverse.
Qed.

Lemma isTerminal_spec c : isTerminal c = true ↔ c = 46 ∨ c = 63 ∨ c = 33.
Proof.
  unfold isTerminal. rewrite !orb_true_iff, !N.eqb_eq. tauto.
Qed.

Lemma endsWithPunctuation_spec s :
  endsWithPunctuation s = true ↔
  ∃ c, last s = Some c ∧ (c = 46 ∨ c = 63 ∨ c = 33).
Proof.
  unfold endsWithPunctuation. destruct (last s) as [c|].
  - rewrite isTerminal_spec. split; [by exists c|by intros (? & [= <-] & ?)].
  - split; [done|by intros (? & ? & _)].
Qed.

Lemma needsSpace_spec b f : needsSpace b f = false ↔ noSpaceCase b f.
Proof.
  unfold needsSpace, noSpaceCase.
  rewrite <- endsWithPunctuation_spec, <- endsWith_space, <- startsWith_space.
  destruct b as [|b0 b'], f as [|f0 f']; try (split; [auto|done]).
  change (0 <? length (b0 :: b'))%nat with true.
  change (0 <? length (f0 :: f'))%nat with true.
  destruct (endsWith (b0 :: b') [SPACE]), (startsWith (f0 :: f') [SPACE]),
    (endsWithPunctuation (trim (b0 :: b'))); cbn [andb negb];
    split; auto; intros [?|[?|[?|[?|?]]]]; done.
Qed.

(** ** The accumulator (C1, C8) *)

(** C1, as amended. For every buffer [b] and fragment [f] the accumulator
    returns [b], one space, [f] -- except that it inserts nothing when [b]
    is empty, [f] is empty, [b] ends with the space character, [f] begins
    with the space character, or the trimmed [b] ends with '.', '?' or
    '!'; then the result is [b ++ f]. *)
Theorem C1_spacing_rule (b f : jsstring) :
  (noSpaceCase b f ∧ onTranscription b f = b ++ f)
  ∨ (¬ noSpaceCase b f ∧ onTranscription b f = b ++ [SPACE] ++ f).
Proof.
  unfold onTranscription. destruct (needsSpace b f) eqn:E.
  - right. split; [|done]. rewrite <- needsSpace_spec. congruence.
  - left. split; [by apply needsSpace_spec|done].
Qed.

(** C1 as the specification has it fails for whitespace other than the
    space character: a buffer that ends with a line feed ends with
    whitespace, and a space is inserted all the same. *)
Lemma C1_whitespace_counterexample :
  (∃ c, last (lit "Hello" ++ [10]) = Some c ∧ isWhiteSpace c = true)
  ∧ onTranscription (lit "Hello" ++ [10]) (lit "world")
    = (lit "Hello" ++ [10]) ++ [SPACE] ++ lit "world"
  ∧ onTranscription (lit "Hello" ++ [10]) (lit "world")
    ≠ (lit "Hello" ++ [10]) ++ lit "world".
Proof.
  split; [by exists 10|]. split; [done|]. vm_compute. discriminate.
Qed.

Lemma hasDoubleSpace_app_iff (x y : jsstring) :
  hasDoubleSpace (x ++ y)
  ↔ hasDoubleSpace x ∨ hasDoubleSpace y
    ∨ (last x = Some SPACE ∧ head y = Some SPACE).
Proof.
  split.
  - intros (l & r & H).
    apply app_eq_inv in H as [(k & -> & H)|(k & -> & ->)].
    + destruct k as [|a [|a' k]]; simplify_eq/=.
      * right; left. by exists [], r.
      * right; right. by rewrite last_snoc.
      * left. by exists l, k.
    + right; left. by exists k, r.
  - intros [(l & r & ->)|[(l & r & ->)|[Hx Hy]]].
    + exists l, (r ++ y). by rewrite <- !app_assoc.
    + exists (x ++ l), r. by rewrite <- !app_assoc.
    + apply last_Some in Hx as [x' ->]. destruct y as [|? y']; simplify_eq/=.
      exists x', y'. by rewrite <- app_assoc.
Qed.

Lemma hasDoubleSpace_short (c : N) : ¬ hasDoubleSpace [c].
Proof. intros (l & r & H). by destruct l as [|? [|? l]]. Qed.

Lemma onTranscription_double_space (b f : jsstring) :
  hasDoubleSpace (onTranscription b f)
  ↔ hasDoubleSpace b ∨ hasDoubleSpace f
    ∨ (last b = Some SPACE ∧ head f = Some SPACE).
Proof.
  unfold onTranscription. destruct (needsSpace b f) eqn:E.
  - assert (¬ noSpaceCase b f) as Hn by (rewrite <- needsSpace_spec; congruence).
    assert (last b ≠ Some SPACE ∧ head f ≠ Some SPACE) as [Hb Hf].
    { split; intros H; apply Hn; unfold noSpaceCase; auto. }
    rewrite !hasDoubleSpace_app_iff. pose proof (hasDoubleSpace_short SPACE).
    simpl. intuition congruence.
  - simpl. apply hasDoubleSpace_app_iff.
Qed.

Lemma last_onTranscription (b f : jsstring) :
  last (onTranscription b f) = last (if f is [] then b else f).
Proof.
  unfold onTranscription. destruct f as [|f0 f'].
  - assert (needsSpace b [] = false) as -> by (apply needsSpace_spec; right; by left).
    by rewrite !app_nil_r.
  - rewrite app_assoc, last_app.
    destruct (last (f0 :: f')) eqn:E; [done|].
    by apply last_None in E.
Qed.

Lemma foldl_double_space (fs : list jsstring) (b prev : jsstring) :
  last b = last prev →
  hasDoubleSpace (foldl onTranscription b fs)
  ↔ hasDoubleSpace b ∨ Exists hasDoubleSpace fs ∨ spaceMeetsSpace prev fs.
Proof.
  revert b prev. induction fs as [|f fs IH]; intros b prev Hl.
  - simpl. rewrite Exists_nil. tauto.
  - cbn [foldl]. rewrite (IH _ (if f is [] then prev else f))
      by (rewrite last_onTranscription; by destruct f).
    rewrite onTranscription_double_space, Exists_cons, Hl.
    destruct f as [|f0 f']; cbn [spaceMeetsSpace head].
    + assert (¬ hasDoubleSpace []) by (intros (l & r & H); by destruct l).
      intuition congruence.
    + tauto.
Qed.

(** C8, as amended. Appending "World" to "Hello." gives "Hello.World":
    nothing is inserted after terminal punctuation. For all fragment
    sequences, the accumulated buffer contains a double space exactly when
    a fragment contains one or a fragment that ends with a space is
    followed, empty fragments apart, by one that begins with a space: the
    accumulator itself never puts a space next to a space. At every
    boundary it inserts nothing in the cases of C1 and exactly one space
    otherwise; so between a non-empty buffer that does not end with a
    space and a non-empty fragment that does not begin with one the
    separator is missing exactly when the trimmed buffer ends with '.',
    '?' or '!'. *)
Theorem C8_fragment_boundaries :
  onTranscription (lit "Hello.") (lit "World") = lit "Hello.World"
  ∧ (∀ fs : list jsstring,
       hasDoubleSpace (accumulate fs)
       ↔ Exists hasDoubleSpace fs ∨ spaceMeetsSpace [] fs)
  ∧ (∀ (fs : list jsstring) (f : jsstring),
       let b := accumulate fs in
       (noSpaceCase b f ∧ accumulate (fs ++ [f]) = b ++ f)
       ∨ (¬ noSpaceCase b f ∧ accumulate (fs ++ [f]) = b ++ [SPACE] ++ f))
  ∧ (∀ (fs : list jsstring) (f : jsstring),
       accumulate fs ≠ [] → f ≠ [] →
       last (accumulate fs) ≠ Some SPACE → head f ≠ Some SPACE →
       accumulate (fs ++ [f])
       = accumulate fs
         ++ (if endsWithPunctuation (trim (accumulate fs)) then [] else [SPACE])
         ++ f).
Proof.
  split; [done|]. split; [|split].
  - intros fs. unfold accumulate. rewrite (foldl_double_space fs [] []) by done.
    assert (¬ hasDoubleSpace []) by (intros (l & r & H); by destruct l).
    tauto.
  - intros fs f b. unfold accumulate. rewrite foldl_snoc.
    fold (accumulate fs). fold b. unfold onTranscription.
    destruct (needsSpace b f) eqn:E.
    + right. split; [|done]. rewrite <- needsSpace_spec. congruence.
    + left. split; [by apply needsSpace_spec|done].
  - intros fs f Hb Hf Hlast Hhd. unfold accumulate. rewrite foldl_snoc.
    fold (accumulate fs). unfold onTranscription, needsSpace.
    destruct (accumulate fs) as [|b0 b'] eqn:Eb; [done|].
    destruct f as [|f0 f']; [done|].
    change (0 <? length (b0 :: b'))%nat with true.
    change (0 <? length (f0 :: f'))%nat with true.
    destruct (endsWith (b0 :: b') [SPACE]) eqn:E1;
      [by apply endsWith_space in E1|].
    destruct (startsWith (f0 :: f') [SPACE]) eqn:E2;
      [by apply startsWith_space in E2|].
    by destruct (endsWithPunctuation (trim (b0 :: b'))).
Qed.

(** C8 as the specification has it fails on its own example: the code
    inserts nothing after "Hello.", so the separator is missing. *)
Lemma C8_hello_world_counterexample :
  onTranscription (lit "Hello.") (lit "World") = lit "Hello.World"
  ∧ onTranscription (lit "Hello.") (lit "World") ≠ lit "Hello. World".
Proof.
  split; [done|]. vm_compute. discriminate.
Qed.

(** ** Blank text *)

Lemma trimStart_nil_blank s : trimStart s = [] → blank s.
Proof.
  induction s as [|c s IH]; cbn [trimStart]; [constructor|].
  destruct (isWhiteSpace c) eqn:E; [|done].
  intros H. constructor; [done|by apply IH].
Qed.

Lemma trimStart_suffix s : ∃ p, s = p ++ trimStart s ∧ blank p.
Proof.
  induction s as [|c s (p & IH & Hp)]; cbn [trimStart].
  { exists []. split; [done|constructor]. }
  destruct (isWhiteSpace c) eqn:E.
  - exists (c :: p). split; [by rewrite IH at 1|by constructor].
  - exists []. split; [done|constructor].
Qed.

Lemma trim_nil_iff s : trim s = [] ↔ blank s.
Proof.
  split; [|apply trim_blank]. unfold trim, trimEnd. intros H.
  assert (trimStart (reverse (trimStart s)) = []) as H'.
  { apply (f_equal reverse) in H. by rewrite reverse_involutive in H. }
  apply trimStart_nil_blank in H'.
  destruct (trimStart_suffix s) as (p & Hs & Hp). rewrite Hs.
  apply Forall_app. split; [done|].
  unfold blank in *. by rewrite Forall_reverse in H'.
Qed.

Lemma not_blank_trim s : ¬ blank s → truthy (trim s) = true.
Proof. rewrite truthy_true, trim_nil_iff. done. Qed.

Lemma trimStart_blank_nil w : blank (trimStart w) → trimStart w = [].
Proof.
  induction w as [|c w IH]; cbn [trimStart]; [done|].
  destruct (isWhiteSpace c) eqn:E; [done|].
  intros H. apply Forall_cons in H as [H _]. congruence.
Qed.

(** A trimmed string is blank only if it is empty. *)
Lemma trim_trim_nonempty x : trim x ≠ [] → trim (trim x) ≠ [].
Proof.
  intros Hx Hb. apply Hx. apply trim_nil_iff in Hb.
  unfold trim, trimEnd in *. unfold blank in Hb.
  rewrite Forall_reverse in Hb.
  by rewrite (trimStart_blank_nil _ Hb).
Qed.

(** ** The synthesis call on blank text (C10) *)

(** C10. For every text that is empty or whitespace-only, [speak] returns
    at once and leaves the whole state as it was: no request is added to
    the network log, the currently-speaking flag and the error state keep
    their values. *)
Theorem C10_speak_blank_is_noop
    (text : jsstring) (language : string) (s : State) :
  blank text → speak text language s = s.
Proof.
  intros H. unfold speak. by rewrite (trim_blank _ H).
Qed.

(** C10 on two spaces. *)
Lemma C10_speak_blank_is_noop_witness :
  blank (lit "  ") ∧ speak (lit "  ") "es" (init ∅) = init ∅.
Proof.
  assert (blank (lit "  ")) as H by (repeat constructor).
  split; [exact H|exact (C10_speak_blank_is_noop (lit "  ") "es" (init ∅) H)].
Defined.

(** ** Missing credentials (C9) *)

(** C9, as amended. For every invocation of translation or synthesis on a
    non-blank text with no configured key for that provider, the operation
    records its configuration error (and [translateText] returns [null])
    without adding a request to the network log or an operation in flight,
    and leaves SourceTextBuffer, TranslatedTextBuffer and the
    SpokenWatermark unchanged. On a blank text either operation returns
    before it looks for the key and reports nothing. *)
Theorem C9_missing_key_fails_fast
    (text : jsstring) (sourceLanguage targetLanguage : string) (s : State) :
  (¬ blank text →
   (getKey "azure_api_key" s = None →
    let r := translateText text sourceLanguage targetLanguage s in
    r.2 = Resolved None
    ∧ translationError r.1 = Some "Azure API key not configured"%string
    ∧ network r.1 = network s ∧ translations r.1 = translations s
    ∧ sourceText r.1 = sourceText s ∧ translatedText r.1 = translatedText s
    ∧ watermark r.1 = watermark s)
   ∧ (getKey "elevenlabs_api_key" s = None →
      let s' := speak text targetLanguage s in
      ttsError s' = Some "ElevenLabs API key not configured"%string
      ∧ network s' = network s ∧ speeches s' = speeches s
      ∧ sourceText s' = sourceText s ∧ translatedText s' = translatedText s
      ∧ watermark s' = watermark s))
  ∧ (blank text →
     translateText text sourceLanguage targetLanguage s = (s, Resolved None)
     ∧ speak text targetLanguage s = s).
Proof.
  split.
  - intros Hnb%not_blank_trim. split; intros Hkey; simpl.
    + unfold translateText. rewrite Hnb. simpl.
      change (getKey "azure_api_key"
                (set_translationError None (set_isTranslating true s)))
        with (getKey "azure_api_key" s).
      by rewrite Hkey.
    + unfold speak. rewrite Hnb. simpl.
      change (getKey "elevenlabs_api_key"
                (set_ttsError None (set_isSpeaking true s)))
        with (getKey "elevenlabs_api_key" s).
      by rewrite Hkey.
  - intros Hb%trim_blank. unfold translateText, speak. by rewrite Hb.
Qed.

(** C9 in a browser with nothing saved. *)
Lemma C9_missing_key_fails_fast_witness :
  (translateText (lit "Hello") "en" "es" (init ∅)).2 = Resolved None
  ∧ translationError (translateText (lit "Hello") "en" "es" (init ∅)).1
    = Some "Azure API key not configured"%string
  ∧ network (translateText (lit "Hello") "en" "es" (init ∅)).1 = []
  ∧ ttsError (speak (lit "Hello") "es" (init ∅))
    = Some "ElevenLabs API key not configured"%string
  ∧ network (speak (lit "Hello") "es" (init ∅)) = [].
Proof.
  assert (¬ blank (lit "Hello")) as H by (by inversion 1).
  destruct (proj1 (C9_missing_key_fails_fast (lit "Hello") "en" "es" (init ∅)) H)
    as [Ht Hs].
  destruct (Ht eq_refl) as (H1 & H2 & H3 & _).
  destruct (Hs eq_refl) as (H4 & H5 & _).
  exact (conj H1 (conj H2 (conj H3 (conj H4 H5)))).
Defined.

(** C9 as the specification has it fails on blank text: with no key
    configured, [translateText] and [speak] return before the key is looked
    up and report no configuration error. *)
Lemma C9_blank_text_counterexample :
  getKey "azure_api_key" (init ∅) = None
  ∧ getKey "elevenlabs_api_key" (init ∅) = None
  ∧ translateText (lit " ") "en" "es" (init ∅) = (init ∅, Resolved None)
  ∧ translationError (translateText (lit " ") "en" "es" (init ∅)).1 = None
  ∧ ttsError (speak (lit " ") "es" (init ∅)) = None.
Proof. done. Qed.

(** ** Commits *)

Local Arguments voiceFor : simpl never.
Local Arguments getKey : simpl never.
Local Arguments trim : simpl never.
Local Arguments substring : simpl never.
Local Arguments unspoken : simpl never.
Local Arguments endsWithPunctuation : simpl never.
Local Arguments onTranscription : simpl never.
Local Arguments speechFailure : simpl never.
Local Arguments translationFailure : simpl never.

(** Unfolds the callbacks down to the record and splits on every test. *)
Ltac unfold_hooks :=
  unfold handleSave, handleRecordingToggle, stopContinuation,
    startContinuation, timerCallback, speakAndAdvance, dispatch, speak,
    speak_end, applyTranslation, translateText, translateText_resume,
    armDebounce, clearDebounce, clearTimeout.

Ltac crush :=
  unfold_hooks; repeat case_match; simplify_eq/=; try done.

Lemma clearDebounce_empty s : timer_single s → timers (clearDebounce s) = ∅.
Proof.
  intros H. apply map_empty. intros id.
  destruct (timers (clearDebounce s) !! id) as [cb|] eqn:E; [|done].
  unfold clearDebounce, clearTimeout in E.
  destruct (ttsDebounceTimerRef s) as [id'|] eqn:Eref; simpl in E.
  - apply lookup_delete_Some in E as [Hne E]. apply H in E as [E _]. congruence.
  - apply H in E as [E _]. congruence.
Qed.

Lemma unspoken_clearDebounce t s : unspoken t (clearDebounce s) = unspoken t s.
Proof. unfold unspoken. by crush. Qed.

(** The three things the speech effect can do. *)
Lemma ttsEffect_cases c s :
  ttsEffect c s = clearDebounce s
  ∨ (r_isSpeaking c = false ∧ unspoken (r_translatedText c) s ≠ []
     ∧ ttsEffect c s
       = speakAndAdvance c (unspoken (r_translatedText c) s) (clearDebounce s))
  ∨ (r_isSpeaking c = false ∧ r_isRecording c = true
     ∧ unspoken (r_translatedText c) s ≠ []
     ∧ ttsEffect c s
       = armDebounce {| tc_render := c;
                        tc_portion := unspoken (r_translatedText c) s |}
           (clearDebounce s)).
Proof.
  unfold ttsEffect. rewrite unspoken_clearDebounce.
  destruct (truthy (trim (r_translatedText c))); simpl; [|by left].
  destruct (r_isSpeaking c); simpl; [by left|].
  destruct (truthy (unspoken (r_translatedText c) s)) eqn:E; simpl; [|by left].
  apply truthy_true in E.
  destruct (endsWithPunctuation _); [by right; left|].
  destruct (r_isRecording c); [by right; right|by right; left].
Qed.

Lemma ttsEffect_early c s :
  trim (r_translatedText c) = [] ∨ r_isSpeaking c = true →
  ttsEffect c s = clearDebounce s.
Proof.
  unfold ttsEffect. intros [->| ->]; [done|]. by rewrite orb_true_r.
Qed.

Lemma autoTranslateEffect_frame c s :
  let s' := autoTranslateEffect c s in
  (translatedText s' = translatedText s ∨ translatedText s' = [])
  ∧ sourceText s' = sourceText s
  ∧ sourceLanguage s' = sourceLanguage s
  ∧ targetLanguage s' = targetLanguage s
  ∧ isRecording s' = isRecording s
  ∧ isSpeaking s' = isSpeaking s
  ∧ lastSpokenTranslatedTextRef s' = lastSpokenTranslatedTextRef s
  ∧ ttsDebounceTimerRef s' = ttsDebounceTimerRef s
  ∧ timers s' = timers s
  ∧ speeches s' = speeches s
  ∧ toggles s' = toggles s
  ∧ speakLog s' = speakLog s
  ∧ localStorage s' = localStorage s.
Proof.
  unfold autoTranslateEffect. crush; simplify_eq/=; auto 20.
Qed.

Lemma ttsEffect_frame c s :
  let s' := ttsEffect c s in
  translatedText s' = translatedText s
  ∧ sourceText s' = sourceText s
  ∧ sourceLanguage s' = sourceLanguage s
  ∧ targetLanguage s' = targetLanguage s
  ∧ isRecording s' = isRecording s
  ∧ translations s' = translations s
  ∧ toggles s' = toggles s
  ∧ localStorage s' = localStorage s.
Proof.
  destruct (ttsEffect_cases c s) as [->|[(_ & _ & ->)|(_ & _ & _ & ->)]];
    by crush.
Qed.

Lemma unspoken_speakable t s :
  unspoken t s ≠ [] → truthy (trim (unspoken t s)) = true.
Proof. intros H. by apply truthy_true, trim_trim_nonempty. Qed.

Lemma unspoken_ext t s s' :
  lastSpokenTranslatedTextRef s' = lastSpokenTranslatedTextRef s →
  unspoken t s' = unspoken t s.
Proof. unfold unspoken. by intros ->. Qed.

(** A call of [speak] on a speakable text. *)
Lemma speakAndAdvance_spec c p s :
  truthy (trim p) = true →
  let s' := speakAndAdvance c p s in
  isSpeaking s' = true
  ∧ lastSpokenTranslatedTextRef s' = r_translatedText c
  ∧ speakLog s' = speakLog s ++ [(p, r_targetLanguage c)]
  ∧ (speeches s' = speeches s ∨ speeches s' = speeches s ++ [Fetching])
  ∧ translatedText s' = translatedText s
  ∧ sourceText s' = sourceText s
  ∧ sourceLanguage s' = sourceLanguage s
  ∧ targetLanguage s' = targetLanguage s
  ∧ isRecording s' = isRecording s
  ∧ timers s' = timers s
  ∧ ttsDebounceTimerRef s' = ttsDebounceTimerRef s.
Proof.
  intros Hp. unfold speakAndAdvance, dispatch, speak. rewrite Hp. simpl.
  case_match; simpl; auto 20.
Qed.

Lemma translateDeps_render s :
  translateDeps (render s) = (sourceText s, sourceLanguage s, targetLanguage s).
Proof. done. Qed.

Lemma ttsDeps_render s :
  ttsDeps (render s)
  = (translatedText s, isSpeaking s, isRecording s, targetLanguage s).
Proof. done. Qed.

Lemma ttsDeps_eq c s :
  ttsDeps c = ttsDeps (render s) →
  r_translatedText c = translatedText s
  ∧ r_isSpeaking c = isSpeaking s
  ∧ r_isRecording c = isRecording s
  ∧ r_targetLanguage c = targetLanguage s.
Proof. rewrite ttsDeps_render. unfold ttsDeps. by intros [= -> -> -> ->]. Qed.

Lemma clearDebounce_frame s :
  let s' := clearDebounce s in
  translatedText s' = translatedText s
  ∧ isSpeaking s' = isSpeaking s
  ∧ isRecording s' = isRecording s
  ∧ targetLanguage s' = targetLanguage s
  ∧ lastSpokenTranslatedTextRef s' = lastSpokenTranslatedTextRef s
  ∧ ttsDebounceTimerRef s' = ttsDebounceTimerRef s
  ∧ speeches s' = speeches s
  ∧ speakLog s' = speakLog s
  ∧ sourceText s' = sourceText s
  ∧ network s' = network s
  ∧ toggles s' = toggles s
  ∧ localStorage s' = localStorage s.
Proof. by crush. Qed.

Lemma ttsDeps_clearDebounce s :
  ttsDeps (render (clearDebounce s)) = ttsDeps (render s).
Proof.
  rewrite !ttsDeps_render.
  by destruct (clearDebounce_frame s) as (-> & -> & -> & -> & _).
Qed.


Lemma ttsDeps_armDebounce cb s :
  ttsDeps (render (armDebounce cb s)) = ttsDeps (render s).
Proof. done. Qed.

(** The state between the two effects of a commit. *)
Lemma afterTranslateEffect_frame (b : bool) c s :
  let s' := if b then s else autoTranslateEffect c s in
  (translatedText s' = translatedText s ∨ translatedText s' = [])
  ∧ sourceText s' = sourceText s
  ∧ sourceLanguage s' = sourceLanguage s
  ∧ targetLanguage s' = targetLanguage s
  ∧ isRecording s' = isRecording s
  ∧ isSpeaking s' = isSpeaking s
  ∧ lastSpokenTranslatedTextRef s' = lastSpokenTranslatedTextRef s
  ∧ ttsDebounceTimerRef s' = ttsDebounceTimerRef s
  ∧ timers s' = timers s
  ∧ speeches s' = speeches s
  ∧ toggles s' = toggles s
  ∧ speakLog s' = speakLog s
  ∧ localStorage s' = localStorage s.
Proof.
  destruct b; [by auto 20|apply autoTranslateEffect_frame].
Qed.

(** What a commit can change in the dependencies of the effects. *)
Lemma runEffects_deps prev s :
  let s1 := runEffects prev s in
  translateDeps (render s1) = translateDeps (render s)
  ∧ (ttsDeps (render s1) = ttsDeps (render s)
     ∨ translatedText s1 = [] ∨ isSpeaking s1 = true).
Proof.
  unfold runEffects. cbv zeta.
  destruct (afterTranslateEffect_frame
              (bool_decide (translateDeps prev = translateDeps (render s)))
              (render s) s)
    as (HT & Hsrc & Hsl & Htl & Hrec & Hspk & Href & _).
  rewrite (decide_bool_decide (translateDeps prev = _)).
  set (sA := if bool_decide _ then s else _) in *.
  assert (translateDeps (render sA) = translateDeps (render s)) as HdA.
  { rewrite !translateDeps_render. by rewrite Hsrc, Hsl, Htl. }
  case_decide as Hd.
  { split; [done|]. rewrite !ttsDeps_render, Hspk, Hrec, Htl.
    destruct HT as [->| ->]; auto. }
  destruct (ttsEffect_frame (render s) sA) as (ET & ES & ESL & ETL & ER & _).
  split.
  { rewrite <- HdA, !translateDeps_render. by rewrite ES, ESL, ETL. }
  destruct HT as [HT|HT]; [|right; left; by rewrite ET].
  assert (ttsDeps (render sA) = ttsDeps (render s)) as HtA.
  { rewrite !ttsDeps_render. by rewrite HT, Hspk, Hrec, Htl. }
  destruct (ttsEffect_cases (render s) sA)
    as [E|[(_ & Hu & E)|(_ & _ & _ & E)]]; rewrite E.
  - left. by rewrite ttsDeps_clearDebounce.
  - right; right.
    by destruct (speakAndAdvance_spec (render s) _ (clearDebounce sA)
                   (unspoken_speakable _ _ Hu)) as (? & _).
  - left. by rewrite ttsDeps_armDebounce, ttsDeps_clearDebounce.
Qed.

(** The second commit runs at most the early return of the speech effect. *)
Lemma settle_cases prev s :
  (ttsDeps (render (runEffects prev s)) = ttsDeps (render s)
   ∧ settle prev s = runEffects prev s)
  ∨ settle prev s = clearDebounce (runEffects prev s).
Proof.
  unfold settle. destruct (runEffects_deps prev s) as [Ht Hs].
  set (s1 := runEffects prev s) in *.
  assert (runEffects (render s) s1
          = if decide (ttsDeps (render s) = ttsDeps (render s1)) then s1
            else ttsEffect (render s1) s1) as ->.
  { unfold runEffects. cbv zeta. by rewrite (decide_True (P := translateDeps _ = _)). }
  case_decide as Hd; [left; by split|right].
  apply ttsEffect_early. destruct Hs as [?|[H|?]]; [done| |by right].
  left. change (r_translatedText (render s1)) with (translatedText s1).
  by rewrite H.
Qed.

Lemma runEffects_same s : runEffects (render s) s = s.
Proof.
  unfold runEffects. cbv zeta.
  rewrite (decide_True (P := translateDeps _ = _)) by done.
  by rewrite (decide_True (P := ttsDeps _ = _)).
Qed.

(** After the second commit nothing is left to run. *)
Lemma settle_stable prev s :
  runEffects (render (runEffects prev s)) (settle prev s) = settle prev s.
Proof.
  assert (render (runEffects prev s) = render (settle prev s)) as ->.
  { destruct (settle_cases prev s) as [[_ ->]| ->]; [done|].
    unfold render. by crush. }
  apply runEffects_same.
Qed.

Lemma timer_single_empty s : timers s = ∅ → timer_single s.
Proof. intros H id cb. by rewrite H, lookup_empty. Qed.

Lemma timer_current_empty s : timers s = ∅ → timer_current s.
Proof. intros H id cb. by rewrite H, lookup_empty. Qed.

Lemma timer_single_ext s s' :
  timers s' = timers s → ttsDebounceTimerRef s' = ttsDebounceTimerRef s →
  timer_single s → timer_single s'.
Proof. intros Ht Hr H id cb. rewrite Ht, Hr. apply H. Qed.

Lemma timer_current_ext s s' :
  timers s' = timers s → ttsDeps (render s') = ttsDeps (render s) →
  timer_current s → timer_current s'.
Proof. intros Ht Hr H id cb. rewrite Ht, Hr. apply H. Qed.

Lemma runEffects_timers prev s :
  timers_ok prev s → timers_ok (render s) (runEffects prev s).
Proof.
  intros [Hsingle Hcur]. unfold runEffects. cbv zeta.
  destruct (afterTranslateEffect_frame
              (bool_decide (translateDeps prev = translateDeps (render s)))
              (render s) s)
    as (HT & _ & _ & Htl & Hrec & Hspk & Href & Htref & Htim & _).
  rewrite (decide_bool_decide (translateDeps prev = _)).
  set (sA := if bool_decide _ then s else _) in *.
  assert (timer_single sA) as HsA by by eapply timer_single_ext.
  case_decide as Hd.
  { split; [done|]. intros Heq. eapply timer_current_ext; eauto. }
  destruct (ttsEffect_cases (render s) sA)
    as [E|[(_ & Hu & E)|(Hspk' & _ & Hu & E)]]; rewrite E.
  - pose proof (clearDebounce_empty _ HsA).
    split; [by apply timer_single_empty|intros _; by apply timer_current_empty].
  - destruct (speakAndAdvance_spec (render s) _ (clearDebounce sA)
                (unspoken_speakable _ _ Hu)) as (_ & _ & _ & _ & _ & _ & _ & _ & _ & Ht & _).
    rewrite <- E in Ht. rewrite <- E.
    rewrite (clearDebounce_empty _ HsA) in Ht.
    split; [by apply timer_single_empty|intros _; by apply timer_current_empty].
  - rewrite <- E.
    assert (timers (ttsEffect (render s) sA)
            = {[ nextTimer sA := {| tc_render := render s;
                   tc_portion := unspoken (r_translatedText (render s)) sA |} ]}
            ∧ ttsDebounceTimerRef (ttsEffect (render s) sA) = Some (nextTimer sA))
      as [Ht Hr].
    { assert (nextTimer (clearDebounce sA) = nextTimer sA) as Hn by crush.
      rewrite E. unfold armDebounce. simpl.
      rewrite (clearDebounce_empty _ HsA), Hn. by rewrite insert_empty. }
    split.
    + intros id cb. rewrite Ht, Hr. intros [<- <-]%lookup_singleton_Some. done.
    + intros Heq id cb. rewrite Ht. intros [<- <-]%lookup_singleton_Some. done.
Qed.

Lemma settle_timers prev s : timers_ok prev s → timers_inv (settle prev s).
Proof.
  intros H%runEffects_timers.
  destruct (settle_cases prev s) as [[Hd ->]| ->].
  - destruct H as [H1 H2]. split; [done|]. by apply H2.
  - pose proof (clearDebounce_empty _ (proj1 H)).
    split; [by apply timer_single_empty|by apply timer_current_empty].
Qed.

Lemma timerCallback_timers cb s :
  timers (timerCallback cb s) = timers s.
Proof. by crush. Qed.

Lemma stopContinuation_timers c s :
  timers (stopContinuation c s) = timers (clearDebounce s).
Proof. by crush. Qed.

Lemma handleRecordingToggle_timers c s :
  r_isRecording c = false →
  timers (handleRecordingToggle c s) = timers (clearDebounce s).
Proof. intros H. unfold handleRecordingToggle. rewrite H. by crush. Qed.

Lemma handle_timers_cases e s :
  timer_single s →
  timers (handle e s) = ∅
  ∨ (timers (handle e s) = timers s
     ∧ ttsDebounceTimerRef (handle e s) = ttsDebounceTimerRef s).
Proof.
  intros Hs. pose proof (clearDebounce_empty _ Hs) as Hc.
  destruct e as [text|k o|id| |k|k success|k|k e| | |f]; simpl.
  - right. by crush.
  - right. by crush.
  - destruct (timers s !! id) as [cb|] eqn:E; [|by right].
    destruct (Hs _ _ E) as [Hr _]. left.
    assert (clearTimeout id s = clearDebounce s) as ->.
    { unfold clearDebounce. by rewrite Hr. }
    by rewrite timerCallback_timers.
  - destruct (r_isRecording (render s)) eqn:E.
    + right. unfold handleRecordingToggle. by rewrite E.
    + left. by rewrite handleRecordingToggle_timers.
  - destruct (toggles s !! k) as [[c|]|]; try by right.
    left. rewrite stopContinuation_timers. rewrite <- Hc. by crush.
  - right. by crush.
  - right. by crush.
  - right. by crush.
  - by right.
  - by right.
  - by right.
Qed.

Lemma handle_timers e s :
  timers_inv s → timers_ok (render s) (handle e s).
Proof.
  intros [Hs Hc].
  destruct (handle_timers_cases e s Hs) as [H|[Ht Hr]].
  - split; [by apply timer_single_empty|intros _; by apply timer_current_empty].
  - split; [by eapply timer_single_ext|].
    intros Heq. eapply timer_current_ext; eauto.
Qed.

Lemma step_timers s e : timers_inv s → timers_inv (step s e).
Proof. intros H. by apply settle_timers, handle_timers. Qed.

Lemma init_timers ls : timers_inv (init ls).
Proof. split; by intros id cb. Qed.

Lemma run_timers s es : timers_inv s → timers_inv (run s es).
Proof.
  revert s. induction es as [|e es IH]; intros s H; simpl; [done|].
  by apply IH, step_timers.
Qed.

(** *** At most one synthesis in flight *)

Lemma speech_inv_ext s s' :
  speeches s' = speeches s → isSpeaking s' = isSpeaking s →
  speech_inv s → speech_inv s'.
Proof. unfold speech_inv. by intros -> ->. Qed.

Lemma speech_inv_idle s :
  speech_inv s → isSpeaking s = false → speeches s = [].
Proof.
  intros [_ H] Hs. destruct (speeches s); [done|].
  rewrite H in Hs; done.
Qed.

Lemma speakAndAdvance_speech c p s :
  speech_inv s → isSpeaking s = false → speech_inv (speakAndAdvance c p s).
Proof.
  intros H Hs. pose proof (speech_inv_idle _ H Hs) as He.
  clear H Hs. unfold speech_inv.
  crush; rewrite ?He; simpl; try done.
  all: split; [lia|done].
Qed.

Lemma clearDebounce_speech s : speech_inv s → speech_inv (clearDebounce s).
Proof. apply speech_inv_ext; by crush. Qed.

Lemma runEffects_speech prev s :
  speech_inv s → speech_inv (runEffects prev s).
Proof.
  intros H. unfold runEffects. cbv zeta.
  destruct (afterTranslateEffect_frame
              (bool_decide (translateDeps prev = translateDeps (render s)))
              (render s) s)
    as (_ & _ & _ & _ & _ & Hspk & _ & _ & _ & Hsp & _).
  rewrite (decide_bool_decide (translateDeps prev = _)).
  set (sA := if bool_decide _ then s else _) in *.
  assert (speech_inv sA) as HA by by eapply speech_inv_ext.
  case_decide; [done|].
  destruct (ttsEffect_cases (render s) sA)
    as [E|[(Hf & _ & E)|(_ & _ & _ & E)]]; rewrite E.
  - by apply clearDebounce_speech.
  - apply speakAndAdvance_speech; [by apply clearDebounce_speech|].
    destruct (clearDebounce_frame sA) as (_ & -> & _).
    by rewrite Hspk.
  - eapply speech_inv_ext; [| |by apply clearDebounce_speech, HA]; done.
Qed.

Lemma settle_speech prev s : speech_inv s → speech_inv (settle prev s).
Proof.
  intros H%(runEffects_speech prev).
  destruct (settle_cases prev s) as [[_ ->]| ->]; [done|].
  by apply clearDebounce_speech.
Qed.

Lemma speech_inv_delete k s :
  speech_inv s → is_Some (speeches s !! k) →
  delete k (speeches s) = [].
Proof.
  intros [Hlen _] Hk. apply nil_length_inv.
  rewrite length_delete by done. lia.
Qed.

Lemma handle_speech e s :
  timers_inv s → speech_inv s → fresh e s → speech_inv (handle e s).
Proof.
  intros [_ Hcur] H Hfresh.
  destruct e as [text|k o|id| |k|k success|k|k e| | |f]; simpl.
  - eapply speech_inv_ext; [| |done]; clear; by crush.
  - eapply speech_inv_ext; [| |done]; clear; by crush.
  - destruct (timers s !! id) as [cb|] eqn:E; [|done].
    destruct (ttsDeps_eq _ _ (Hcur _ _ E)) as (_ & Hspk & _).
    assert (speech_inv (clearTimeout id s)) as H' by by eapply speech_inv_ext.
    unfold timerCallback. cbv zeta.
    destruct (r_isSpeaking (tc_render cb)) eqn:Ec; [done|].
    case_match; [|done]. by apply speakAndAdvance_speech.
  - eapply speech_inv_ext; [| |done]; clear; by crush.
  - destruct (toggles s !! k) as [[c|]|] eqn:E; try done.
    destruct (Hfresh _ E) as [_ Hspk].
    unfold stopContinuation. cbv zeta.
    set (s' := clearDebounce _).
    assert (speeches s' = speeches s ∧ isSpeaking s' = isSpeaking s) as [E1 E2].
    { subst s'. clear. by crush. }
    assert (speech_inv s') as H' by by eapply speech_inv_ext.
    destruct (r_isSpeaking c) eqn:Ec; [by rewrite andb_false_r|].
    case_match; [|done]. apply speakAndAdvance_speech; [done|congruence].
  - eapply speech_inv_ext; [| |done]; clear; by crush.
  - destruct (speeches s !! k) as [[]|] eqn:E; try done.
    destruct H as [Hlen Hne]. split; simpl.
    + by rewrite length_insert.
    + intros _. apply Hne. intros Hnil. by rewrite Hnil in E.
  - destruct (speeches s !! k) as [p|] eqn:E; [|done].
    pose proof (speech_inv_delete k s H (mk_is_Some _ _ E)) as Hd.
    assert (speech_inv (speak_end e (set_speeches (delete k (speeches s)) s))).
    { rewrite Hd. split; destruct e; simpl; (lia || done). }
    by destruct p, e.
  - done.
  - done.
  - done.
Qed.

Lemma step_speech s e :
  timers_inv s → speech_inv s → fresh e s → speech_inv (step s e).
Proof. intros. by apply settle_speech, handle_speech. Qed.

Lemma run_speech s es :
  timers_inv s → speech_inv s → freshRun s es → speech_inv (run s es).
Proof.
  revert s. induction es as [|e es IH]; intros s Ht Hs Hf; simpl; [done|].
  destruct Hf as [Hf Hfs].
  apply IH; [by apply step_timers|by apply step_speech|done].
Qed.

(** *** The watermark *)

Lemma unspoken_lt t s : unspoken t s ≠ [] → (watermark s < length t)%nat.
Proof. apply trim_substring_lt. Qed.

Lemma speakAndAdvance_watermark c p s :
  watermark (speakAndAdvance c p s) = length (r_translatedText c).
Proof. done. Qed.

Lemma watermark_clearDebounce s : watermark (clearDebounce s) = watermark s.
Proof. unfold watermark. by destruct (clearDebounce_frame s) as (_ & _ & _ & _ & -> & _). Qed.

Lemma runEffects_mono prev s :
  (watermark s ≤ watermark (runEffects prev s))%nat.
Proof.
  unfold runEffects. cbv zeta.
  destruct (afterTranslateEffect_frame
              (bool_decide (translateDeps prev = translateDeps (render s)))
              (render s) s)
    as (_ & _ & _ & _ & _ & _ & Href & _).
  rewrite (decide_bool_decide (translateDeps prev = _)).
  set (sA := if bool_decide _ then s else _) in *.
  assert (watermark sA = watermark s) as HA by (unfold watermark; by rewrite Href).
  case_decide; [lia|].
  destruct (ttsEffect_cases (render s) sA)
    as [E|[(_ & Hu & E)|(_ & _ & _ & E)]]; rewrite E.
  - rewrite watermark_clearDebounce. lia.
  - rewrite speakAndAdvance_watermark. apply unspoken_lt in Hu. lia.
  - change (watermark (armDebounce ?cb ?s)) with (watermark s).
    rewrite watermark_clearDebounce. lia.
Qed.

(** The second commit touches the timers only. *)
Lemma settle_frame prev s :
  let s1 := runEffects prev s in
  let s2 := settle prev s in
  translatedText s2 = translatedText s1
  ∧ isSpeaking s2 = isSpeaking s1
  ∧ isRecording s2 = isRecording s1
  ∧ targetLanguage s2 = targetLanguage s1
  ∧ lastSpokenTranslatedTextRef s2 = lastSpokenTranslatedTextRef s1
  ∧ ttsDebounceTimerRef s2 = ttsDebounceTimerRef s1
  ∧ speeches s2 = speeches s1
  ∧ speakLog s2 = speakLog s1
  ∧ sourceText s2 = sourceText s1
  ∧ network s2 = network s1
  ∧ toggles s2 = toggles s1
  ∧ localStorage s2 = localStorage s1.
Proof.
  cbv zeta. destruct (settle_cases prev s) as [[_ ->]| ->]; [by auto 20|].
  apply clearDebounce_frame.
Qed.

Lemma settle_watermark prev s :
  lastSpokenTranslatedTextRef (settle prev s)
  = lastSpokenTranslatedTextRef (runEffects prev s)
  ∧ translatedText (settle prev s) = translatedText (runEffects prev s).
Proof.
  by destruct (settle_frame prev s) as (-> & _ & _ & _ & -> & _).
Qed.

Lemma settle_mono prev s : (watermark s ≤ watermark (settle prev s))%nat.
Proof.
  unfold watermark at 2. rewrite (proj1 (settle_watermark prev s)).
  apply runEffects_mono.
Qed.


Lemma runEffects_translatedText prev s :
  (translatedText (runEffects prev s) = translatedText s
   ∨ translatedText (runEffects prev s) = [])
  ∧ (translateDeps prev = translateDeps (render s) →
     translatedText (runEffects prev s) = translatedText s).
Proof.
  unfold runEffects. cbv zeta.
  destruct (afterTranslateEffect_frame
              (bool_decide (translateDeps prev = translateDeps (render s)))
              (render s) s) as (HT & _).
  rewrite (decide_bool_decide (translateDeps prev = _)).
  set (sA := if bool_decide _ then s else _) in *.
  assert (translatedText
            (if decide (ttsDeps prev = ttsDeps (render s)) then sA
             else ttsEffect (render s) sA) = translatedText sA) as ->.
  { case_decide; [done|]. by destruct (ttsEffect_frame (render s) sA) as (-> & _). }
  split; [done|]. intros Hd. subst sA. by rewrite bool_decide_eq_true_2.
Qed.





(** *** Steps that run no effect *)

Lemma settle_id prev s : render s = prev → settle prev s = s.
Proof. intros <-. unfold settle. by rewrite !runEffects_same. Qed.




(** ** Translation results (C3) *)

Lemma step_translatedText s e :
  translateDeps (render (handle e s)) = translateDeps (render s) →
  translatedText (step s e) = translatedText (handle e s).
Proof.
  intros Hd. unfold step.
  destruct (settle_frame (render s) (handle e s)) as (-> & _).
  by apply runEffects_translatedText.
Qed.

(** C3, as amended. The accumulator applies translation results in the
    order in which they arrive, whichever call they answer: when the
    response of any call in flight arrives with a non-empty text, that text
    replaces TranslatedTextBuffer; a failure or an empty text leaves the
    buffer as it is. Nothing tags or cancels a superseded call, so a
    stale result that arrives after a newer one overwrites it. *)
Theorem C3_results_apply_in_arrival_order
    (s : State) (k : nat) (o : TranslateOutcome) :
  is_Some (translations s !! k) →
  translatedText (step s (ETranslateDone k o))
  = match o with
    | TranslateOk (c :: t) => c :: t
    | _ => translatedText s
    end.
Proof.
  intros [x Hx]. rewrite step_translatedText.
  - simpl. rewrite Hx. clear. destruct o as [[|c t]| |f]; by crush.
  - simpl. rewrite Hx. clear. rewrite !translateDeps_render.
    destruct o as [[|c t]| |f]; by crush.
Qed.

(** C3 on the answer to the only call in flight. *)
Lemma C3_results_apply_in_arrival_order_witness :
  translatedText
    (step (run recording [EFragment (lit "Hello")])
       (ETranslateDone 0 (TranslateOk (lit "Hola"))))
  = lit "Hola".
Proof.
  apply (C3_results_apply_in_arrival_order
           (run recording [EFragment (lit "Hello")]) 0
           (TranslateOk (lit "Hola"))).
  vm_compute. by eexists.
Defined.

(** C3 as the specification has it fails: the call for "Hello" is still in
    flight when the call for "Hello world" is answered; its late answer
    overwrites the newer translation. *)
Lemma C3_stale_result_counterexample :
  translations (run recording [EFragment (lit "Hello"); EFragment (lit "world")])
  = [lit "Hello"; lit "Hello world"]
  ∧ translatedText
      (run recording
         [EFragment (lit "Hello"); EFragment (lit "world");
          ETranslateDone 1 (TranslateOk (lit "Hola mundo"))])
    = lit "Hola mundo"
  ∧ translatedText
      (run recording
         [EFragment (lit "Hello"); EFragment (lit "world");
          ETranslateDone 1 (TranslateOk (lit "Hola mundo"));
          ETranslateDone 0 (TranslateOk (lit "Hola"))])
    = lit "Hola".
Proof. by vm_compute. Qed.

(** ** The watermark (C4) *)




(** *** Commits that dispatch nothing *)

Lemma clearDebounce_timers_empty s :
  timers s = ∅ → timers (clearDebounce s) = ∅.
Proof. intros H. by apply clearDebounce_empty, timer_single_empty. Qed.

(** With the flag set, or with the dependencies of the speech effect
    unchanged, a commit that does not translate either leaves the state
    alone or clears the timer. *)
Lemma runEffects_quiet prev s :
  translateDeps prev = translateDeps (render s) →
  isSpeaking s = true ∨ ttsDeps prev = ttsDeps (render s) →
  runEffects prev s = s ∨ runEffects prev s = clearDebounce s.
Proof.
  intros Hd Hq. unfold runEffects. cbv zeta.
  rewrite (decide_True (P := translateDeps _ = _)) by done.
  case_decide; [by left|right].
  apply ttsEffect_early. destruct Hq as [Hq|Hq]; [by right|done].
Qed.

Lemma settle_quiet prev s :
  translateDeps prev = translateDeps (render s) →
  isSpeaking s = true ∨ ttsDeps prev = ttsDeps (render s) →
  let s' := settle prev s in
  translatedText s' = translatedText s
  ∧ isSpeaking s' = isSpeaking s
  ∧ isRecording s' = isRecording s
  ∧ targetLanguage s' = targetLanguage s
  ∧ lastSpokenTranslatedTextRef s' = lastSpokenTranslatedTextRef s
  ∧ ttsDebounceTimerRef s' = ttsDebounceTimerRef s
  ∧ speeches s' = speeches s
  ∧ speakLog s' = speakLog s
  ∧ sourceText s' = sourceText s
  ∧ network s' = network s
  ∧ toggles s' = toggles s
  ∧ localStorage s' = localStorage s
  ∧ (timers s = ∅ → timers s' = ∅).
Proof.
  intros Hd Hq. cbv zeta.
  destruct (settle_frame prev s)
    as (-> & -> & -> & -> & -> & -> & -> & -> & -> & -> & -> & ->).
  assert (timers (runEffects prev s) = ∅ → timers (settle prev s) = ∅) as Ht.
  { destruct (settle_cases prev s) as [[_ ->]| ->];
      [done|apply clearDebounce_timers_empty]. }
  destruct (runEffects_quiet prev s Hd Hq) as [E|E]; rewrite E in *.
  - by auto 20.
  - destruct (clearDebounce_frame s)
      as (-> & -> & -> & -> & -> & -> & -> & -> & -> & -> & -> & ->).
    repeat (split; [done|]). intros H. by apply Ht, clearDebounce_timers_empty.
Qed.


Lemma speakAndAdvance_log c p s :
  speakLog (speakAndAdvance c p s) = speakLog s ++ [(p, r_targetLanguage c)].
Proof. by crush. Qed.

(** ** The debounce timer (C5) *)

















(** The first end-to-end scenario of the specification: while recording,
    the buffer goes "Hola", "Hola mundo", "Hola mundo."; nothing is spoken
    before the sentence is complete, and then [speak] is called once. *)
Example hola_mundo_scenario :
  speakLog (run recording
    [EFragment (lit "Hello"); ETranslateDone 0 (TranslateOk (lit "Hola"));
     EFragment (lit "world");
     ETranslateDone 0 (TranslateOk (lit "Hola mundo"))]) = []
  ∧ size (timers (run recording
    [EFragment (lit "Hello"); ETranslateDone 0 (TranslateOk (lit "Hola"));
     EFragment (lit "world");
     ETranslateDone 0 (TranslateOk (lit "Hola mundo"))])) = 1%nat
  ∧ speakLog (run recording
    [EFragment (lit "Hello"); ETranslateDone 0 (TranslateOk (lit "Hola"));
     EFragment (lit "world");
     ETranslateDone 0 (TranslateOk (lit "Hola mundo"));
     EFragment (lit "."); ETranslateDone 0 (TranslateOk (lit "Hola mundo."))])
    = [(lit "Hola mundo.", "es"%string)]
  ∧ timers (run recording
    [EFragment (lit "Hello"); ETranslateDone 0 (TranslateOk (lit "Hola"));
     EFragment (lit "world");
     ETranslateDone 0 (TranslateOk (lit "Hola mundo"));
     EFragment (lit "."); ETranslateDone 0 (TranslateOk (lit "Hola mundo."))])
    = ∅.
Proof. by vm_compute. Qed.

(** ** One playback at a time (C2) *)

Lemma speak_with_key text language s key :
  ¬ blank text → getKey "elevenlabs_api_key" s = Some key →
  isSpeaking (speak text language s) = true
  ∧ speeches (speak text language s) = speeches s ++ [Fetching]
  ∧ network (speak text language s)
    = network s ++ [SpeechRequest (voiceFor language) key text].
Proof.
  intros Hnb%not_blank_trim Hkey. unfold speak. rewrite Hnb. simpl.
  change (getKey "elevenlabs_api_key"
            (set_ttsError None (set_isSpeaking true s)))
    with (getKey "elevenlabs_api_key" s).
  by rewrite Hkey.
Qed.

Lemma stopContinuation_speaking c s :
  r_isSpeaking c = true →
  stopContinuation c s = clearDebounce (set_isRecording false s).
Proof.
  intros H. unfold stopContinuation. cbv zeta.
  by rewrite H, andb_false_r.
Qed.

(** C2, as amended. The callers keep playbacks apart, the synthesis call
    does not: (1) in every run in which each stop handler resumes with the
    buffer and the flag it closed over still current, at most one
    synthesis+playback operation is in flight; (2) the speech effect, the
    debounce callback and the stop handler call nothing while the flag they
    read is set; (3) [speak] itself checks nothing: on a non-blank text
    with a key configured it starts one more operation whatever the flag
    says. *)
Theorem C2_callers_serialize_playback :
  (∀ (ls : gmap string string) (es : list Event),
     freshRun (init ls) es →
     (length (speeches (run (init ls) es)) ≤ 1)%nat)
  ∧ (∀ c s, r_isSpeaking c = true →
       ttsEffect c s = clearDebounce s
       ∧ stopContinuation c s = clearDebounce (set_isRecording false s))
  ∧ (∀ cb s, r_isSpeaking (tc_render cb) = true → timerCallback cb s = s)
  ∧ (∀ (text : jsstring) (language : string) (s : State) (key : string),
       ¬ blank text → getKey "elevenlabs_api_key" s = Some key →
       isSpeaking (speak text language s) = true
       ∧ speeches (speak text language s) = speeches s ++ [Fetching]
       ∧ network (speak text language s)
         = network s ++ [SpeechRequest (voiceFor language) key text]).
Proof.
  split.
  { intros ls es Hf.
    apply (run_speech (init ls) es); [apply init_timers| |done].
    split; simpl; [lia|done]. }
  split.
  { intros c s H. split; [apply ttsEffect_early; by right|].
    by apply stopContinuation_speaking. }
  split.
  { intros cb s H. unfold timerCallback. cbv zeta. by rewrite H. }
  intros text language s key. apply speak_with_key.
Qed.

(** C2 on a session in which a sentence is spoken and played to its end,
    more text arrives and recording stops. *)
Lemma C2_callers_serialize_playback_witness :
  freshRun (init allKeys)
    [EToggleClick; EStartResume 0 true; EFragment (lit "Hello.");
     ETranslateDone 0 (TranslateOk (lit "Hola.")); ESpeechPlaying 0;
     ESpeechEnd 0 PlaybackEnded; EFragment (lit "Bye");
     ETranslateDone 0 (TranslateOk (lit "Hola. Adios"));
     EToggleClick; EStopResume 0]
  ∧ (length (speeches (run (init allKeys)
       [EToggleClick; EStartResume 0 true; EFragment (lit "Hello.");
        ETranslateDone 0 (TranslateOk (lit "Hola.")); ESpeechPlaying 0;
        ESpeechEnd 0 PlaybackEnded; EFragment (lit "Bye");
        ETranslateDone 0 (TranslateOk (lit "Hola. Adios"));
        EToggleClick; EStopResume 0])) ≤ 1)%nat.
Proof.
  assert (freshRun (init allKeys)
    [EToggleClick; EStartResume 0 true; EFragment (lit "Hello.");
     ETranslateDone 0 (TranslateOk (lit "Hola.")); ESpeechPlaying 0;
     ESpeechEnd 0 PlaybackEnded; EFragment (lit "Bye");
     ETranslateDone 0 (TranslateOk (lit "Hola. Adios"));
     EToggleClick; EStopResume 0]) as H.
  { vm_compute. repeat split; by simplify_eq. }
  split; [exact H|].
  exact (proj1 C2_callers_serialize_playback allKeys _ H).
Defined.

(** C2 as the specification has it fails at the synthesis call: issued
    while a first operation is in flight and the flag is set, a second
    request is not rejected; it goes out as well. *)
Lemma C2_second_request_counterexample :
  isSpeaking (speak (lit "Hola.") "es" (init allKeys)) = true
  ∧ speeches (speak (lit "Hola.") "es" (init allKeys)) = [Fetching]
  ∧ speeches (speak (lit "Adios.") "es"
                (speak (lit "Hola.") "es" (init allKeys)))
    = [Fetching; Fetching]
  ∧ network (speak (lit "Adios.") "es"
               (speak (lit "Hola.") "es" (init allKeys)))
    = [SpeechRequest "EXAVITQu4vr4xnSDxMaL" "e" (lit "Hola.");
       SpeechRequest "EXAVITQu4vr4xnSDxMaL" "e" (lit "Adios.")].
Proof. by vm_compute. Qed.

(** Why (1) asks for current closures: a stop handler suspended at
    [await stopRecording()] keeps the flag of its render. Here the late
    answer "Gracias." is spoken while the handler waits; the handler then
    resumes, finds the flag clear in its closure and speaks the rest of
    the older buffer on top of it. *)
Lemma stale_stop_overlaps :
  speeches
    (run recording
       [EFragment (lit "Thank you."); EFragment (lit "For your time");
        ETranslateDone 1 (TranslateOk (lit "Gracias. Por tu tiempo"));
        EToggleClick;
        ETranslateDone 0 (TranslateOk (lit "Gracias."));
        EStopResume 0])
  = [Fetching; Fetching].
Proof. by vm_compute. Qed.

(** ** Stopping the recording (C7) *)

Lemma speakAndAdvance_network c p s :
  truthy (trim p) = true →
  network (speakAndAdvance c p s)
  = network s
    ++ match getKey "elevenlabs_api_key" s with
       | Some key => [SpeechRequest (voiceFor (r_targetLanguage c)) key p]
       | None => []
       end.
Proof.
  intros Hp. unfold speakAndAdvance, dispatch, speak. rewrite Hp. simpl.
  match goal with |- context [getKey ?k ?s'] =>
    change (getKey k s') with (getKey k s) end.
  destruct (getKey _ s); simpl; [done|by rewrite app_nil_r].
Qed.







(** ** The currently-speaking flag (C6) *)

Lemma stuck_ext s s' :
  isSpeaking s' = isSpeaking s → speeches s' = speeches s →
  timers s' = timers s → toggles s' = toggles s →
  stuck s → stuck s'.
Proof. unfold stuck. by intros -> -> -> ->. Qed.

Lemma clearDebounce_stuck s : stuck s → stuck (clearDebounce s).
Proof.
  intros (H1 & H2 & H3 & H4).
  destruct (clearDebounce_frame s)
    as (_ & E1 & _ & _ & _ & _ & E2 & _ & _ & _ & E3 & _).
  split; [congruence|]. split; [congruence|].
  split; [by apply clearDebounce_timers_empty|by rewrite E3].
Qed.

Lemma runEffects_stuck prev s : stuck s → stuck (runEffects prev s).
Proof.
  intros H. unfold runEffects. cbv zeta.
  destruct (afterTranslateEffect_frame
              (bool_decide (translateDeps prev = translateDeps (render s)))
              (render s) s)
    as (_ & _ & _ & _ & _ & E1 & _ & _ & E2 & E3 & E4 & _).
  rewrite (decide_bool_decide (translateDeps prev = _)).
  set (sA := if bool_decide _ then s else _) in *.
  assert (stuck sA) as HA by by eapply stuck_ext.
  case_decide; [done|].
  rewrite ttsEffect_early; [by apply clearDebounce_stuck|right].
  exact (proj1 H).
Qed.

Lemma handle_stuck e s : stuck s → stuck (handle e s).
Proof.
  intros H. pose proof H as (H1 & H2 & H3 & H4).
  destruct e as [text|k o|id| |k|k success|k|k e| | |f]; simpl.
  - eapply stuck_ext; [..|done]; clear; by crush.
  - eapply stuck_ext; [..|done]; clear; by crush.
  - by rewrite H3, lookup_empty.
  - unfold handleRecordingToggle.
    change (r_isRecording (render s)) with (isRecording s).
    destruct (isRecording s); cbv zeta.
    + split; [done|]. split; [done|]. split; [done|]. simpl.
      intros c [Hc|Hc%list_elem_of_singleton]%elem_of_app; [by apply H4|].
      injection Hc as ->. done.
    + set (s0 := set_lastSpokenTranslatedTextRef _ _).
      assert (stuck s0) as H0 by (eapply stuck_ext; [..|done]; done).
      apply clearDebounce_stuck in H0.
      destruct H0 as (G1 & G2 & G3 & G4).
      split; [done|]. split; [done|]. split; [done|]. simpl.
      intros c [Hc|Hc%list_elem_of_singleton]%elem_of_app; [by apply G4|done].
  - destruct (toggles s !! k) as [[c|]|] eqn:E; try done.
    rewrite stopContinuation_speaking
      by (apply H4; by eapply list_elem_of_lookup_2).
    apply clearDebounce_stuck.
    split; [done|]. split; [done|]. split; [done|]. simpl.
    intros c' Hc'. apply H4.
    eapply elem_of_sublist; [exact Hc'|apply sublist_delete].
  - destruct (toggles s !! k) as [[c|]|] eqn:E; try done.
    assert (stuck (set_toggles (delete k (toggles s)) s)) as H'.
    { split; [done|]. split; [done|]. split; [done|]. simpl.
      intros c' Hc'. apply H4.
      eapply elem_of_sublist; [exact Hc'|apply sublist_delete]. }
    destruct success; [|done].
    eapply stuck_ext; [..|exact H']; done.
  - by rewrite H2.
  - by rewrite H2.
  - done.
  - done.
  - done.
Qed.

Lemma run_stuck s es : stuck s → stuck (run s es).
Proof.
  revert s. induction es as [|e es IH]; intros s H; simpl; [done|].
  apply IH. unfold step, settle. by apply runEffects_stuck, runEffects_stuck, handle_stuck.
Qed.

(** C6 fails on the missing-credential path. With no speech key saved, a
    call of [speak] on a non-blank text sets the flag, records the
    configuration error and returns with the flag still set and nothing in
    flight that could clear it. In the run below the key is removed while
    recording; the sentence "Hola." is claimed by the watermark, never
    spoken, and the flag stays set whatever happens next. *)
Theorem C6_missing_key_leaves_flag_set :
  (∀ (text : jsstring) (language : string) (s : State),
     ¬ blank text → getKey "elevenlabs_api_key" s = None →
     isSpeaking (speak text language s) = true
     ∧ speeches (speak text language s) = speeches s
     ∧ network (speak text language s) = network s)
  ∧ speakLog
      (run recording
         [ESaveSettings noSpeechKey; EFragment (lit "Hello.");
          ETranslateDone 0 (TranslateOk (lit "Hola."))])
    = [(lit "Hola.", "es"%string)]
  ∧ ttsError
      (run recording
         [ESaveSettings noSpeechKey; EFragment (lit "Hello.");
          ETranslateDone 0 (TranslateOk (lit "Hola."))])
    = Some "ElevenLabs API key not configured"%string
  ∧ ∀ es : list Event,
      isSpeaking
        (run (run recording
                [ESaveSettings noSpeechKey; EFragment (lit "Hello.");
                 ETranslateDone 0 (TranslateOk (lit "Hola."))]) es)
      = true.
Proof.
  split.
  { intros text language s Hnb%not_blank_trim Hkey.
    unfold speak. rewrite Hnb. simpl.
    change (getKey "elevenlabs_api_key"
              (set_ttsError None (set_isSpeaking true s)))
      with (getKey "elevenlabs_api_key" s).
    by rewrite Hkey. }
  split; [by vm_compute|]. split; [by vm_compute|].
  intros es. apply run_stuck.
  split; [by vm_compute|]. split; [by vm_compute|]. split; [by vm_compute|].
  intros c. vm_compute. by intros ?%elem_of_nil.
Qed.

(** The other ends of a synthesis call do clear the flag, the rejection
    of [audio.play()] apart. *)
Lemma speak_end_clears_flag e s :
  e ≠ PlayRejected → isSpeaking (speak_end e s) = false.
Proof. by destruct e. Qed.

(** * Further properties of the page *)

(** ** Commits, event by event *)

Lemma runEffects_frame prev s :
  let s' := runEffects prev s in
  sourceText s' = sourceText s
  ∧ sourceLanguage s' = sourceLanguage s
  ∧ targetLanguage s' = targetLanguage s
  ∧ isRecording s' = isRecording s
  ∧ toggles s' = toggles s
  ∧ localStorage s' = localStorage s.
Proof.
  unfold runEffects. cbv zeta.
  destruct (afterTranslateEffect_frame
              (bool_decide (translateDeps prev = translateDeps (render s)))
              (render s) s)
    as (_ & Hsrc & Hsl & Htl & Hrec & _ & _ & _ & _ & _ & Htog & _ & Hls).
  rewrite (decide_bool_decide (translateDeps prev = _)).
  set (sA := if bool_decide _ then s else _) in *.
  case_decide; [done|].
  destruct (ttsEffect_frame (render s) sA)
    as (_ & ES & ESL & ETL & ER & _ & ETog & ELs).
  by rewrite ES, ESL, ETL, ER, ETog, ELs.
Qed.

Lemma settle_eq prev s :
  ttsDeps (render (runEffects prev s)) = ttsDeps (render s) →
  settle prev s = runEffects prev s.
Proof.
  intros H. unfold settle. destruct (runEffects_deps prev s) as [Ht _].
  set (s1 := runEffects prev s) in *.
  unfold runEffects. cbv zeta.
  rewrite (decide_True (P := translateDeps _ = _)) by done.
  by rewrite (decide_True (P := ttsDeps _ = _)).
Qed.

Lemma runEffects_tts prev s :
  translateDeps prev = translateDeps (render s) →
  ttsDeps prev ≠ ttsDeps (render s) →
  runEffects prev s = ttsEffect (render s) s.
Proof.
  intros H1 H2. unfold runEffects. cbv zeta.
  rewrite (decide_True (P := translateDeps _ = _)) by done.
  by rewrite (decide_False (P := ttsDeps _ = _)).
Qed.

Lemma runEffects_translate prev s :
  translateDeps prev ≠ translateDeps (render s) →
  ttsDeps prev = ttsDeps (render s) →
  runEffects prev s = autoTranslateEffect (render s) s.
Proof.
  intros H1 H2. unfold runEffects. cbv zeta.
  rewrite (decide_False (P := translateDeps _ = _)) by done.
  by rewrite (decide_True (P := ttsDeps _ = _)).
Qed.

Lemma getKey_ext k s s' :
  localStorage s' = localStorage s → getKey k s' = getKey k s.
Proof. unfold getKey. by intros ->. Qed.

Lemma unspoken_nonblank t s : unspoken t s ≠ [] → truthy (trim t) = true.
Proof.
  intros H. apply not_blank_trim. intros Hb. apply H.
  unfold unspoken. apply trim_blank. unfold substring, blank in *.
  by apply Forall_drop.
Qed.

Lemma ttsEffect_speaks c s :
  r_isSpeaking c = false →
  unspoken (r_translatedText c) s ≠ [] →
  endsWithPunctuation (unspoken (r_translatedText c) s) = true
  ∨ r_isRecording c = false →
  ttsEffect c s
  = speakAndAdvance c (unspoken (r_translatedText c) s) (clearDebounce s).
Proof.
  intros Hs Hu Hp. unfold ttsEffect. rewrite unspoken_clearDebounce.
  rewrite (unspoken_nonblank _ _ Hu), Hs.
  apply truthy_true in Hu. rewrite Hu. simpl.
  destruct Hp as [->| ->]; [done|]. by destruct (endsWithPunctuation _).
Qed.

Lemma ttsEffect_arms c s :
  r_isSpeaking c = false →
  r_isRecording c = true →
  unspoken (r_translatedText c) s ≠ [] →
  endsWithPunctuation (unspoken (r_translatedText c) s) = false →
  ttsEffect c s
  = armDebounce {| tc_render := c;
                   tc_portion := unspoken (r_translatedText c) s |}
      (clearDebounce s).
Proof.
  intros Hs Hr Hu Hp. unfold ttsEffect. rewrite unspoken_clearDebounce.
  rewrite (unspoken_nonblank _ _ Hu), Hs, Hp, Hr.
  apply truthy_true in Hu. by rewrite Hu.
Qed.

(** A commit in which only the speech effect runs, and speaks. *)
Lemma settle_speaks prev h :
  timer_single h →
  translateDeps prev = translateDeps (render h) →
  ttsDeps prev ≠ ttsDeps (render h) →
  isSpeaking h = false →
  unspoken (translatedText h) h ≠ [] →
  endsWithPunctuation (unspoken (translatedText h) h) = true
  ∨ isRecording h = false →
  let s' := settle prev h in
  translatedText s' = translatedText h
  ∧ speakLog s' = speakLog h ++ [(unspoken (translatedText h) h, targetLanguage h)]
  ∧ lastSpokenTranslatedTextRef s' = translatedText h
  ∧ timers s' = ∅
  ∧ isSpeaking s' = true
  ∧ isRecording s' = isRecording h
  ∧ network s'
    = network h
      ++ match getKey "elevenlabs_api_key" h with
         | Some key =>
             [SpeechRequest (voiceFor (targetLanguage h)) key
                (unspoken (translatedText h) h)]
         | None => []
         end.
Proof.
  intros Hsingle Htr Htts Hspk Hu Hp s'.
  pose proof (runEffects_tts prev h Htr Htts) as E1.
  rewrite (ttsEffect_speaks (render h) h Hspk Hu Hp) in E1.
  change (r_translatedText (render h)) with (translatedText h) in E1.
  set (p := unspoken (translatedText h) h) in *.
  destruct (settle_frame prev h)
    as (FT & FS & FR & _ & FL & _ & _ & FLog & _ & FN & _).
  fold s' in FT, FS, FR, FL, FLog, FN.
  rewrite FT, FLog, FL, FS, FR, FN, E1.
  destruct (clearDebounce_frame h)
    as (CT & _ & CR & CTL & _ & _ & _ & CLog & _ & CN & _ & CLs).
  destruct (speakAndAdvance_spec (render h) p (clearDebounce h)
              (unspoken_speakable _ _ Hu))
    as (S1 & S2 & S3 & _ & S5 & _ & _ & _ & S9 & S10 & _).
  rewrite S1, S2, S3, S5, S9, CT, CLog, CR.
  rewrite (speakAndAdvance_network (render h) p (clearDebounce h)
             (unspoken_speakable _ _ Hu)).
  rewrite CN, (getKey_ext _ _ _ CLs).
  repeat split; try done.
  assert (timers (runEffects prev h) = ∅) as Hempty.
  { rewrite E1, S10. by apply clearDebounce_empty. }
  subst s'. destruct (settle_cases prev h) as [[_ ->]| ->]; [done|].
  by apply clearDebounce_timers_empty.
Qed.

(** A commit in which only the speech effect runs, and arms the timer. *)
Lemma settle_arms prev h :
  translateDeps prev = translateDeps (render h) →
  ttsDeps prev ≠ ttsDeps (render h) →
  isSpeaking h = false →
  isRecording h = true →
  unspoken (translatedText h) h ≠ [] →
  endsWithPunctuation (unspoken (translatedText h) h) = false →
  settle prev h
  = armDebounce {| tc_render := render h;
                   tc_portion := unspoken (translatedText h) h |}
      (clearDebounce h).
Proof.
  intros Htr Htts Hspk Hrec Hu Hp.
  pose proof (runEffects_tts prev h Htr Htts) as E1.
  rewrite (ttsEffect_arms (render h) h Hspk Hrec Hu Hp) in E1.
  rewrite settle_eq; [done|].
  by rewrite E1, ttsDeps_armDebounce, ttsDeps_clearDebounce.
Qed.


Lemma handle_translated s k t :
  is_Some (translations s !! k) → t ≠ [] →
  handle (ETranslateDone k (TranslateOk t)) s
  = set_translatedText t
      (set_isTranslating false (set_translations (delete k (translations s)) s)).
Proof.
  intros [x Hx] Ht. simpl. rewrite Hx. simpl.
  apply truthy_true in Ht. by rewrite Ht.
Qed.

(** X5. In every reachable state that is not speaking, a translation
    result that differs from the buffer and whose unspoken portion is
    non-blank and ends with '.', '?' or '!' (or arrives when the page is
    not recording) is spoken in the same step: the buffer takes the result,
    [speak] is called exactly once with the trimmed unspoken portion and
    the target language, the watermark becomes the length of the result,
    no timer stays armed, the flag is set, and one synthesis request goes
    out exactly when the ElevenLabs key is configured. *)
Theorem X5_punctuated_result_is_spoken_at_once
    (ls : gmap string string) (es : list Event) (k : nat) (t : jsstring) :
  let s := run (init ls) es in
  is_Some (translations s !! k) →
  isSpeaking s = false →
  t ≠ translatedText s →
  unspoken t s ≠ [] →
  endsWithPunctuation (unspoken t s) = true ∨ isRecording s = false →
  let s' := step s (ETranslateDone k (TranslateOk t)) in
  translatedText s' = t
  ∧ speakLog s' = speakLog s ++ [(unspoken t s, targetLanguage s)]
  ∧ watermark s' = length t
  ∧ timers s' = ∅
  ∧ isSpeaking s' = true
  ∧ network s'
    = network s
      ++ match getKey "elevenlabs_api_key" s with
         | Some key =>
             [SpeechRequest (voiceFor (targetLanguage s)) key (unspoken t s)]
         | None => []
         end.
Proof.
  intros s Hk Hspk Hne Hu Hp s'.
  pose proof (run_timers _ es (init_timers ls)) as Hinv. fold s in Hinv.
  assert (t ≠ []) as Ht.
  { intros ->. apply unspoken_lt in Hu. simpl in Hu. lia. }
  pose proof (handle_timers (ETranslateDone k (TranslateOk t)) s Hinv) as [Hsingle _].
  subst s'. unfold step. revert Hsingle.
  rewrite (handle_translated s k t Hk Ht).
  set (h := set_translatedText t _). intros Hsingle.
  assert (unspoken t h = unspoken t s) as Eu by done.
  pose proof (settle_speaks (render s) h Hsingle) as R.
  change (translatedText h) with t in R. rewrite Eu in R.
  change (isSpeaking h) with (isSpeaking s) in R.
  change (isRecording h) with (isRecording s) in R.
  destruct R as (R1 & R2 & R3 & R4 & R5 & _ & R7); try done.
  { rewrite !ttsDeps_render. simpl. congruence. }
  unfold watermark. by rewrite R1, R2, R3, R4, R5, R7.
Qed.

Lemma X5_punctuated_result_is_spoken_at_once_witness :
  let s :=
    run (init allKeys)
      [EToggleClick; EStartResume 0 true; EFragment (lit "Hello.")] in
  let t := lit "Hola." in
  let s' := step s (ETranslateDone 0 (TranslateOk t)) in
  is_Some (translations s !! 0%nat)
  ∧ isSpeaking s = false
  ∧ unspoken t s = lit "Hola."
  ∧ speakLog s' = speakLog s ++ [(unspoken t s, targetLanguage s)]
  ∧ watermark s' = length t
  ∧ timers s' = ∅.
Proof.
  intros s t s'.
  assert (is_Some (translations s !! 0%nat)) as H1 by (eexists; by vm_compute).
  assert (isSpeaking s = false) as H2 by (by vm_compute).
  assert (t ≠ translatedText s) as H3 by (by vm_compute).
  assert (unspoken t s ≠ []) as H4 by (by vm_compute).
  assert (endsWithPunctuation (unspoken t s) = true ∨ isRecording s = false)
    as H5 by (left; by vm_compute).
  assert (unspoken t s = lit "Hola.") as H6 by (by vm_compute).
  pose proof (X5_punctuated_result_is_spoken_at_once allKeys
    [EToggleClick; EStartResume 0 true; EFragment (lit "Hello.")] 0 t
    H1 H2 H3 H4 H5) as (_ & R2 & R3 & R4 & _).
  split; [exact H1|]. split; [exact H2|]. split; [exact H6|].
  split; [exact R2|]. split; [exact R3|exact R4].
Defined.

Lemma render_clearDebounce s : render (clearDebounce s) = render s.
Proof. by crush. Qed.

Lemma handle_translated_frame s k t :
  let h := set_translatedText t
      (set_isTranslating false (set_translations (delete k (translations s)) s)) in
  nextTimer (clearDebounce h) = nextTimer s.
Proof. by crush. Qed.

(** X6. In every reachable state that is recording and not speaking, a
    translation result that differs from the buffer and whose unspoken
    portion is non-blank without terminal punctuation is not spoken:
    [speak] is not called, no request is made, the watermark keeps its
    value, and exactly one timer is armed, under a fresh handle, closing
    over the render that holds the result and the portion seen now. *)
Theorem X6_unpunctuated_result_waits_for_the_timer
    (ls : gmap string string) (es : list Event) (k : nat) (t : jsstring) :
  let s := run (init ls) es in
  is_Some (translations s !! k) →
  isSpeaking s = false →
  isRecording s = true →
  t ≠ translatedText s →
  unspoken t s ≠ [] →
  endsWithPunctuation (unspoken t s) = false →
  let s' := step s (ETranslateDone k (TranslateOk t)) in
  translatedText s' = t
  ∧ speakLog s' = speakLog s
  ∧ network s' = network s
  ∧ watermark s' = watermark s
  ∧ isSpeaking s' = false
  ∧ timers s'
    = {[ nextTimer s := {| tc_render := render s'; tc_portion := unspoken t s |} ]}.
Proof.
  intros s Hk Hspk Hrec Hne Hu Hp s'.
  pose proof (run_timers _ es (init_timers ls)) as Hinv. fold s in Hinv.
  assert (t ≠ []) as Ht.
  { intros ->. apply unspoken_lt in Hu. simpl in Hu. lia. }
  pose proof (handle_timers (ETranslateDone k (TranslateOk t)) s Hinv) as [Hsingle _].
  subst s'. unfold step. revert Hsingle.
  rewrite (handle_translated s k t Hk Ht).
  pose proof (handle_translated_frame s k t) as Hnext. cbv zeta in Hnext.
  set (h := set_translatedText t _) in *. intros Hsingle.
  assert (unspoken t h = unspoken t s) as Eu by done.
  pose proof (settle_arms (render s) h) as R.
  change (translatedText h) with t in R. rewrite Eu in R.
  rewrite R; try done.
  2:{ rewrite !ttsDeps_render. simpl. congruence. }
  destruct (clearDebounce_frame h)
    as (CT & CS & _ & _ & CL & _ & _ & CLog & _ & CN & _).
  unfold watermark, armDebounce. simpl. rewrite CT, CLog, CN, CL, CS, Hnext.
  repeat split; try done.
  rewrite (clearDebounce_empty h Hsingle), insert_empty.
  f_equal. f_equal. symmetry. apply render_clearDebounce.
Qed.

Lemma X6_unpunctuated_result_waits_for_the_timer_witness :
  let s :=
    run (init allKeys)
      [EToggleClick; EStartResume 0 true; EFragment (lit "Hello")] in
  let t := lit "Hola" in
  let s' := step s (ETranslateDone 0 (TranslateOk t)) in
  is_Some (translations s !! 0%nat)
  ∧ isRecording s = true
  ∧ unspoken t s = lit "Hola"
  ∧ speakLog s' = speakLog s
  ∧ timers s'
    = {[ nextTimer s := {| tc_render := render s'; tc_portion := unspoken t s |} ]}.
Proof.
  intros s t s'.
  assert (is_Some (translations s !! 0%nat)) as H1 by (eexists; by vm_compute).
  assert (isSpeaking s = false) as H2 by (by vm_compute).
  assert (isRecording s = true) as H2' by (by vm_compute).
  assert (t ≠ translatedText s) as H3 by (by vm_compute).
  assert (unspoken t s ≠ []) as H4 by (by vm_compute).
  assert (endsWithPunctuation (unspoken t s) = false) as H5 by (by vm_compute).
  assert (unspoken t s = lit "Hola") as H6 by (by vm_compute).
  pose proof (X6_unpunctuated_result_waits_for_the_timer allKeys
    [EToggleClick; EStartResume 0 true; EFragment (lit "Hello")] 0 t
    H1 H2 H2' H3 H4 H5) as (_ & R2 & _ & _ & _ & R6).
  split; [exact H1|]. split; [exact H2'|]. split; [exact H6|].
  split; [exact R2|exact R6].
Defined.

(** While the flag is set no timer is armed. *)
Lemma speaking_no_timer s : timers_inv s → isSpeaking s = true → timers s = ∅.
Proof.
  intros [Hs Hc] Hspk. apply map_empty. intros id.
  destruct (timers s !! id) as [cb|] eqn:E; [|done].
  destruct (Hs id cb E) as (_ & Hf & _).
  destruct (ttsDeps_eq _ _ (Hc id cb E)) as (_ & Hf' & _). congruence.
Qed.

Lemma handle_translate_frame k o s :
  let h := handle (ETranslateDone k o) s in
  translateDeps (render h) = translateDeps (render s)
  ∧ isSpeaking h = isSpeaking s
  ∧ speakLog h = speakLog s
  ∧ network h = network s
  ∧ speeches h = speeches s
  ∧ lastSpokenTranslatedTextRef h = lastSpokenTranslatedTextRef s
  ∧ timers h = timers s.
Proof. simpl. by crush. Qed.

(** X7. In every reachable state in which the currently-speaking flag
    is set, the arrival of a translation outcome (whatever it is) calls
    [speak] not at all, makes no request, starts no synthesis, leaves the
    watermark and the flag as they are, and no timer is armed afterwards:
    the text waits in the buffer, which holds the text that arrived if the
    call was in flight and the text is not empty, and what it held before
    otherwise. *)
Theorem X7_result_while_speaking_is_only_stored
    (ls : gmap string string) (es : list Event) (k : nat) (o : TranslateOutcome) :
  let s := run (init ls) es in
  isSpeaking s = true →
  let s' := step s (ETranslateDone k o) in
  speakLog s' = speakLog s
  ∧ network s' = network s
  ∧ speeches s' = speeches s
  ∧ watermark s' = watermark s
  ∧ timers s' = ∅
  ∧ isSpeaking s' = true
  ∧ translatedText s'
    = match translations s !! k, o with
      | Some _, TranslateOk (c :: t) => c :: t
      | _, _ => translatedText s
      end.
Proof.
  intros s Hspk s'.
  pose proof (run_timers _ es (init_timers ls)) as Hinv. fold s in Hinv.
  pose proof (speaking_no_timer s Hinv Hspk) as Hno.
  destruct (handle_translate_frame k o s) as (Htr & HS & HLog & HN & HSp & HL & HTi).
  assert (translatedText s'
          = match translations s !! k, o with
            | Some _, TranslateOk (c :: t) => c :: t
            | _, _ => translatedText s
            end) as HT.
  { subst s'. rewrite step_translatedText by done. simpl. clear.
    destruct (translations s !! k); [|done].
    destruct o as [[|c t]| |f]; by crush. }
  revert HT. subst s'. unfold step.
  set (h := handle _ s) in *.
  destruct (settle_quiet (render s) h)
    as (_ & QS & _ & _ & QL & _ & QSp & QLog & _ & QN & _ & _ & QT).
  { done. }
  { left. congruence. }
  unfold watermark. rewrite QLog, QN, QSp, QL, QS, HLog, HN, HSp, HL, HS.
  intros HT. repeat split; try done. apply QT. congruence.
Qed.

Lemma X7_result_while_speaking_is_only_stored_witness :
  let s :=
    run (init allKeys)
      [EToggleClick; EStartResume 0 true; EFragment (lit "Hello.");
       ETranslateDone 0 (TranslateOk (lit "Hola.")); EFragment (lit "Bye.")] in
  let s' := step s (ETranslateDone 0 (TranslateOk (lit "Hola. Adios."))) in
  isSpeaking s = true
  ∧ translatedText s' = lit "Hola. Adios."
  ∧ speakLog s' = speakLog s
  ∧ watermark s' = watermark s.
Proof.
  intros s s'.
  assert (isSpeaking s = true) as H1 by (by vm_compute).
  assert (translatedText s' = lit "Hola. Adios.") as H2 by (by vm_compute).
  pose proof (X7_result_while_speaking_is_only_stored allKeys
    [EToggleClick; EStartResume 0 true; EFragment (lit "Hello.");
     ETranslateDone 0 (TranslateOk (lit "Hola.")); EFragment (lit "Bye.")]
    0 (TranslateOk (lit "Hola. Adios.")) H1) as (R1 & _ & _ & R4 & _).
  split; [exact H1|]. split; [exact H2|]. split; [exact R1|exact R4].
Defined.

Lemma handle_playback_end s k e :
  speeches s !! k = Some Playing →
  e = PlaybackEnded ∨ e = PlaybackError →
  handle (ESpeechEnd k e) s
  = set_isSpeaking false (set_speeches (delete k (speeches s)) s).
Proof. intros Hk [-> | ->]; simpl; by rewrite Hk. Qed.

(** X8. When a playback ends ([onended] or [onerror]) in a reachable
    state whose buffer holds a non-blank unspoken portion that ends with
    terminal punctuation (or when the page is not recording), the same step
    clears the flag, reruns the speech effect and speaks the waiting
    portion: one more call of [speak] with it, the watermark at the length
    of the buffer, the flag set again, no timer armed. *)
Theorem X8_playback_end_releases_waiting_text
    (ls : gmap string string) (es : list Event) (k : nat) (e : SpeechEnd) :
  let s := run (init ls) es in
  speeches s !! k = Some Playing →
  e = PlaybackEnded ∨ e = PlaybackError →
  isSpeaking s = true →
  unspoken (translatedText s) s ≠ [] →
  endsWithPunctuation (unspoken (translatedText s) s) = true
  ∨ isRecording s = false →
  let s' := step s (ESpeechEnd k e) in
  speakLog s'
  = speakLog s ++ [(unspoken (translatedText s) s, targetLanguage s)]
  ∧ watermark s' = length (translatedText s)
  ∧ translatedText s' = translatedText s
  ∧ isSpeaking s' = true
  ∧ timers s' = ∅.
Proof.
  intros s Hk He Hspk Hu Hp s'.
  pose proof (run_timers _ es (init_timers ls)) as Hinv. fold s in Hinv.
  pose proof (handle_timers (ESpeechEnd k e) s Hinv) as [Hsingle _].
  subst s'. unfold step. revert Hsingle.
  rewrite (handle_playback_end s k e Hk He).
  set (h := set_isSpeaking false _). intros Hsingle.
  assert (unspoken (translatedText s) h = unspoken (translatedText s) s)
    as Eu by done.
  pose proof (settle_speaks (render s) h Hsingle) as R.
  change (translatedText h) with (translatedText s) in R. rewrite Eu in R.
  change (isRecording h) with (isRecording s) in R.
  destruct R as (R1 & R2 & R3 & R4 & R5 & _); try done.
  { rewrite !ttsDeps_render. simpl. rewrite Hspk. congruence. }
  unfold watermark. by rewrite R1, R2, R3, R4, R5.
Qed.

Lemma X8_playback_end_releases_waiting_text_witness :
  let s :=
    run (init allKeys)
      [EToggleClick; EStartResume 0 true; EFragment (lit "Hello.");
       ETranslateDone 0 (TranslateOk (lit "Hola.")); ESpeechPlaying 0;
       EFragment (lit "Bye.");
       ETranslateDone 0 (TranslateOk (lit "Hola. Adios."))] in
  let s' := step s (ESpeechEnd 0 PlaybackEnded) in
  speeches s !! 0%nat = Some Playing
  ∧ unspoken (translatedText s) s = lit "Adios."
  ∧ speakLog s = [(lit "Hola.", "es"%string)]
  ∧ speakLog s'
    = speakLog s ++ [(unspoken (translatedText s) s, targetLanguage s)]
  ∧ watermark s' = length (translatedText s).
Proof.
  intros s s'.
  assert (speeches s !! 0%nat = Some Playing) as H1 by (by vm_compute).
  assert (isSpeaking s = true) as H2 by (by vm_compute).
  assert (unspoken (translatedText s) s ≠ []) as H3 by (by vm_compute).
  assert (endsWithPunctuation (unspoken (translatedText s) s) = true
          ∨ isRecording s = false) as H4 by (left; by vm_compute).
  assert (unspoken (translatedText s) s = lit "Adios.") as H5 by (by vm_compute).
  assert (speakLog s = [(lit "Hola.", "es"%string)]) as H6 by (by vm_compute).
  pose proof (X8_playback_end_releases_waiting_text allKeys
    [EToggleClick; EStartResume 0 true; EFragment (lit "Hello.");
     ETranslateDone 0 (TranslateOk (lit "Hola.")); ESpeechPlaying 0;
     EFragment (lit "Bye.");
     ETranslateDone 0 (TranslateOk (lit "Hola. Adios."))]
    0 PlaybackEnded H1 (or_introl eq_refl) H2 H3 H4) as (R1 & R2 & _).
  split; [exact H1|]. split; [exact H5|]. split; [exact H6|].
  split; [exact R1|exact R2].
Defined.








(** X2. The cascade of effects that one event causes ends after two
    commits: what the effects of the second commit write is not rendered
    (the render after it equals the render before it), so a third commit
    finds no dependency changed and leaves the state as it is. *)
Theorem X2_effects_settle_in_two_commits (prev : Render) (s : State) :
  let s1 := runEffects prev s in
  let s2 := runEffects (render s) s1 in
  render s2 = render s1
  ∧ runEffects (render s1) s2 = s2.
Proof.
  intros s1 s2.
  assert (render s2 = render s1) as E.
  { subst s1 s2. change (runEffects (render s) (runEffects prev s))
      with (settle prev s).
    destruct (settle_cases prev s) as [[_ ->]| ->]; [done|].
    apply render_clearDebounce. }
  split; [done|]. rewrite <- E. apply runEffects_same.
Qed.

Lemma onTranscription_ne b f : f ≠ [] → onTranscription b f ≠ b.
Proof.
  intros Hf E. apply (f_equal length) in E.
  unfold onTranscription in E. rewrite !length_app in E.
  destruct f; [done|]. simpl in E. lia.
Qed.

Lemma handle_fragment s f :
  f ≠ [] →
  handle (EFragment f) s = set_sourceText (onTranscription (sourceText s) f) s.
Proof. intros Hf. simpl. apply truthy_true in Hf. by rewrite Hf. Qed.

Lemma nonblank_condition (b : jsstring) :
  ¬ blank b → truthy b && (0 <? length (trim b))%nat = true.
Proof.
  intros Hb. pose proof (not_blank_trim b Hb) as Ht.
  apply truthy_true in Ht.
  destruct b as [|c b]; [by destruct Hb; constructor|]. simpl.
  destruct (trim (c :: b)); done.
Qed.

Lemma blank_condition (b : jsstring) :
  blank b → truthy b && (0 <? length (trim b))%nat = false.
Proof. intros Hb. rewrite (trim_blank b Hb). simpl. apply andb_false_r. Qed.

(** X3. A non-empty final fragment that leaves a non-blank buffer causes,
    when the Azure key is configured, exactly one translation request, and
    the request carries the whole new buffer (not the fragment), the source
    language unless it is Auto-Detect, the target language, the key and the
    stored region or "central india"; the translating flag is set, the
    error cleared, and the translated text, the calls of [speak] and the
    timers are untouched. *)
Theorem X3_fragment_requests_translation_of_whole_buffer
    (s : State) (f : jsstring) (key : string) :
  f ≠ [] →
  ¬ blank (onTranscription (sourceText s) f) →
  getKey "azure_api_key" s = Some key →
  let b := onTranscription (sourceText s) f in
  let s' := step s (EFragment f) in
  sourceText s' = b
  ∧ network s'
    = network s
      ++ [TranslateRequest
            (if String.eqb (sourceLanguage s) "Auto-Detect" then None
             else Some (sourceLanguage s))
            (targetLanguage s) key
            (default "central india"%string (getKey "azure_region" s)) b]
  ∧ translations s' = translations s ++ [b]
  ∧ isTranslating s' = true
  ∧ translationError s' = None
  ∧ translatedText s' = translatedText s
  ∧ speakLog s' = speakLog s
  ∧ timers s' = timers s.
Proof.
  intros Hf Hb Hkey b s'. subst s'. unfold step.
  rewrite (handle_fragment s f Hf). fold b.
  set (h := set_sourceText b s).
  assert (runEffects (render s) h = autoTranslateEffect (render h) h) as E1.
  { apply runEffects_translate; [|done].
    rewrite !translateDeps_render. simpl. intros [= E].
    symmetry in E. by apply onTranscription_ne in E. }
  assert (autoTranslateEffect (render h) h
          = (translateText b (sourceLanguage s) (targetLanguage s) h).1) as E2.
  { unfold autoTranslateEffect. simpl.
    rewrite (nonblank_condition b Hb).
    unfold translateText. rewrite (not_blank_trim b Hb). simpl.
    change (getKey "azure_api_key" _) with (getKey "azure_api_key" s).
    by rewrite Hkey. }
  rewrite settle_eq; rewrite E1, E2; unfold translateText;
    rewrite (not_blank_trim b Hb); simpl;
    change (getKey "azure_api_key" _) with (getKey "azure_api_key" s);
    rewrite Hkey; done.
Qed.

Lemma X3_fragment_requests_translation_of_whole_buffer_witness :
  let s :=
    run (init allKeys)
      [EToggleClick; EStartResume 0 true; EFragment (lit "Hello")] in
  let s' := step s (EFragment (lit "world")) in
  sourceText s' = lit "Hello world"
  ∧ network s'
    = network s
      ++ [TranslateRequest None "es" "a" "central india" (lit "Hello world")]
  ∧ translations s' = [lit "Hello"; lit "Hello world"].
Proof.
  intros s s'.
  assert (lit "world" ≠ []) as H1 by (by vm_compute).
  assert (¬ blank (onTranscription (sourceText s) (lit "world"))) as H2.
  { intros H. apply trim_blank in H. by vm_compute in H. }
  assert (getKey "azure_api_key" s = Some "a"%string) as H3 by (by vm_compute).
  pose proof (X3_fragment_requests_translation_of_whole_buffer s (lit "world")
                "a" H1 H2 H3) as (R1 & R2 & R3 & _).
  split; [exact R1|]. split; [exact R2|exact R3].
Defined.

(** X4. A non-empty fragment that leaves the buffer blank (whitespace
    only) makes the auto-translate effect clear [TranslatedTextBuffer]
    without any request; nothing is spoken and the watermark keeps its
    value. *)
Theorem X4_blank_buffer_clears_the_translation (s : State) (f : jsstring) :
  f ≠ [] →
  blank (onTranscription (sourceText s) f) →
  let s' := step s (EFragment f) in
  sourceText s' = onTranscription (sourceText s) f
  ∧ translatedText s' = []
  ∧ network s' = network s
  ∧ translations s' = translations s
  ∧ speakLog s' = speakLog s
  ∧ watermark s' = watermark s.
Proof.
  intros Hf Hb s'. subst s'. unfold step.
  rewrite (handle_fragment s f Hf).
  set (b := onTranscription (sourceText s) f) in *.
  set (h := set_sourceText b s).
  assert (runEffects (render s) h = set_translatedText [] h) as E1.
  { rewrite runEffects_translate; [| |done].
    - unfold autoTranslateEffect. simpl. by rewrite (blank_condition b Hb).
    - rewrite !translateDeps_render. simpl. intros [= E].
      symmetry in E. by apply onTranscription_ne in E. }
  unfold watermark.
  destruct (settle_cases (render s) h) as [[_ ->]| ->]; rewrite E1; [done|].
  set (h' := set_translatedText [] h).
  destruct (clearDebounce_frame h')
    as (-> & _ & _ & _ & -> & _ & _ & -> & -> & -> & _).
  split; [done|]. split; [done|]. split; [done|]. split; [|done].
  unfold clearDebounce, clearTimeout. by case_match.
Qed.

Lemma X4_blank_buffer_clears_the_translation_witness :
  let s :=
    run (init allKeys)
      [EToggleClick; EStartResume 0 true; EFragment (lit " ")] in
  let s' := step s (EFragment (lit " ")) in
  sourceText s' = lit "  "
  ∧ translatedText s' = []
  ∧ network s' = [].
Proof.
  intros s s'.
  assert (lit " " ≠ []) as H1 by (by vm_compute).
  assert (blank (onTranscription (sourceText s) (lit " "))) as H2.
  { apply trim_nil_iff. by vm_compute. }
  pose proof (X4_blank_buffer_clears_the_translation s (lit " ") H1 H2)
    as (R1 & R2 & R3 & _).
  split; [exact R1|]. split; [exact R2|exact R3].
Defined.

(** *** The translating flag *)

Lemma ttsEffect_translating c s :
  isTranslating (ttsEffect c s) = isTranslating s.
Proof.
  destruct (ttsEffect_cases c s) as [->|[(_ & _ & ->)|(_ & _ & _ & ->)]];
    by crush.
Qed.

Lemma autoTranslateEffect_translating c s :
  translating_ok s → translating_ok (autoTranslateEffect c s).
Proof.
  unfold translating_ok, autoTranslateEffect. intros H.
  crush; simplify_eq/=; try done; by intros _ []%app_eq_nil.
Qed.

Lemma runEffects_translating prev s :
  translating_ok s → translating_ok (runEffects prev s).
Proof.
  intros H. unfold runEffects. cbv zeta.
  set (sA := if decide (translateDeps prev = translateDeps (render s)) then s
             else autoTranslateEffect (render s) s).
  assert (translating_ok sA) as HA.
  { subst sA. case_decide; [done|by apply autoTranslateEffect_translating]. }
  destruct (decide (ttsDeps prev = ttsDeps (render s))); [done|].
  unfold translating_ok in *. rewrite ttsEffect_translating.
  by destruct (ttsEffect_frame (render s) sA) as (_ & _ & _ & _ & _ & -> & _).
Qed.

Lemma handle_translating e s : translating_ok s → translating_ok (handle e s).
Proof.
  unfold translating_ok. intros H.
  destruct e as [text|k o|id| |k|k success|k|k e| | |f]; simpl.
  - by case_match.
  - by crush.
  - case_match; [|done]. unfold timerCallback. case_match; [|done].
    by crush.
  - unfold handleRecordingToggle. by crush.
  - case_match; [|done]. case_match; [|done].
    unfold stopContinuation. by crush.
  - by crush.
  - by crush.
  - by crush.
  - done.
  - done.
  - done.
Qed.

Lemma step_translating s e : translating_ok s → translating_ok (step s e).
Proof.
  intros H. unfold step, settle.
  by apply runEffects_translating, runEffects_translating, handle_translating.
Qed.

(** X9. The translating flag, unlike the speaking flag, cannot stay set
    with nothing in flight: in every reachable state in which
    [isTranslating] is true a translation request is outstanding (every
    path of [translateText] that has set the flag either clears it or
    leaves a request whose completion clears it). *)
Theorem X9_translating_flag_is_never_left_set
    (ls : gmap string string) (es : list Event) :
  isTranslating (run (init ls) es) = true →
  translations (run (init ls) es) ≠ [].
Proof.
  change (translating_ok (run (init ls) es)).
  assert (translating_ok (init ls)) as H0 by done.
  revert H0. generalize (init ls). unfold run.
  induction es as [|e es IH]; intros s Hs; simpl; [done|].
  by apply IH, step_translating.
Qed.

Lemma X9_translating_flag_is_never_left_set_witness :
  isTranslating
    (run (init allKeys)
       [EToggleClick; EStartResume 0 true; EFragment (lit "Hello")]) = true
  ∧ translations
      (run (init allKeys)
         [EToggleClick; EStartResume 0 true; EFragment (lit "Hello")]) ≠ [].
Proof.
  split; [by vm_compute|].
  apply (X9_translating_flag_is_never_left_set allKeys
           [EToggleClick; EStartResume 0 true; EFragment (lit "Hello")]).
  by vm_compute.
Defined.

(** ** The settings dialog *)

Lemma getKey_nonEmpty k s : getKey k s = from_option nonEmpty None (localStorage s !! k).
Proof. unfold getKey. destruct (localStorage s !! k) as [[|]|]; done. Qed.

Lemma nonEmpty_getKey k s : nonEmpty (default ""%string (getKey k s)) = getKey k s.
Proof.
  rewrite getKey_nonEmpty. destruct (localStorage s !! k) as [[|]|]; done.
Qed.

Lemma getKey_handleSave f s :
  let s' := handleSave f s in
  getKey "gladia_api_key" s' = nonEmpty (gladiaKey f)
  ∧ getKey "azure_api_key" s' = nonEmpty (azureKey f)
  ∧ getKey "azure_region" s' = nonEmpty (azureRegion f)
  ∧ getKey "elevenlabs_api_key" s' = nonEmpty (elevenlabsKey f)
  ∧ getKey "llm_provider" s' = nonEmpty (llmProvider f)
  ∧ getKey "llm_api_key" s' = nonEmpty (llmKey f).
Proof.
  cbv zeta. rewrite !getKey_nonEmpty. unfold handleSave. simpl.
  repeat split;
    repeat (rewrite lookup_insert_ne by done); by rewrite lookup_insert_eq.
Qed.

Lemma default_nonEmpty v : default ""%string (nonEmpty v) = v.
Proof. by destruct v. Qed.

(** X10. What the settings dialog saves it reads back: after the Save
    click the form is loaded with the same six values, except that an
    empty region is shown as "eastus" and an empty provider as "openai".
    The click also closes the dialog, and the page it re-renders shows the
    toggle enabled exactly when the three keys just saved are all
    non-empty, whatever was stored before. *)
Theorem X10_settings_are_read_back_as_saved (f : Settings) (s : State) :
  let s' := step s (ESaveSettings f) in
  loadSettings s'
  = {| gladiaKey := gladiaKey f;
       azureKey := azureKey f;
       azureRegion := default "eastus"%string (nonEmpty (azureRegion f));
       elevenlabsKey := elevenlabsKey f;
       llmProvider := default "openai"%string (nonEmpty (llmProvider f));
       llmKey := llmKey f |}
  ∧ isSettingsOpen s' = false
  ∧ (hasApiKeys s' = true
     ↔ gladiaKey f ≠ ""%string ∧ azureKey f ≠ ""%string
       ∧ elevenlabsKey f ≠ ""%string).
Proof.
  cbv zeta.
  assert (step s (ESaveSettings f) = handleSave f s) as ->.
  { unfold step. by apply settle_id. }
  destruct (getKey_handleSave f s) as (H1 & H2 & H3 & H4 & H5 & H6).
  split; [|split; [done|]].
  - unfold loadSettings. rewrite H1, H2, H3, H4, H5, H6.
    by rewrite !default_nonEmpty.
  - unfold hasApiKeys. rewrite H1, H2, H4.
    rewrite !andb_true_iff, !bool_decide_eq_true.
    assert (∀ v, is_Some (nonEmpty v) ↔ v ≠ ""%string) as Hn.
    { intros [|a v]; simpl; split; try done;
        first [by intros [? ?]|by eexists]. }
    rewrite !Hn. tauto.
Qed.

(** X10 on a browser with nothing stored: the banner is shown while the
    dialog is open; the three keys are saved with the region and the
    provider left empty; the dialog is closed, the toggle is enabled, and
    the form would next show the region "eastus". *)
Lemma X10_settings_are_read_back_as_saved_witness :
  let f :=
    {| gladiaKey := "g"; azureKey := "a"; azureRegion := "";
       elevenlabsKey := "e"; llmProvider := ""; llmKey := "" |}%string in
  let s := step (init ∅) ESettingsClick in
  let s' := step s (ESaveSettings f) in
  isSettingsOpen s = true
  ∧ hasApiKeys s = false
  ∧ isSettingsOpen s' = false
  ∧ hasApiKeys s' = true
  ∧ azureRegion (loadSettings s') = "eastus"%string.
Proof.
  intros f s s'.
  assert (isSettingsOpen s = true) as H1 by (vm_compute; reflexivity).
  assert (hasApiKeys s = false) as H2 by (vm_compute; reflexivity).
  assert (gladiaKey f ≠ ""%string ∧ azureKey f ≠ ""%string
          ∧ elevenlabsKey f ≠ ""%string) as H3
    by (split; [|split]; vm_compute; discriminate).
  pose proof (X10_settings_are_read_back_as_saved f s) as (R1 & R2 & R3).
  split; [exact H1|]. split; [exact H2|]. split; [exact R2|].
  split; [exact (proj2 R3 H3)|].
  exact (f_equal azureRegion R1).
Defined.

(** X11. The dialog and the translation client disagree on the default
    region. With an Azure key and no stored region, [translateText] sends
    its request for "central india"; after the dialog is opened and saved
    unedited (which keeps every key, so [hasApiKeys] is unchanged) the
    same call sends it for "eastus", the fallback the form was loaded
    with. *)
Theorem X11_unedited_save_changes_the_region
    (s : State) (text : jsstring) (sl tl key : string) :
  getKey "azure_api_key" s = Some key →
  getKey "azure_region" s = None →
  ¬ blank text →
  let s' := handleSave (loadSettings s) s in
  hasApiKeys s' = hasApiKeys s
  ∧ getKey "azure_api_key" s' = Some key
  ∧ network (translateText text sl tl s).1
    = network s
      ++ [TranslateRequest
            (if String.eqb sl "Auto-Detect" then None else Some sl)
            tl key "central india" text]
  ∧ network (translateText text sl tl s').1
    = network s
      ++ [TranslateRequest
            (if String.eqb sl "Auto-Detect" then None else Some sl)
            tl key "eastus" text].
Proof.
  intros Hkey Hreg Hb s'.
  destruct (getKey_handleSave (loadSettings s) s) as (H1 & H2 & H3 & H4 & _).
  fold s' in H1, H2, H3, H4. unfold loadSettings in H1, H2, H3, H4.
  simpl in H1, H2, H3, H4. rewrite nonEmpty_getKey in H1, H2, H4.
  rewrite Hreg in H3. simpl in H3.
  split; [unfold hasApiKeys; by rewrite H1, H2, H4|].
  split; [by rewrite H2|].
  unfold translateText. rewrite (not_blank_trim text Hb). simpl.
  change (getKey "azure_api_key" (set_translationError None (set_isTranslating true s)))
    with (getKey "azure_api_key" s).
  change (getKey "azure_api_key" (set_translationError None (set_isTranslating true s')))
    with (getKey "azure_api_key" s').
  change (getKey "azure_region" (set_translationError None (set_isTranslating true s)))
    with (getKey "azure_region" s).
  change (getKey "azure_region" (set_translationError None (set_isTranslating true s')))
    with (getKey "azure_region" s').
  by rewrite H2, H3, Hkey, Hreg.
Qed.

Lemma X11_unedited_save_changes_the_region_witness :
  let s := init allKeys in
  let s' := handleSave (loadSettings s) s in
  hasApiKeys s' = hasApiKeys s
  ∧ network (translateText (lit "Hello") "Auto-Detect" "es" s).1
    = [TranslateRequest None "es" "a" "central india" (lit "Hello")]
  ∧ network (translateText (lit "Hello") "Auto-Detect" "es" s').1
    = [TranslateRequest None "es" "a" "eastus" (lit "Hello")].
Proof.
  intros s s'.
  assert (getKey "azure_api_key" s = Some "a"%string) as H1 by (by vm_compute).
  assert (getKey "azure_region" s = None) as H2 by (by vm_compute).
  assert (¬ blank (lit "Hello")) as H3.
  { intros H. apply trim_blank in H. by vm_compute in H. }
  pose proof (X11_unedited_save_changes_the_region s (lit "Hello")
                "Auto-Detect" "es" "a" H1 H2 H3) as (R1 & _ & R3 & R4).
  split; [exact R1|]. split; [exact R3|exact R4].
Defined.

(** ** Voices *)

(** X12. Every language the selector offers is spoken with its own
    entry of [VOICE_MAPPING] or, when it has none, with the default voice
    (the one of "en"); eighteen of the thirty have none. The default is
    also what any other name gets that is no member of
    [Object.prototype]. Such a member's name, "toString" for one, has no
    entry either, yet the lookup finds the member and the endpoint is
    built from its text, which is no voice of the table. The result is
    never empty. *)
Theorem X12_unmapped_languages_get_the_default_voice :
  Forall (λ lang, voiceFor lang.1
                  = default "9BWtsMINqrJLrRacOk9x"%string
                      (VOICE_MAPPING !! lang.1)) LANGUAGES
  ∧ (filter (λ lang, VOICE_MAPPING !! lang.1 = None) LANGUAGES).*1
    = ["nl"; "pl"; "tr"; "sv"; "da"; "no"; "fi"; "cs"; "hu"; "ro"; "uk";
       "bg"; "hr"; "sk"; "sl"; "et"; "lv"; "lt"]%string
  ∧ (∀ language : string,
       VOICE_MAPPING !! language = None →
       OBJECT_PROTOTYPE !! language = None →
       voiceFor language = "9BWtsMINqrJLrRacOk9x"%string)
  ∧ (∀ name member : string,
       OBJECT_PROTOTYPE !! name = Some member →
       VOICE_MAPPING !! name = None
       ∧ voiceFor name = member
       ∧ member ∉ (map_to_list VOICE_MAPPING).*2)
  ∧ voiceFor "toString" = "function toString() { [native code] }"%string
  ∧ (∀ language : string, voiceFor language ≠ ""%string).
Proof.
  assert (map_Forall (λ _ v, v ≠ ""%string) VOICE_MAPPING) as HV.
  { apply map_Forall_to_list. vm_compute. repeat constructor; done. }
  assert (map_Forall (λ name member,
            VOICE_MAPPING !! name = None
            ∧ voiceFor name = member
            ∧ member ≠ ""%string
            ∧ member ∉ (map_to_list VOICE_MAPPING).*2) OBJECT_PROTOTYPE) as HP.
  { apply map_Forall_to_list.
    remember (map_to_list OBJECT_PROTOTYPE) as l eqn:El.
    vm_compute in El. subst l.
    repeat constructor; try (by vm_compute);
      eapply (bool_decide_unpack _); by vm_compute. }
  split_and!.
  - vm_compute. repeat constructor.
  - by vm_compute.
  - intros language H1 H2. unfold voiceFor, getVoice. by rewrite H1, H2.
  - intros name member H. destruct (HP name member H) as (? & ? & _ & ?).
    done.
  - by vm_compute.
  - intros language. unfold voiceFor, getVoice. cbv zeta.
    destruct (VOICE_MAPPING !! language) as [v|] eqn:E.
    + case_decide; [by vm_compute|done].
    + destruct (OBJECT_PROTOTYPE !! language) as [v|] eqn:E'; [|by vm_compute].
      case_decide; [by vm_compute|done].
Qed.

(** * The audio hook *)

(** ** Samples *)

Lemma quot_unit (d : positive) (k : Z) :
  ((Z.pos d * k) ÷ Z.pos d = k ∧ (- Z.pos d * k) ÷ Z.pos d = - k)%Z.
Proof.
  split.
  - by rewrite (Z.mul_comm (Z.pos d)), Z.quot_mul.
  - replace (- Z.pos d * k)%Z with (- k * Z.pos d)%Z by lia.
    by rewrite Z.quot_mul.
Qed.

Lemma clamp_cases (x : JsNumber) :
  let s := Math_max (ofInt (-1)) (Math_min (ofInt 1) x) in
  (x = NaN ∧ s = NaN)
  ∨ (∃ n d, s = Finite n d ∧ (- Z.pos d ≤ n ≤ Z.pos d)%Z
       ∧ (∀ n' d' k, x = Finite n' d' → (- Z.pos d' ≤ n' ≤ Z.pos d')%Z →
            ((n * k) ÷ Z.pos d = (n' * k) ÷ Z.pos d')%Z
            ∧ ((n <? 0) = (n' <? 0))%Z)
       ∧ (JsNumber_leb (ofInt 1) x = true →
          (n <? 0)%Z = false ∧ ∀ k, ((n * k) ÷ Z.pos d = k)%Z)
       ∧ (JsNumber_leb x (ofInt (-1)) = true →
          (n <? 0)%Z = true ∧ ∀ k, ((n * k) ÷ Z.pos d = - k)%Z)).
Proof.
  destruct x as [| |n d|]; cbn.
  - by left.
  - right. exists (-1)%Z, 1%positive. split_and!; try done; try lia.
    intros _. split; [done|]. intros k. rewrite Z.quot_1_r. lia.
  - right. unfold Math_min, Math_max, ofInt, JsNumber_leb.
    destruct (Z.leb_spec (1 * Z.pos d) (n * 1)) as [H1|H1].
    + simpl. exists 1%Z, 1%positive. split_and!; try done; try lia.
      * intros n' d' k [= -> ->] ?.
        assert (n' = Z.pos d') as -> by lia.
        split; [|done].
        rewrite Z.quot_1_r, (proj1 (quot_unit d' k)). lia.
      * intros _. split; [done|]. intros k. rewrite Z.quot_1_r. lia.
    + destruct (Z.leb_spec (-1 * Z.pos d) (n * 1)) as [H2|H2].
      * exists n, d. split_and!; try done; try lia.
        -- by intros n' d' k [= -> ->] ?.
        -- intros H%Z.leb_le. assert (n = - Z.pos d)%Z as -> by lia.
           split; [done|]. intros k. apply quot_unit.
      * exists (-1)%Z, 1%positive. split_and!; try done; try lia.
        -- intros n' d' k [= -> ->] ?. exfalso. lia.
        -- intros _. split; [done|]. intros k. rewrite Z.quot_1_r. lia.
  - right. exists 1%Z, 1%positive. split_and!; try done; try lia.
    intros _. split; [done|]. intros k. rewrite Z.quot_1_r. lia.
Qed.

Lemma quot_bound (n : Z) (d : positive) (k : Z) :
  (0 ≤ k)%Z → (- Z.pos d ≤ n ≤ Z.pos d)%Z →
  (- k ≤ (n * k) ÷ Z.pos d ≤ k)%Z.
Proof.
  intros Hk [Hl Hu]. split.
  - rewrite <- (Z.quot_mul (- k) (Z.pos d)) by lia.
    apply Z.quot_le_mono; [lia|nia].
  - rewrite <- (Z.quot_mul k (Z.pos d)) at 2 by lia.
    apply Z.quot_le_mono; [lia|nia].
Qed.

Lemma int16_wrap (v : Z) :
  (-32768 ≤ v ≤ 32767)%Z →
  (if (32768 <=? v mod 65536)%Z then (v mod 65536 - 65536)%Z
   else (v mod 65536)%Z) = v.
Proof.
  intros Hv. destruct (Z.neg_nonneg_cases v) as [Hn|Hp].
  - assert (v mod 65536 = v + 65536)%Z as ->.
    { rewrite <- (Z_mod_plus_full v 1 65536). apply Z.mod_small. lia. }
    destruct (Z.leb_spec 32768 (v + 65536)); lia.
  - rewrite Z.mod_small by lia. destruct (Z.leb_spec 32768 v); lia.
Qed.

Lemma ToInt16_scaled (n : Z) (d : positive) (k : Z) :
  (0 ≤ k ≤ 32767)%Z → (- Z.pos d ≤ n ≤ Z.pos d)%Z →
  ToInt16 (JsNumber_mul (Finite n d) (ofInt k)) = ((n * k) ÷ Z.pos d)%Z.
Proof.
  intros Hk Hn. unfold JsNumber_mul, ofInt, ToInt16. cbv zeta.
  rewrite Pos.mul_1_r. apply int16_wrap.
  pose proof (quot_bound n d k (proj1 Hk) Hn). lia.
Qed.

Lemma int16Sample_range (x : JsNumber) : (-32767 ≤ int16Sample x ≤ 32767)%Z.
Proof.
  unfold int16Sample.
  destruct (clamp_cases x) as [[-> ->]|(n & d & -> & Hn & _)]; [done|].
  rewrite (ToInt16_scaled n d 32767) by (done || lia).
  pose proof (quot_bound n d 32767 ltac:(lia) Hn). lia.
Qed.

(** X14. The conversion of the hook never overflows the 16-bit store:
    every sample, NaN and the infinities included, is converted to an
    integer between -32767 and 32767. NaN gives 0, a sample of at least 1
    gives 32767, one of at most -1 gives -32767 (never -32768), and a
    sample in between is scaled by 32767 and truncated toward zero. *)
Theorem X14_int16_samples_stay_in_range (x : JsNumber) :
  (-32767 ≤ int16Sample x ≤ 32767)%Z
  ∧ int16Sample NaN = 0%Z
  ∧ (∀ n d, x = Finite n d → (- Z.pos d ≤ n ≤ Z.pos d)%Z →
       int16Sample x = ((n * 32767) ÷ Z.pos d)%Z)
  ∧ (JsNumber_leb (ofInt 1) x = true → int16Sample x = 32767%Z)
  ∧ (JsNumber_leb x (ofInt (-1)) = true → int16Sample x = (-32767)%Z).
Proof.
  split; [apply int16Sample_range|]. split; [done|].
  unfold int16Sample.
  destruct (clamp_cases x) as [[-> ->]|(n & d & -> & Hn & Hin & Hhi & Hlo)].
  { split_and!; done. }
  rewrite (ToInt16_scaled n d 32767) by (done || lia).
  split; [|split].
  - intros n' d' E Hr. by destruct (Hin n' d' 32767%Z E Hr) as [-> _].
  - intros H. by destruct (Hhi H) as [_ ->].
  - intros H. by destruct (Hlo H) as [_ ->].
Qed.

(** X15. The worklet version scales negative samples by 32768 and the
    others by 32767: its results lie between -32768 and 32767, a sample of
    at most -1 gives -32768 (where the hook gives -32767), NaN gives 0, and
    the 16-bit store never wraps. *)
Theorem X15_worklet_samples_stay_in_range (x : JsNumber) :
  (-32768 ≤ workletSample x ≤ 32767)%Z
  ∧ workletSample NaN = 0%Z
  ∧ (∀ n d, x = Finite n d → (- Z.pos d ≤ n ≤ Z.pos d)%Z →
       workletSample x
       = if (n <? 0)%Z then ((n * 32768) ÷ Z.pos d)%Z
         else ((n * 32767) ÷ Z.pos d)%Z)
  ∧ (JsNumber_leb (ofInt 1) x = true → workletSample x = 32767%Z)
  ∧ (JsNumber_leb x (ofInt (-1)) = true → workletSample x = (-32768)%Z).
Proof.
  unfold workletSample. cbv zeta.
  destruct (clamp_cases x) as [[-> ->]|(n & d & -> & Hn & Hin & Hhi & Hlo)].
  { split_and!; done. }
  assert (JsNumber_ltb (Finite n d) (ofInt 0) = (n <? 0)%Z) as ->.
  { unfold JsNumber_ltb, ofInt. f_equal; lia. }
  assert ((n * 32768) ÷ Z.pos d ≤ 0 ∨ 0 ≤ n)%Z as Hsign.
  { destruct (Z.neg_nonneg_cases n); [left|by right].
    apply Z.quot_le_upper_bound; lia. }
  pose proof (quot_bound n d 32768 ltac:(lia) Hn) as Hb8.
  pose proof (quot_bound n d 32767 ltac:(lia) Hn) as Hb7.
  assert (ToInt16 (if (n <? 0)%Z then JsNumber_mul (Finite n d) (ofInt 32768)
                   else JsNumber_mul (Finite n d) (ofInt 32767))
          = if (n <? 0)%Z then ((n * 32768) ÷ Z.pos d)%Z
            else ((n * 32767) ÷ Z.pos d)%Z) as ->.
  { destruct (Z.ltb_spec n 0) as [Hneg|Hpos].
    - unfold JsNumber_mul, ofInt, ToInt16. cbv zeta.
      rewrite Pos.mul_1_r. apply int16_wrap. lia.
    - apply ToInt16_scaled; [lia|done]. }
  split; [destruct (Z.ltb_spec n 0); lia|].
  split; [done|]. split; [|split].
  - intros n' d' E Hr.
    destruct (Hin n' d' 32768%Z E Hr) as [-> <-].
    by destruct (Hin n' d' 32767%Z E Hr) as [-> _].
  - intros H. destruct (Hhi H) as [-> HH]. apply HH.
  - intros H. destruct (Hlo H) as [-> HH]. apply HH.
Qed.

Lemma int16Bytes_spec (v : Z) :
  (-32768 ≤ v ≤ 32767)%Z →
  ∃ lo hi, int16Bytes v = [lo; hi] ∧ lo < 256 ∧ hi < 256
           ∧ ∀ rest, readInt16LE (lo :: hi :: rest) = v :: readInt16LE rest.
Proof.
  intros Hv. unfold int16Bytes. cbv zeta.
  set (u := (v mod 65536)%Z).
  assert (0 ≤ u < 65536)%Z as Hu by (apply Z.mod_pos_bound; lia).
  exists (Z.to_N (u mod 256)), (Z.to_N (u / 256)).
  pose proof (Z.mod_pos_bound u 256 ltac:(lia)) as Hlo.
  assert (0 ≤ u / 256 < 256)%Z as Hhi.
  { split; [apply Z.div_pos; lia|apply Z.div_lt_upper_bound; lia]. }
  split; [done|]. split; [lia|]. split; [lia|].
  intros rest. cbn [readInt16LE]. f_equal.
  rewrite !Z2N.id by lia.
  assert (u mod 256 + 256 * (u / 256) = u)%Z as ->.
  { pose proof (Z.div_mod u 256 ltac:(lia)). lia. }
  by apply int16_wrap.
Qed.

(** X16. The binary string handed to [btoa] has two code units for every
    sample, each below 256 (so [btoa] has no character to reject), and
    holds the samples without loss: read back as 16-bit little-endian
    integers it gives the converted samples again. *)
Theorem X16_binary_string_holds_the_samples (pcmData : list JsNumber) :
  let bytes := binaryString (uint8Array (int16Array pcmData)) in
  length bytes = (2 * length pcmData)%nat
  ∧ Forall (λ c, c < 256) bytes
  ∧ readInt16LE bytes = int16Array pcmData.
Proof.
  unfold binaryString, uint8Array, int16Array. cbv zeta.
  induction pcmData as [|x l (IH1 & IH2 & IH3)]; [by repeat split|].
  rewrite fmap_cons, bind_cons.
  pose proof (int16Sample_range x) as Hr.
  destruct (int16Bytes_spec (int16Sample x)) as (lo & hi & -> & Hlo & Hhi & Hrd);
    [lia|].
  split; [|split].
  - rewrite length_app, IH1. simpl. lia.
  - apply Forall_app. split; [by repeat constructor|done].
  - change ([lo; hi] ++ ?r) with (lo :: hi :: r). by rewrite Hrd, IH3.
Qed.
(** ** The state machine of the hook *)

Ltac unfold_hook :=
  unfold hookStep, startRecording, startRecording_try, stopRecording,
    stopRecording_try, socketEvent, bind, ret, await, update, read.

Ltac hook_crush :=
  unfold_hook; repeat (simpl; case_match); simplify_eq/=; try done.

(** What the message handler leaves alone. *)
Lemma onmessage_frame ToString data h :
  let h' := onmessage ToString data h in
  isConnected h' = isConnected h
  ∧ mediaRecorderRef h' = mediaRecorderRef h
  ∧ wsRef h' = wsRef h
  ∧ streamRef h' = streamRef h
  ∧ sessionIdRef h' = sessionIdRef h
  ∧ audioContextRef h' = audioContextRef h
  ∧ contexts h' = contexts h
  ∧ streams h' = streams h
  ∧ sockets h' = sockets h
  ∧ recorders h' = recorders h
  ∧ sent h' = sent h.
Proof. unfold onmessage. repeat case_match; done. Qed.

Local Arguments onmessage : simpl never.

(** What [startRecording] does to the streams. *)
Lemma startRecording_streams s env h :
  let h' := (startRecording s env h).1 in
  (streams h' = streams h ∧ streamRef h' = streamRef h)
  ∨ (streams h' = streams h ++ [true]
     ∧ streamRef h' = Some (length (streams h))).
Proof. hook_crush; auto. Qed.

Lemma startRecording_mic s env h key :
  getKey "gladia_api_key" s = Some key → micGranted env →
  let h' := (startRecording s env h).1 in
  streams h' = streams h ++ [true]
  ∧ streamRef h' = Some (length (streams h)).
Proof.
  intros Hkey ((state & Hc) & Hr & Hm). unfold_hook.
  rewrite Hkey, Hc, Hr, Hm. repeat (simpl; case_match); simplify_eq/=; done.
Qed.

(** [stopRecording], field by field. The call runs to its end unless
    there is a context to close and closing it fails. *)
Lemma stopRecording_fields close h :
  let h' := stopRecording close h in
  let completes :=
    match audioContextRef h, close with
    | Some _, Rejected _ => false
    | _, _ => true
    end in
  streamRef h' = None
  ∧ streams h'
    = match streamRef h with
      | Some i => <[i := false]> (streams h)
      | None => streams h
      end
  ∧ recorders h'
    = match mediaRecorderRef h with
      | Some r =>
          match recorders h !! r with
          | Some Recording => <[r := Inactive]> (recorders h)
          | _ => recorders h
          end
      | None => recorders h
      end
  ∧ delivered h' = delivered h
  ∧ transcription h' = transcription h
  ∧ (if completes then
       audioContextRef h' = None ∧ wsRef h' = None
       ∧ mediaRecorderRef h' = None ∧ sessionIdRef h' = None
       ∧ isConnected h' = false ∧ error h' = error h
       ∧ contexts h'
         = match audioContextRef h with
           | Some c => <[c := Closed]> (contexts h)
           | None => contexts h
           end
       ∧ sockets h'
         = match wsRef h with
           | Some w =>
               match sockets h !! w with
               | Some OPEN => <[w := CLOSING]> (sockets h)
               | _ => sockets h
               end
           | None => sockets h
           end
       ∧ sent h'
         = match wsRef h with
           | Some w =>
               match sockets h !! w with
               | Some OPEN => sent h ++ [(w, StopRecording)]
               | _ => sent h
               end
           | None => sent h
           end
     else
       audioContextRef h' = audioContextRef h ∧ wsRef h' = wsRef h
       ∧ mediaRecorderRef h' = mediaRecorderRef h
       ∧ sessionIdRef h' = sessionIdRef h
       ∧ isConnected h' = isConnected h
       ∧ (∃ message, close = Rejected message
            ∧ error h'
              = Some (default (lit "Failed to stop recording") message))
       ∧ contexts h' = contexts h ∧ sockets h' = sockets h
       ∧ sent h' = sent h).
Proof.
  destruct h as [ic tr er mr ws sr sid ac cs ss so rs se de].
  cbv zeta. unfold_hook. cbn.
  destruct mr as [r|]; cbn; [destruct (rs !! r) as [[|]|]; cbn|];
    destruct sr as [i|]; cbn; destruct ac as [c|]; cbn;
    destruct close as [[]|message]; cbn;
    (destruct ws as [w|]; cbn; [destruct (so !! w) as [[| | |]|]; cbn|]);
    split_and!; try reflexivity; by eexists.
Qed.

Lemma stopRecording_streams close h :
  let h' := stopRecording close h in
  streamRef h' = None
  ∧ streams h'
    = match streamRef h with
      | Some i => <[i := false]> (streams h)
      | None => streams h
      end.
Proof. by destruct (stopRecording_fields close h) as (? & ? & _). Qed.

Lemma socketEvent_streams ToString w e h :
  let h' := socketEvent ToString w e h in
  streams h' = streams h ∧ streamRef h' = streamRef h.
Proof.
  unfold socketEvent. cbv zeta.
  destruct (onmessage_frame ToString
              (match e with OnMessage data => data | _ => None end) h)
    as (_ & _ & _ & Hr & _ & _ & _ & Hs & _).
  repeat case_match; simplify_eq/=; done.
Qed.

(** A live stream that the ref does not hold is never stopped. *)
Lemma hookStep_orphan ToString h op i :
  streams h !! i = Some true → streamRef h ≠ Some i →
  streams (hookStep ToString h op) !! i = Some true
  ∧ streamRef (hookStep ToString h op) ≠ Some i.
Proof.
  intros Hlive Href.
  pose proof (lookup_lt_Some _ _ _ Hlive) as Hlt.
  destruct op as [s env|close|w e]; unfold hookStep.
  - destruct (startRecording_streams s env h) as [[-> ->]|[-> ->]]; [done|].
    split; [by apply lookup_app_l_Some|]. intros [= E]. lia.
  - destruct (stopRecording_streams close h) as [-> ->]. split; [|done].
    destruct (streamRef h) as [j|]; [|done].
    rewrite list_lookup_insert_ne; [done|]. by intros ->.
  - by destruct (socketEvent_streams ToString w e h) as [-> ->].
Qed.

Lemma hookRun_orphan ToString h ops i :
  streams h !! i = Some true → streamRef h ≠ Some i →
  streams (hookRun ToString h ops) !! i = Some true.
Proof.
  unfold hookRun. revert h. induction ops as [|op ops IH]; intros h H1 H2; [done|].
  simpl. destruct (hookStep_orphan ToString h op i H1 H2). by apply IH.
Qed.

Lemma startRecording_fails s env h key :
  getKey "gladia_api_key" s = Some key → micGranted env → failsAfterMic env →
  (startRecording s env h).2 = false.
Proof.
  intros Hkey ((state & Hc) & Hr & Hm) Hf. unfold_hook.
  rewrite Hkey, Hc, Hr, Hm.
  destruct Hf as [[m E]|[[m E]|[[m E]|[m E]]]]; rewrite E;
    repeat (simpl; case_match); simplify_eq/=; done.
Qed.

(** X19. A start that fails after the microphone was granted leaves the
    microphone on: with the key configured and [getUserMedia] fulfilled, a
    failure of the session request, of the socket or of the recorder makes
    [startRecording] return false with the stream it obtained live and
    held by [streamRef]; nothing in the [catch] block stops it. The page
    stays in the not-recording state, so its next call is a start; once
    that start obtains a stream of its own the ref is overwritten, and the
    first stream stays live through every later call of [startRecording]
    and [stopRecording] and every socket event. *)
Theorem X19_failed_start_leaves_the_microphone_on
    (ToString : JSON → jsstring) (s s2 : State) (env env2 : StartRun)
    (h : Hook) (key key2 : string) :
  getKey "gladia_api_key" s = Some key →
  micGranted env →
  failsAfterMic env →
  let h1 := (startRecording s env h).1 in
  let n := length (streams h) in
  (startRecording s env h).2 = false
  ∧ streams h1 !! n = Some true
  ∧ streamRef h1 = Some n
  ∧ (getKey "gladia_api_key" s2 = Some key2 → micGranted env2 →
     ∀ ops : list HookOp,
       streams (hookRun ToString (startRecording s2 env2 h1).1 ops) !! n
       = Some true).
Proof.
  intros Hkey Hmic Hfail h1 n.
  split; [by apply (startRecording_fails s env h key)|].
  destruct (startRecording_mic s env h key Hkey Hmic) as [Hs Hr].
  fold h1 in Hs, Hr.
  assert (streams h1 !! n = Some true) as Hlive.
  { rewrite Hs. by apply list_lookup_middle. }
  split; [done|]. split; [done|].
  intros Hkey2 Hmic2 ops.
  destruct (startRecording_mic s2 env2 h1 key2 Hkey2 Hmic2) as [Hs2 Hr2].
  apply hookRun_orphan.
  - rewrite Hs2. by apply lookup_app_l_Some.
  - rewrite Hr2, Hs, length_app. simpl. intros [= E]. subst n. lia.
Qed.

Lemma X19_failed_start_leaves_the_microphone_on_witness :
  let h1 := (startRecording (init allKeys) refused initHook).1 in
  (startRecording (init allKeys) refused initHook).2 = false
  ∧ streams h1 !! 0%nat = Some true
  ∧ streams
      (hookRun stringOnly (startRecording (init allKeys) (granted Running) h1).1
         [Stop (Fulfilled ()); Start (init allKeys) (granted Running);
          Stop (Fulfilled ())]) !! 0%nat
    = Some true.
Proof.
  intros h1.
  assert (getKey "gladia_api_key" (init allKeys) = Some "g"%string) as Hkey
    by (by vm_compute).
  assert (micGranted refused) as Hmic.
  { split; [by exists Running|done]. }
  assert (failsAfterMic refused) as Hfail.
  { left. by eexists. }
  assert (micGranted (granted Running)) as Hmic2.
  { split; [by exists Running|done]. }
  pose proof (X19_failed_start_leaves_the_microphone_on stringOnly
                (init allKeys) (init allKeys) refused (granted Running)
                initHook "g" "g" Hkey Hmic Hfail) as (R1 & R2 & _ & R4).
  split; [exact R1|]. split; [exact R2|].
  exact (R4 Hkey Hmic2
           [Stop (Fulfilled ()); Start (init allKeys) (granted Running);
            Stop (Fulfilled ())]).
Defined.

(** *** The refs point into the tables *)

Ltac refs_ok_tac :=
  match goal with
  | H : refs_ok _ |- _ => destruct H as (?H1 & ?H2 & ?H3 & ?H4)
  end;
  unfold refs_ok; simpl in *;
  split_and!; intros ? ?; simplify_eq;
  simpl; rewrite ?length_insert, ?length_app; simpl;
  try lia;
  repeat match goal with
         | H : ∀ i, ?r = Some i → _, E : ?r = Some _ |- _ =>
             pose proof (H _ E); clear H
         end;
  try lia.

Lemma startRecording_refs s env h :
  refs_ok h → refs_ok (startRecording s env h).1.
Proof.
  intros Hok. unfold_hook.
  repeat (simpl; case_match); simplify_eq/=; refs_ok_tac.
Qed.

Lemma stopRecording_refs close h : refs_ok h → refs_ok (stopRecording close h).
Proof.
  intros (H1 & H2 & H3 & H4).
  destruct (stopRecording_fields close h) as (F1 & F2 & F3 & _ & _ & F).
  unfold refs_ok. rewrite F1, F2, F3. clear F1 F2 F3.
  destruct (match audioContextRef h with Some _ => _ | None => _ end).
  - destruct F as (-> & -> & -> & _ & _ & _ & -> & -> & _).
    by split_and!.
  - destruct F as (-> & -> & -> & _ & _ & _ & -> & -> & _).
    split_and!; [done|done| |done].
    intros r Hr. specialize (H3 r Hr). rewrite Hr.
    by repeat case_match; rewrite ?length_insert.
Qed.

Lemma socketEvent_refs ToString w e h :
  refs_ok h → refs_ok (socketEvent ToString w e h).
Proof.
  intros Hok. unfold socketEvent.
  destruct (sockets h !! w) as [[| | |]|], e as [|data| |]; try done;
    try (solve [refs_ok_tac]).
  destruct (onmessage_frame ToString data h)
    as (_ & E1 & E2 & E3 & _ & E4 & E5 & E6 & E7 & E8 & _).
  destruct Hok as (H1 & H2 & H3 & H4). unfold refs_ok.
  by rewrite E1, E2, E3, E4, E5, E6, E7, E8.
Qed.

Lemma hookRun_refs ToString ops : refs_ok (hookRun ToString initHook ops).
Proof.
  assert (refs_ok initHook) as H0 by (by split_and!).
  revert H0. generalize initHook. unfold hookRun.
  induction ops as [|op ops IH]; intros h Hok; [done|]. simpl. apply IH.
  destruct op as [s env|close|w e]; unfold hookStep.
  - by apply startRecording_refs.
  - by apply stopRecording_refs.
  - by apply socketEvent_refs.
Qed.

(** What a stop that runs to its end leaves behind. *)
Lemma stopRecording_releases h :
  refs_ok h →
  let h' := stopRecording (Fulfilled ()) h in
  (streamRef h' = None ∧ audioContextRef h' = None ∧ wsRef h' = None
   ∧ mediaRecorderRef h' = None ∧ sessionIdRef h' = None
   ∧ isConnected h' = false)
  ∧ (∀ i, streamRef h = Some i → streams h' !! i = Some false)
  ∧ (∀ r, mediaRecorderRef h = Some r → recorders h' !! r = Some Inactive)
  ∧ (∀ c, audioContextRef h = Some c → contexts h' !! c = Some Closed)
  ∧ (∀ w, wsRef h = Some w → sockets h !! w = Some OPEN →
       sockets h' !! w = Some CLOSING
       ∧ sent h' = sent h ++ [(w, StopRecording)])
  ∧ (∀ w, wsRef h = Some w → sockets h !! w ≠ Some OPEN →
       sockets h' = sockets h ∧ sent h' = sent h).
Proof.
  intros (H1 & H2 & H3 & H4).
  destruct (stopRecording_fields (Fulfilled ()) h)
    as (F1 & F2 & F3 & _ & _ & F).
  assert (match audioContextRef h, Fulfilled () with
          | Some _, Rejected _ => false
          | _, _ => true
          end = true) as E by (by destruct (audioContextRef h)).
  rewrite E in F. clear E.
  destruct F as (F4 & F5 & F6 & F7 & F8 & _ & F10 & F11 & F12).
  cbv zeta. rewrite F1, F2, F3, F4, F5, F6, F7, F8, F10, F11, F12.
  split_and!; try done.
  - intros i Hi. rewrite Hi. apply list_lookup_insert_eq. by apply H1.
  - intros r Hr. rewrite Hr. specialize (H3 r Hr).
    destruct (lookup_lt_is_Some_2 (recorders h) r H3) as [[|] E]; rewrite E.
    + done.
    + by apply list_lookup_insert_eq.
  - intros c Hc. rewrite Hc. apply list_lookup_insert_eq. by apply H4.
  - intros w Hw Ho. rewrite Hw, Ho. split; [|done].
    apply list_lookup_insert_eq. by apply H2.
  - intros w Hw Ho. rewrite Hw.
    destruct (sockets h !! w) as [[| | |]|]; done.
Qed.

Lemma stopRecording_idle close h :
  streamRef h = None → audioContextRef h = None → wsRef h = None →
  mediaRecorderRef h = None → sessionIdRef h = None → isConnected h = false →
  stopRecording close h = h.
Proof.
  destruct h. simpl. intros -> -> -> -> -> ->. reflexivity.
Qed.

(** X20. A stop that runs to its end releases what the hook holds, in
    every state the hook can reach: the four refs and the session id are
    cleared and [isConnected] is false; the stream the ref held is
    stopped, the recorder inactive, the audio context closed; a socket
    that was open has been sent the stop signal, as the last frame, and is
    closing, and a socket in any other state is left as it is; a second
    stop then changes nothing. *)
Theorem X20_stop_releases_what_the_hook_holds
    (ToString : JSON → jsstring) (ops : list HookOp) :
  let h := hookRun ToString initHook ops in
  let h' := stopRecording (Fulfilled ()) h in
  (streamRef h' = None ∧ audioContextRef h' = None ∧ wsRef h' = None
   ∧ mediaRecorderRef h' = None ∧ sessionIdRef h' = None
   ∧ isConnected h' = false)
  ∧ (∀ i, streamRef h = Some i → streams h' !! i = Some false)
  ∧ (∀ r, mediaRecorderRef h = Some r → recorders h' !! r = Some Inactive)
  ∧ (∀ c, audioContextRef h = Some c → contexts h' !! c = Some Closed)
  ∧ (∀ w, wsRef h = Some w → sockets h !! w = Some OPEN →
       sockets h' !! w = Some CLOSING
       ∧ sent h' = sent h ++ [(w, StopRecording)])
  ∧ (∀ w, wsRef h = Some w → sockets h !! w ≠ Some OPEN →
       sockets h' = sockets h ∧ sent h' = sent h)
  ∧ (∀ close, stopRecording close h' = h').
Proof.
  intros h h'.
  destruct (stopRecording_releases h (hookRun_refs ToString ops))
    as (R1 & R2 & R3 & R4 & R5 & R6).
  fold h' in R1, R2, R3, R4, R5, R6.
  split; [exact R1|]. split; [exact R2|]. split; [exact R3|].
  split; [exact R4|]. split; [exact R5|]. split; [exact R6|].
  intros close. destruct R1 as (? & ? & ? & ? & ? & ?).
  by apply stopRecording_idle.
Qed.

(** What a successful start sets up. *)
Lemma startRecording_succeeds s env h key :
  getKey "gladia_api_key" s = Some key → allFulfilled env →
  let h' := (startRecording s env h).1 in
  (startRecording s env h).2 = true
  ∧ error h' = None
  ∧ isConnected h' = isConnected h
  ∧ streams h' = streams h ++ [true]
  ∧ streamRef h' = Some (length (streams h))
  ∧ sockets h' = sockets h ++ [CONNECTING]
  ∧ wsRef h' = Some (length (sockets h))
  ∧ recorders h' = recorders h ++ [Recording]
  ∧ mediaRecorderRef h' = Some (length (recorders h))
  ∧ sent h' = sent h
  ∧ delivered h' = delivered h.
Proof.
  intros Hkey ((state & Hc) & Hr & Hm & (id & Hs) & Hw & Hrec & Hst).
  unfold_hook. rewrite Hkey, Hc, Hr, Hm, Hs, Hw, Hrec, Hst.
  repeat (simpl; case_match); simplify_eq/=; split_and!; try done.
  all: by rewrite insert_app_r_alt, Nat.sub_diag by lia.
Qed.

(** X21. [startRecording] returns while the socket is still connecting,
    and a stop that comes before the socket opens does not close it: with
    the key configured and every call fulfilled, the start returns true
    with [isConnected] as it was and the new socket in the state
    CONNECTING; a stop in that state sends nothing, leaves the socket
    connecting and forgets it; when the socket then opens, its handler
    sets [isConnected] to true although recording has stopped, and a
    second stop neither closes the socket nor sends it the stop signal. *)
Theorem X21_stop_before_the_socket_opens_leaves_it_open
    (ToString : JSON → jsstring) (s : State) (env : StartRun) (h : Hook)
    (key : string) (close1 close2 : Outcome unit) :
  getKey "gladia_api_key" s = Some key →
  allFulfilled env →
  let h1 := (startRecording s env h).1 in
  let w := length (sockets h) in
  let h2 := stopRecording close1 h1 in
  let h3 := socketEvent ToString w OnOpen h2 in
  let h4 := stopRecording close2 h3 in
  (startRecording s env h).2 = true
  ∧ sockets h1 !! w = Some CONNECTING
  ∧ isConnected h1 = isConnected h
  ∧ sockets h2 !! w = Some CONNECTING
  ∧ sent h2 = sent h
  ∧ (close1 = Fulfilled () → wsRef h2 = None ∧ isConnected h2 = false
     ∧ isConnected h3 = true
     ∧ sockets h3 !! w = Some OPEN
     ∧ sockets h4 !! w = Some OPEN
     ∧ sent h4 = sent h).
Proof.
  intros Hkey Hall h1 w h2 h3 h4.
  destruct (startRecording_succeeds s env h key Hkey Hall)
    as (S1 & _ & S3 & _ & _ & S6 & S7 & _ & _ & S10 & _).
  fold h1 in S3, S6, S7, S10.
  assert (sockets h1 !! w = Some CONNECTING) as Hw.
  { rewrite S6. by apply list_lookup_middle. }
  assert (sockets h2 = sockets h1 ∧ sent h2 = sent h1
          ∧ (close1 = Fulfilled () → wsRef h2 = None ∧ isConnected h2 = false))
    as (E1 & E2 & E3).
  { subst h2. clear h3 h4. subst w. clearbody h1. unfold_hook.
    repeat (simpl; case_match); simplify_eq/=; try done; congruence. }
  split; [done|]. split; [done|]. split; [done|].
  split; [by rewrite E1|]. split; [by rewrite E2|].
  intros ->. destruct (E3 eq_refl) as [E4 E5]. split; [done|]. split; [done|].
  assert (h3 = set_isConnected true (set_sockets (<[w := OPEN]> (sockets h2)) h2))
    as E6.
  { subst h3. unfold socketEvent. by rewrite E1, Hw. }
  assert (sockets h3 !! w = Some OPEN) as Hopen.
  { rewrite E6. simpl. apply list_lookup_insert_eq.
    rewrite E1. by apply lookup_lt_Some in Hw. }
  split; [by rewrite E6|]. split; [done|].
  assert (wsRef h3 = None) as Hnone by (by rewrite E6).
  assert (sent h3 = sent h) as Hsent by (by rewrite E6; simpl; congruence).
  destruct (stopRecording_fields close2 h3) as (_ & _ & _ & _ & _ & F).
  fold h4 in F. rewrite Hnone in F.
  destruct (match audioContextRef h3 with Some _ => _ | None => _ end);
    by destruct F as (_ & _ & _ & _ & _ & _ & _ & -> & ->).
Qed.

Lemma X21_stop_before_the_socket_opens_leaves_it_open_witness :
  let s := init allKeys in
  let h1 := (startRecording s (granted Running) initHook).1 in
  let h2 := stopRecording (Fulfilled ()) h1 in
  let h3 := socketEvent stringOnly 0 OnOpen h2 in
  let h4 := stopRecording (Fulfilled ()) h3 in
  (startRecording s (granted Running) initHook).2 = true
  ∧ sockets h1 !! 0%nat = Some CONNECTING
  ∧ isConnected h2 = false
  ∧ isConnected h3 = true
  ∧ sockets h4 !! 0%nat = Some OPEN
  ∧ sent h4 = [].
Proof.
  intros s h1 h2 h3 h4.
  assert (getKey "gladia_api_key" s = Some "g"%string) as Hkey by (by vm_compute).
  assert (allFulfilled (granted Running)) as Hall.
  { split_and!; try done; by eexists. }
  pose proof (X21_stop_before_the_socket_opens_leaves_it_open stringOnly s
                (granted Running) initHook "g" (Fulfilled ()) (Fulfilled ())
                Hkey Hall) as (R1 & R2 & _ & _ & _ & R6).
  destruct (R6 eq_refl) as (_ & R7 & R8 & _ & R10 & R11).
  split; [exact R1|]. split; [exact R2|]. split; [exact R7|].
  split; [exact R8|]. split; [exact R10|exact R11].
Defined.

(** X22. When [audioContext.close()] rejects, [stopRecording] gives up
    half way: the recorder and the stream are stopped (the recorder the
    ref holds is inactive afterwards, every other recorder is as it was;
    the stream ref is cleared), but the context stays in its ref, the
    socket is neither sent the stop signal nor closed, its ref and the
    recorder's are kept, [isConnected] keeps its value, and the error
    reported is the message of the rejection, or "Failed to stop
    recording". *)
Theorem X22_failed_close_skips_the_stop_signal
    (h : Hook) (c : nat) (message : option jsstring) :
  audioContextRef h = Some c →
  let h' := stopRecording (Rejected message) h in
  error h' = Some (default (lit "Failed to stop recording") message)
  ∧ streamRef h' = None
  ∧ (∀ i, streamRef h = Some i → (i < length (streams h))%nat →
       streams h' !! i = Some false)
  ∧ audioContextRef h' = Some c
  ∧ contexts h' = contexts h
  ∧ wsRef h' = wsRef h
  ∧ sockets h' = sockets h
  ∧ sent h' = sent h
  ∧ mediaRecorderRef h' = mediaRecorderRef h
  ∧ isConnected h' = isConnected h
  ∧ (∀ r, mediaRecorderRef h = Some r → (r < length (recorders h))%nat →
       recorders h' !! r = Some Inactive)
  ∧ (∀ r, mediaRecorderRef h ≠ Some r →
       recorders h' !! r = recorders h !! r).
Proof.
  intros Hc h'.
  destruct (stopRecording_fields (Rejected message) h)
    as (F1 & F2 & F3 & _ & _ & F).
  fold h' in F1, F2, F3, F. rewrite Hc in F.
  destruct F as (F4 & F5 & F6 & _ & F8 & (m & [= <-] & F9) & F10 & F11 & F12).
  rewrite F1, F2, F3, F4, F5, F6, F8, F9, F10, F11, F12.
  split_and!; try done.
  - intros i Hi Hlt. rewrite Hi. by apply list_lookup_insert_eq.
  - intros r Hr Hlt. rewrite Hr.
    destruct (lookup_lt_is_Some_2 _ _ Hlt) as [[] E]; rewrite E; [done|].
    by apply list_lookup_insert_eq.
  - intros r Hr. destruct (mediaRecorderRef h) as [r'|]; [|done].
    destruct (recorders h !! r') as [[]|]; try done.
    apply list_lookup_insert_ne. congruence.
Qed.

Lemma X22_failed_close_skips_the_stop_signal_witness :
  let h :=
    hookRun stringOnly initHook
      [Start (init allKeys) (granted Running); Socket 0 OnOpen] in
  let h' := stopRecording (Rejected None) h in
  sockets h !! 0%nat = Some OPEN
  ∧ recorders h !! 0%nat = Some Recording
  ∧ error h' = Some (lit "Failed to stop recording")
  ∧ sockets h' = sockets h
  ∧ sent h' = sent h
  ∧ isConnected h' = true
  ∧ recorders h' !! 0%nat = Some Inactive.
Proof.
  intros h h'.
  assert (audioContextRef h = Some 0%nat) as Hc by (by vm_compute).
  assert (sockets h !! 0%nat = Some OPEN) as Ho by (by vm_compute).
  assert (recorders h !! 0%nat = Some Recording) as Hr by (by vm_compute).
  assert (isConnected h = true) as Hi by (by vm_compute).
  assert (mediaRecorderRef h = Some 0%nat) as Hm by (by vm_compute).
  assert (0 < length (recorders h))%nat as Hl by (vm_compute; lia).
  pose proof (X22_failed_close_skips_the_stop_signal h 0 None Hc)
    as (R1 & _ & _ & _ & _ & _ & R7 & R8 & _ & R10 & R11 & _).
  split; [exact Ho|]. split; [exact Hr|]. split; [exact R1|].
  split; [exact R7|]. split; [exact R8|].
  split; [exact (eq_trans R10 Hi)|]. exact (R11 0%nat Hm Hl).
Defined.

(** ** The keys *)

(** X13. The toggle button is enabled exactly when no stage can fail for
    want of its key. If [hasApiKeys] holds, then on a non-blank text
    [translateText] sends its request and [speak] starts a synthesis,
    neither reporting an error, and [startRecording] returns true when the
    calls it awaits succeed. If it does not hold, at least one of the
    three fails at once with its configuration error: [startRecording]
    returns false having acquired nothing, or [translateText] returns
    null, or [speak] starts no synthesis. *)
Theorem X13_enabled_button_means_every_key_is_there
    (s : State) (text : jsstring) (sl tl : string) (env : StartRun) (h : Hook) :
  ¬ blank text →
  (hasApiKeys s = true →
     (allFulfilled env → (startRecording s env h).2 = true)
     ∧ (translateText text sl tl s).2 = Pending
     ∧ translationError (translateText text sl tl s).1 = None
     ∧ speeches (speak text tl s) = speeches s ++ [Fetching]
     ∧ ttsError (speak text tl s) = None)
  ∧ (hasApiKeys s = false →
     startRecording s env h
     = (set_error (Some (lit "Gladia API key not configured")) h, false)
     ∨ ((translateText text sl tl s).2 = Resolved None
        ∧ translationError (translateText text sl tl s).1
          = Some "Azure API key not configured"%string)
     ∨ (speeches (speak text tl s) = speeches s
        ∧ ttsError (speak text tl s)
          = Some "ElevenLabs API key not configured"%string)).
Proof.
  intros Hb. pose proof (not_blank_trim text Hb) as Ht.
  unfold hasApiKeys.
  assert (∀ s' k, localStorage s' = localStorage s → getKey k s' = getKey k s)
    as Hext by (intros s' k E; unfold getKey; by rewrite E).
  split.
  - intros [[[g Eg]%bool_decide_eq_true [a Ea]%bool_decide_eq_true]%andb_true_iff
              [e Ee]%bool_decide_eq_true]%andb_true_iff.
    split; [intros Hall; by destruct (startRecording_succeeds s env h g Eg Hall)|].
    unfold translateText, speak. rewrite Ht. simpl.
    rewrite (Hext (set_translationError None (set_isTranslating true s))) by done.
    rewrite (Hext (set_ttsError None (set_isSpeaking true s))) by done.
    by rewrite Ea, Ee.
  - intros [[Hg%bool_decide_eq_false|Ha%bool_decide_eq_false]%andb_false_iff
             |He%bool_decide_eq_false]%andb_false_iff.
    + left. apply eq_None_not_Some in Hg. unfold_hook. by rewrite Hg.
    + right; left. apply eq_None_not_Some in Ha.
      unfold translateText. rewrite Ht. simpl.
      rewrite (Hext (set_translationError None (set_isTranslating true s)))
        by done.
      by rewrite Ha.
    + right; right. apply eq_None_not_Some in He.
      unfold speak. rewrite Ht. simpl.
      rewrite (Hext (set_ttsError None (set_isSpeaking true s))) by done.
      by rewrite He.
Qed.

Lemma X13_enabled_button_means_every_key_is_there_witness :
  hasApiKeys (init allKeys) = true
  ∧ hasApiKeys (handleSave noSpeechKey (init allKeys)) = false
  ∧ (startRecording (init allKeys) (granted Suspended) initHook).2 = true
  ∧ (translateText (lit "Hello") "Auto-Detect" "es" (init allKeys)).2 = Pending.
Proof.
  assert (¬ blank (lit "Hello")) as Hb.
  { intros H. apply trim_blank in H. by vm_compute in H. }
  assert (hasApiKeys (init allKeys) = true) as Hk by (by vm_compute).
  assert (hasApiKeys (handleSave noSpeechKey (init allKeys)) = false) as Hn
    by (by vm_compute).
  assert (allFulfilled (granted Suspended)) as Hall.
  { split_and!; try done; by eexists. }
  pose proof (X13_enabled_button_means_every_key_is_there (init allKeys)
                (lit "Hello") "Auto-Detect" "es" (granted Suspended) initHook Hb)
    as [R _].
  destruct (R Hk) as (R1 & R2 & _).
  split; [exact Hk|]. split; [exact Hn|]. split; [exact (R1 Hall)|exact R2].
Defined.

(** ** The messages of the socket *)

Local Arguments onmessage : simpl nomatch.
Local Arguments lit : simpl never.
Local Arguments getOwn : simpl never.
Local Arguments ToBoolean : simpl never.

Lemma isString_spec (v : Value) (s : string) :
  isString v s = true ↔ v = Some (JString (lit s)).
Proof.
  unfold isString. destruct v as [[| | |t| |]|]; try (split; done).
  rewrite bool_decide_eq_true. split; [by intros ->|by intros [= ->]].
Qed.

(** X17. Of the messages of the socket only final transcripts with a text
    reach the page: [onTranscription] is called, once and with the text,
    exactly when the message is an object of type "transcript" whose
    [data] is an object with a truthy [is_final] and an object [utterance]
    with a truthy [text]; the same text becomes [transcription] and the
    error is left as it is. Every other message (a partial transcript, a
    speech event, an error, anything else, or text that does not parse)
    leaves [transcription] alone and calls nothing. The handler never
    touches the refs, the connection flag or the socket. *)
Theorem X17_only_final_transcripts_reach_the_page
    (ToString : JSON → jsstring) (data : option JSON) (h : Hook) :
  let h' := onmessage ToString data h in
  let text := data ≫= finalTranscript in
  delivered h' = delivered h ++ option_list text
  ∧ transcription h' = default (transcription h) text
  ∧ (∀ t, text = Some t → ToBoolean (Some t) = true ∧ error h' = error h)
  ∧ isConnected h' = isConnected h
  ∧ wsRef h' = wsRef h
  ∧ sockets h' = sockets h
  ∧ sent h' = sent h.
Proof.
  intros h' text.
  destruct (onmessage_frame ToString data h)
    as (F1 & _ & F3 & _ & _ & _ & _ & _ & F9 & _ & F11).
  fold h' in F1, F3, F9, F11.
  assert (delivered h' = delivered h ++ option_list text
          ∧ transcription h' = default (transcription h) text
          ∧ (∀ t, text = Some t → ToBoolean (Some t) = true ∧ error h' = error h))
    as (R1 & R2 & R3); [|by split_and!].
  subst h' text. clear.
  destruct data as [[| | | | |fields]|]; cbn;
    rewrite ?app_nil_r; try (by split_and!).
  unfold onmessage, member, optionalMember, isString.
  destruct (getOwn fields "type") as [[| | |type| |]|]; cbn;
    rewrite ?app_nil_r; try (by split_and!).
  destruct (bool_decide (type = lit "transcript")); cbn.
  - destruct (getOwn fields "data") as [[| | | | |d]|]; cbn;
      rewrite ?app_nil_r; try (by split_and!).
    destruct (ToBoolean (getOwn d "is_final")); cbn;
      rewrite ?app_nil_r; try (by split_and!).
    destruct (getOwn d "utterance") as [[| | | | |u]|]; cbn;
      rewrite ?app_nil_r; try (by split_and!).
    destruct (getOwn u "text") as [t|]; cbn;
      rewrite ?app_nil_r; try (by split_and!).
    destruct (ToBoolean (Some t)) eqn:E; cbn;
      rewrite ?app_nil_r; try (by split_and!).
    split; [done|]. split; [done|]. intros ? [= <-]. by split.
  - destruct (getOwn fields "data") as [[| | | | |d]|];
      repeat case_match; cbn; rewrite ?app_nil_r; by split_and!.
Qed.

(** X18. What the message handler reports. Text that does not parse, and
    the message [null], set the error "Error parsing server message.";
    no other message does. A message of type "error" sets "Gladia Error: "
    followed by its [error.message], or by "Unknown error" when that is
    missing or falsy. A message other than [null] whose type is neither
    "transcript" nor "error" changes nothing at all. *)
Theorem X18_what_the_message_handler_reports
    (ToString : JSON → jsstring) (h : Hook) :
  (∀ s, ToString (JString s) = s) →
  onmessage ToString None h
  = set_error (Some (lit "Error parsing server message.")) h
  ∧ onmessage ToString (Some JNull) h
    = set_error (Some (lit "Error parsing server message.")) h
  ∧ (∀ message, message ≠ JNull →
       error (onmessage ToString (Some message) h) = error h
       ∨ ∃ v, error (onmessage ToString (Some message) h)
              = Some (lit "Gladia Error: " ++ v))
  ∧ (∀ fields m,
       getOwn fields "type" = Some (JString (lit "error")) →
       optionalMember (getOwn fields "error") "message" = Some (JString m) →
       m ≠ [] →
       onmessage ToString (Some (JObject fields)) h
       = set_error (Some (lit "Gladia Error: " ++ m)) h)
  ∧ (∀ fields,
       getOwn fields "type" = Some (JString (lit "error")) →
       ToBoolean (optionalMember (getOwn fields "error") "message") = false →
       onmessage ToString (Some (JObject fields)) h
       = set_error (Some (lit "Gladia Error: Unknown error")) h)
  ∧ (∀ message,
       message ≠ JNull →
       isString (optionalMember (Some message) "type") "transcript" = false →
       isString (optionalMember (Some message) "type") "error" = false →
       onmessage ToString (Some message) h = h).
Proof.
  intros HT. split; [done|]. split; [done|]. split; [|split; [|split]].
  - intros message Hne.
    destruct message as [| | | | |fields]; try done; try (by left).
    unfold onmessage, member. cbn.
    repeat case_match; simplify_eq/=; try (by left); right; by eexists.
  - intros fields m Ht Hm Hne. unfold onmessage, member. rewrite Ht. cbn.
    rewrite Hm. unfold ToBoolean. apply truthy_true in Hne.
    by rewrite Hne, HT.
  - intros fields Ht Hm. unfold onmessage, member. rewrite Ht. cbn.
    destruct (optionalMember (getOwn fields "error") "message") as [v|];
      [|by rewrite HT].
    by rewrite Hm, HT.
  - intros message Hne H1 H2.
    destruct message as [| | | | |fields]; try done.
    unfold onmessage, member. cbn in *. rewrite H1, H2.
    by repeat case_match.
Qed.

Lemma X18_what_the_message_handler_reports_witness :
  onmessage stringOnly (Some JNull) initHook
  = set_error (Some (lit "Error parsing server message.")) initHook
  ∧ onmessage stringOnly
      (Some (JObject
               [("type", JString (lit "error"));
                ("error", JObject [("message", JString (lit "quota"))])]%string))
      initHook
    = set_error (Some (lit "Gladia Error: quota")) initHook.
Proof.
  assert (∀ s, stringOnly (JString s) = s) as HT by done.
  assert (getOwn [("type", JString (lit "error"));
                  ("error", JObject [("message", JString (lit "quota"))])]%string
            "type" = Some (JString (lit "error"))) as H1 by (by vm_compute).
  assert (optionalMember
            (getOwn [("type", JString (lit "error"));
                     ("error", JObject [("message", JString (lit "quota"))])]%string
               "error") "message" = Some (JString (lit "quota"))) as H2
    by (by vm_compute).
  assert (lit "quota" ≠ []) as H3 by (by vm_compute).
  pose proof (X18_what_the_message_handler_reports stringOnly initHook HT)
    as (_ & R2 & _ & R4 & _).
  split; [exact R2|].
  exact (R4 [("type", JString (lit "error"));
             ("error", JObject [("message", JString (lit "quota"))])]%string
           (lit "quota") H1 H2 H3).
Defined.

(** ** Changing the target language *)

Lemma runEffects_both prev s :
  translateDeps prev ≠ translateDeps (render s) →
  ttsDeps prev ≠ ttsDeps (render s) →
  runEffects prev s = ttsEffect (render s) (autoTranslateEffect (render s) s).
Proof.
  intros H1 H2. unfold runEffects. cbv zeta.
  rewrite (decide_False (P := translateDeps _ = _)) by done.
  by rewrite (decide_False (P := ttsDeps _ = _)).
Qed.

(** X23. Changing the target language in mid-session retranslates the
    whole buffer but resets nothing: with a non-blank source buffer and
    the Azure key configured, the step sends one translation request for
    the whole SourceTextBuffer to the new language, keeps both buffers as
    they are and never lowers the SpokenWatermark, which was measured on
    the translation into the old language; and if the step calls [speak]
    at all, it passes the unspoken portion of the old translation together
    with the new language code. *)
Theorem X23_language_change_keeps_the_watermark
    (s : State) (code key : string) :
  code ≠ targetLanguage s →
  ¬ blank (sourceText s) →
  getKey "azure_api_key" s = Some key →
  let s' := selectTargetLanguage code s in
  targetLanguage s' = code
  ∧ sourceText s' = sourceText s
  ∧ translatedText s' = translatedText s
  ∧ (watermark s ≤ watermark s')%nat
  ∧ translations s' = translations s ++ [sourceText s]
  ∧ (∃ rest,
       network s'
       = network s
         ++ TranslateRequest
              (if String.eqb (sourceLanguage s) "Auto-Detect" then None
               else Some (sourceLanguage s))
              code key
              (default "central india"%string (getKey "azure_region" s))
              (sourceText s)
            :: rest)
  ∧ (speakLog s' = speakLog s
     ∨ speakLog s' = speakLog s ++ [(unspoken (translatedText s) s, code)]).
Proof.
  intros Hne Hb Hkey s'. subst s'. unfold selectTargetLanguage.
  set (h := set_targetLanguage code s).
  pose proof (settle_mono (render s) h) as Hmono.
  change (watermark h) with (watermark s) in Hmono.
  assert (runEffects (render s) h
          = ttsEffect (render h) (autoTranslateEffect (render h) h)) as E1.
  { apply runEffects_both.
    - rewrite !translateDeps_render. simpl. congruence.
    - rewrite !ttsDeps_render. simpl. congruence. }
  assert (autoTranslateEffect (render h) h
          = (translateText (sourceText s) (sourceLanguage s) code h).1) as E2.
  { unfold autoTranslateEffect. simpl.
    rewrite (nonblank_condition _ Hb).
    unfold translateText. rewrite (not_blank_trim _ Hb). simpl.
    change (getKey "azure_api_key" _) with (getKey "azure_api_key" s).
    by rewrite Hkey. }
  set (sA := autoTranslateEffect (render h) h) in *.
  assert (targetLanguage sA = code ∧ sourceText sA = sourceText s
          ∧ translatedText sA = translatedText s
          ∧ translations sA = translations s ++ [sourceText s]
          ∧ network sA
            = network s
              ++ [TranslateRequest
                    (if String.eqb (sourceLanguage s) "Auto-Detect" then None
                     else Some (sourceLanguage s))
                    code key
                    (default "central india"%string (getKey "azure_region" s))
                    (sourceText s)]
          ∧ speakLog sA = speakLog s
          ∧ lastSpokenTranslatedTextRef sA = lastSpokenTranslatedTextRef s)
    as (A1 & A2 & A3 & A4 & A5 & A6 & A7).
  { rewrite E2. unfold translateText. rewrite (not_blank_trim _ Hb). simpl.
    change (getKey "azure_api_key" _) with (getKey "azure_api_key" s).
    by rewrite Hkey. }
  destruct (settle_frame (render s) h)
    as (FT & _ & _ & FTL & _ & _ & _ & FLog & FSrc & FN & _).
  destruct (ttsEffect_frame (render h) sA) as (TT & TS & _ & TTL & _ & TTr & _).
  assert (translations (settle (render s) h) = translations (runEffects (render s) h))
    as FTr.
  { destruct (settle_cases (render s) h) as [[_ ->]| ->]; [done|]. by crush. }
  rewrite FT, FTL, FSrc, FN, FLog, FTr, E1, TT, TS, TTL, TTr, A1, A2, A3, A4.
  split; [done|]. split; [done|]. split; [done|]. split; [done|].
  split; [done|].
  assert (unspoken (translatedText s) (clearDebounce sA)
          = unspoken (translatedText s) s) as Eu.
  { rewrite unspoken_clearDebounce. by apply unspoken_ext. }
  destruct (clearDebounce_frame sA)
    as (_ & _ & _ & _ & _ & _ & _ & CLog & _ & CN & _ & CLs).
  destruct (ttsEffect_cases (render h) sA)
    as [E|[(_ & Hu & E)|(_ & _ & _ & E)]]; rewrite E.
  - rewrite CN, CLog, A5, A6. split; [by exists []|by left].
  - rewrite speakAndAdvance_log, CLog, A6.
    rewrite (speakAndAdvance_network _ _ _ (unspoken_speakable _ _ Hu)).
    rewrite CN, A5. split.
    + rewrite <- app_assoc. by eexists.
    + right. simpl. by rewrite <- Eu, unspoken_clearDebounce.
  - unfold armDebounce. simpl. rewrite CN, CLog, A5, A6.
    split; [by exists []|by left].
Qed.

Lemma X23_language_change_keeps_the_watermark_witness :
  let s :=
    run (init allKeys)
      [EToggleClick; EStartResume 0 true; EFragment (lit "Hello.");
       ETranslateDone 0 (TranslateOk (lit "Hola.")); ESpeechPlaying 0;
       ESpeechEnd 0 PlaybackEnded] in
  let s' := selectTargetLanguage "fr" s in
  watermark s = 5%nat
  ∧ translations s' = translations s ++ [sourceText s]
  ∧ (watermark s ≤ watermark s')%nat
  ∧ speakLog (step s' (ETranslateDone 0 (TranslateOk (lit "Bonjour."))))
    = [(lit "Hola.", "es"%string); (lit "ur.", "fr"%string)].
Proof.
  intros s s'.
  assert ("fr"%string ≠ targetLanguage s) as H1 by (by vm_compute).
  assert (¬ blank (sourceText s)) as H2.
  { intros H. apply trim_blank in H. by vm_compute in H. }
  assert (getKey "azure_api_key" s = Some "a"%string) as H3 by (by vm_compute).
  assert (watermark s = 5%nat) as H4 by (by vm_compute).
  assert (speakLog (step s' (ETranslateDone 0 (TranslateOk (lit "Bonjour."))))
          = [(lit "Hola.", "es"%string); (lit "ur.", "fr"%string)]) as H5
    by (by vm_compute).
  pose proof (X23_language_change_keeps_the_watermark s "fr" "a" H1 H2 H3)
    as (_ & _ & _ & R4 & R5 & _).
  split; [exact H4|]. split; [exact R5|]. split; [exact R4|exact H5].
Defined.

(** ** The language selector *)

Lemma find_not_offered (value : string) (l : list (string * string)) :
  value ∉ l.*1 → List.find (λ lang, String.eqb lang.1 value) l = None.
Proof.
  induction l as [|[code name] l IH]; [done|]. simpl.
  rewrite not_elem_of_cons. intros [Hne Hl].
  destruct (String.eqb_spec code value) as [->|]; [done|by apply IH].
Qed.

(** X24. The selector shows, for a value it offers, the name of that
    entry: the codes of the list are pairwise distinct, every offered code
    is shown with its own name, and any other value (Auto-Detect in a
    selector that does not offer it included) is shown as
    "Select Language". *)
Theorem X24_selector_shows_the_selected_language (allowAutoDetect : bool) :
  NoDup (displayLanguages allowAutoDetect).*1
  ∧ (∀ code name,
       (code, name) ∈ displayLanguages allowAutoDetect →
       selectedLabel allowAutoDetect code = name)
  ∧ (∀ value,
       value ∉ (displayLanguages allowAutoDetect).*1 →
       selectedLabel allowAutoDetect value = "Select Language"%string).
Proof.
  split; [|split].
  - destruct allowAutoDetect; apply (bool_decide_unpack _); by vm_compute.
  - assert (Forall (λ lang, selectedLabel allowAutoDetect lang.1 = lang.2)
              (displayLanguages allowAutoDetect)) as HF.
    { destruct allowAutoDetect; apply (bool_decide_unpack _); by vm_compute. }
    intros code name Hin. by apply (proj1 (Forall_forall _ _) HF (code, name)).
  - intros value Hv. unfold selectedLabel.
    assert (String.eqb value "Auto-Detect" && allowAutoDetect = false) as ->.
    { destruct allowAutoDetect; [|by rewrite andb_false_r].
      destruct (String.eqb_spec value "Auto-Detect") as [->|]; [|done].
      exfalso. apply Hv. simpl. left. }
    rewrite find_not_offered; [done|].
    destruct allowAutoDetect; [|done].
    simpl in Hv. by apply not_elem_of_cons in Hv as [_ ?].
Qed.
